(** * A shallow embedding of the NAPALM driver for Dasan NOS

    The driver ([napalm_dasan_nos/dasan_nos.py]) talks to a network appliance
    over an interactive command channel and turns its answers into typed
    records.  This development embeds the driver's methods as Rocq functions
    and proves (or refutes) statements of its specification.

    Conventions of the embedding.
    - A Python [str] is a Rocq [string]: a sequence of code points below 256.
      On that range [\d] is [0-9] and the white-space characters of
      [str.strip], [str.isspace] and [\s] are 9-13, 28-32, 133 and 160.
    - A Python exception is a value of [exn]; code that may raise returns
      [result A = exn + A].
    - Patterns are kept as the strings the source writes; [re_compile] parses
      the fragment of the [re] syntax the driver uses and [re_m] is a
      backtracking matcher with the priorities of Python's engine (greedy
      repetition, leftmost alternative first).
    - A Python [float] is a binary64 number ([PrimFloat.float]).
    - The netmiko session is a state machine over an abstract state; every
      exchange with it is recorded in a trace. *)

From Stdlib Require Import ZArith Ascii String List Bool Lia DecimalString.
From Stdlib Require Import Floats.PrimFloat Floats.SpecFloat Floats.FloatOps Floats.FloatAxioms.
From stdpp Require Import base strings gmap list.

Local Open Scope string_scope.

(** ** Characters and strings *)

Module Str.

Definition code (c : ascii) : N := N_of_ascii c.

(** [str.isspace] on one code point below 256 (also the class [\s]). *)
Definition is_space (c : ascii) : bool :=
  let n := code c in
  ((9 <=? n) && (n <=? 13) || (28 <=? n) && (n <=? 32)
   || (n =? 133) || (n =? 160))%N.

(** The class [\d] on code points below 256. *)
Definition is_digit (c : ascii) : bool :=
  let n := code c in ((48 <=? n) && (n <=? 57))%N.

Definition nl : ascii := ascii_of_N 10.

Fixpoint lstrip (s : string) : string :=
  match s with
  | String c s' => if is_space c then lstrip s' else s
  | EmptyString => EmptyString
  end.

Fixpoint rstrip (s : string) : string :=
  match s with
  | String c s' =>
      match rstrip s' with
      | EmptyString => if is_space c then EmptyString else String c EmptyString
      | r => String c r
      end
  | EmptyString => EmptyString
  end.

(** [s.strip()] *)
Definition strip (s : string) : string := lstrip (rstrip s).

(** [s[-1]]: the last character, [None] standing for [IndexError]. *)
Fixpoint last (s : string) : option ascii :=
  match s with
  | EmptyString => None
  | String c EmptyString => Some c
  | String _ s' => last s'
  end.

Fixpoint starts_with (p s : string) : bool :=
  match p, s with
  | EmptyString, _ => true
  | String a p', String b s' => (Ascii.eqb a b) && starts_with p' s'
  | String _ _, EmptyString => false
  end.

(** [p in s] for two strings. *)
Fixpoint contains (p s : string) : bool :=
  starts_with p s ||
  match s with
  | String _ s' => contains p s'
  | EmptyString => false
  end.

Fixpoint take (n : nat) (s : string) : string :=
  match n, s with
  | S n', String c s' => String c (take n' s')
  | _, _ => EmptyString
  end.

Fixpoint drop (n : nat) (s : string) : string :=
  match n, s with
  | S n', String _ s' => drop n' s'
  | _, _ => s
  end.

Fixpoint all (p : ascii -> bool) (s : string) : bool :=
  match s with
  | String c s' => p c && all p s'
  | EmptyString => true
  end.

(** The text between two positions of a scan: what was consumed from [s]
    when [rest] is what remains. *)
Definition consumed (s rest : string) : string :=
  take (String.length s - String.length rest) s.

End Str.

(** ** Exceptions *)

Inductive exn : Type :=
| SocketError (msg : string)               (* socket.error *)
| EOFError (msg : string)
| ConnectionClosedException (msg : string)
| ValueError (msg : string)
| TypeError (msg : string)
| AttributeError (msg : string)
| IndexError (msg : string)
| KeyError (key : string)
| OverflowError (msg : string)
| NotImplementedError (msg : string)
| ReError (msg : string)                   (* re.error *)
| OtherError (msg : string).               (* any other exception class *)

Definition result (A : Type) : Type := exn + A.

Definition ok {A} (a : A) : result A := inr a.
Definition raise {A} (e : exn) : result A := inl e.

Definition rbind {A B} (m : result A) (f : A -> result B) : result B :=
  match m with
  | inl e => inl e
  | inr a => f a
  end.

Notation "'let?' x ':=' m 'in' k" := (rbind m (fun x => k))
  (at level 10, x name, m at level 100, k at level 200).

(** ** Regular expressions: the fragment of Python's [re] the driver uses *)

Module Re.

(** Character categories of [\d], [\D], [\s], [\S]. *)
Inductive category : Type := CatDigit | CatNotDigit | CatSpace | CatNotSpace.

Definition in_category (k : category) (c : ascii) : bool :=
  match k with
  | CatDigit => Str.is_digit c
  | CatNotDigit => negb (Str.is_digit c)
  | CatSpace => Str.is_space c
  | CatNotSpace => negb (Str.is_space c)
  end.

(** Members of a character set [[...]]. *)
Inductive set_item : Type :=
| SLit (c : ascii)
| SRange (lo hi : ascii)
| SCat (k : category).

Definition in_item (i : set_item) (c : ascii) : bool :=
  match i with
  | SLit a => Ascii.eqb a c
  | SRange lo hi => ((Str.code lo <=? Str.code c) && (Str.code c <=? Str.code hi))%N
  | SCat k => in_category k c
  end.

(** Patterns that consume exactly one character. *)
Inductive atom : Type :=
| ALit (c : ascii)                         (* a literal character *)
| AAny                                     (* [.]: anything but a newline *)
| ACat (k : category)                      (* [\d], [\s], [\S], ... *)
| ASet (negate : bool) (items : list set_item).   (* [[...]] *)

Definition atom_matches (a : atom) (c : ascii) : bool :=
  match a with
  | ALit x => Ascii.eqb x c
  | AAny => negb (Ascii.eqb c Str.nl)
  | ACat k => in_category k c
  | ASet negate items => xorb negate (existsb (fun i => in_item i c) items)
  end.

Inductive re : Type :=
| REmpty
| RAtom (a : atom)
| RRep (a : atom) (min : nat)     (* greedy [a*] (min 0) and [a+] (min 1) *)
| ROpt (r : re)                   (* greedy [r?] *)
| REnd                            (* [$] *)
| RGroup (i : nat) (r : re)       (* capturing group number [i] *)
| RCat (r1 r2 : re).

(** A compiled pattern: the expression, the number of capturing groups and
    the named groups with their numbers, in the order they open. *)
Record pattern : Type := Pattern {
  p_re : re;
  p_groups : nat;
  p_names : list (string * nat)
}.

(** *** Parsing ([re.compile]) *)

(** Syntax of [re] outside the fragment modelled here is reported as
    [Unsupported]; it is not an error of Python's. *)
Inductive parse_error : Type :=
| PError (msg : string)           (* Python raises re.error *)
| Unsupported (what : string).

(** What an item of a sequence is, for the quantifier that may follow. *)
Inductive item : Type :=
| IAtom (a : atom)
| IOther (r : re)                 (* a group *)
| IAt (r : re).                   (* a position: [$] *)

Definition item_re (i : item) : re :=
  match i with
  | IAtom a => RAtom a
  | IOther r => r
  | IAt r => r
  end.

Definition is_ascii_alnum (c : ascii) : bool :=
  let n := Str.code c in
  ((48 <=? n) && (n <=? 57) || (65 <=? n) && (n <=? 90)
   || (97 <=? n) && (n <=? 122))%N.

(** An escape [\c] inside a character set ([_class_escape]). *)
Definition class_escape (c : ascii) : parse_error + set_item :=
  if Ascii.eqb c "d" then inr (SCat CatDigit)
  else if Ascii.eqb c "D" then inr (SCat CatNotDigit)
  else if Ascii.eqb c "s" then inr (SCat CatSpace)
  else if Ascii.eqb c "S" then inr (SCat CatNotSpace)
  else if Ascii.eqb c "n" then inr (SLit Str.nl)
  else if Ascii.eqb c "t" then inr (SLit (ascii_of_N 9))
  else if Ascii.eqb c "r" then inr (SLit (ascii_of_N 13))
  else if is_ascii_alnum c then inl (Unsupported "escape in a set")
  else inr (SLit c).

(** An escape [\c] outside a character set ([_escape]). *)
Definition escape (c : ascii) : parse_error + atom :=
  if Ascii.eqb c "d" then inr (ACat CatDigit)
  else if Ascii.eqb c "D" then inr (ACat CatNotDigit)
  else if Ascii.eqb c "s" then inr (ACat CatSpace)
  else if Ascii.eqb c "S" then inr (ACat CatNotSpace)
  else if Ascii.eqb c "n" then inr (ALit Str.nl)
  else if Ascii.eqb c "t" then inr (ALit (ascii_of_N 9))
  else if Ascii.eqb c "r" then inr (ALit (ascii_of_N 13))
  else if is_ascii_alnum c then inl (Unsupported "escape")
  else inr (ALit c).

(** One member of a set, read from the front of [s]; [None] at the end of
    the pattern. *)
Definition set_member (s : string) : option (parse_error + (set_item * string)) :=
  match s with
  | EmptyString => None
  | String "\" EmptyString => Some (inl (PError "bad escape (end of pattern)"))
  | String "\" (String c s') =>
      Some (match class_escape c with
            | inl e => inl e
            | inr i => inr (i, s')
            end)
  | String c s' => Some (inr (SLit c, s'))
  end.

Definition unterminated : parse_error := PError "unterminated character set".

(** The members of a set up to its closing bracket.  [acc] holds the members
    read so far, last first; a closing bracket ends the set only when [acc]
    is not empty. *)
Fixpoint parse_set (fuel : nat) (s : string) (acc : list set_item)
  : parse_error + (list set_item * string) :=
  match fuel with
  | O => inl unterminated
  | S fuel' =>
      match s, acc with
      | String "]" s', _ :: _ => inr (rev acc, s')
      | _, _ =>
          match set_member s with
          | None => inl unterminated
          | Some (inl e) => inl e
          | Some (inr (code1, s1)) =>
              match s1 with
              | String "-" s2 =>
                  (* potential range *)
                  match s2 with
                  | String "]" s3 => inr (rev (SLit "-" :: code1 :: acc), s3)
                  | _ =>
                      match set_member s2 with
                      | None => inl unterminated
                      | Some (inl e) => inl e
                      | Some (inr (code2, s3)) =>
                          match code1, code2 with
                          | SLit lo, SLit hi =>
                              if (Str.code hi <? Str.code lo)%N
                              then inl (PError "bad character range")
                              else parse_set fuel' s3 (SRange lo hi :: acc)
                          | _, _ => inl (PError "bad character range")
                          end
                      end
                  end
              | _ => parse_set fuel' s1 (code1 :: acc)
              end
          end
      end
  end.

(** The name of a group [(?P<name>...)]: up to the closing [>]. *)
Fixpoint group_name (s : string) : option (string * string) :=
  match s with
  | EmptyString => None
  | String ">" s' => Some (EmptyString, s')
  | String c s' =>
      match group_name s' with
      | Some (n, r) => Some (String c n, r)
      | None => None
      end
  end.

(** Parser state: the number of groups opened so far and the named ones. *)
Record pstate : Type := PState {
  ps_groups : nat;
  ps_names : list (string * nat)
}.

(** The quantifier that follows an item, if any. *)
Definition quantify (i : item) (s : string) : parse_error + (re * string) :=
  let lazy_or_more (r : re) (s' : string) : parse_error + (re * string) :=
    match s' with
    | String "?" _ => inl (Unsupported "lazy quantifier")
    | String "+" _ => inl (Unsupported "possessive quantifier")
    | String "*" _ => inl (PError "multiple repeat")
    | String "{" _ => inl (Unsupported "counted repetition")
    | _ => inr (r, s')
    end in
  let repeat (min : nat) (s' : string) : parse_error + (re * string) :=
    match i with
    | IAtom a => lazy_or_more (RRep a min) s'
    | IOther _ => inl (Unsupported "repetition of a group")
    | IAt _ => inl (PError "nothing to repeat")
    end in
  match s with
  | String "*" s' => repeat 0 s'
  | String "+" s' => repeat 1 s'
  | String "?" s' =>
      match i with
      | IAt _ => inl (PError "nothing to repeat")
      | _ => lazy_or_more (ROpt (item_re i)) s'
      end
  | String "{" _ => inl (Unsupported "counted repetition")
  | _ => inr (item_re i, s)
  end.

(** A sequence of items up to the end of the pattern or a closing
    parenthesis (which is left in place). *)
Fixpoint parse_seq (fuel : nat) (s : string) (st : pstate)
  : parse_error + (re * string * pstate) :=
  match fuel with
  | O => inl (Unsupported "out of fuel")
  | S fuel' =>
      let continue (i : item) (s1 : string) (st1 : pstate) :=
        match quantify i s1 with
        | inl e => inl e
        | inr (r, s2) =>
            match parse_seq fuel' s2 st1 with
            | inl e => inl e
            | inr (r', s3, st3) => inr (RCat r r', s3, st3)
            end
        end in
      let group (capture : option (option string)) (body : string) :=
        (* [capture]: [None] for [(?:...)], [Some name] for a capturing group *)
        let st1 :=
          match capture with
          | None => st
          | Some None => PState (S (ps_groups st)) (ps_names st)
          | Some (Some n) =>
              PState (S (ps_groups st)) (ps_names st ++ [(n, S (ps_groups st))])
          end in
        match parse_seq fuel' body st1 with
        | inl e => inl e
        | inr (r, String ")" s1, st2) =>
            continue (IOther (match capture with
                              | None => r
                              | Some _ => RGroup (S (ps_groups st)) r
                              end)) s1 st2
        | inr _ => inl (PError "missing ), unterminated subpattern")
        end in
      match s with
      | EmptyString => inr (REmpty, s, st)
      | String ")" _ => inr (REmpty, s, st)
      | String "|" _ => inl (Unsupported "alternation")
      | String "^" _ => inl (Unsupported "start anchor")
      | String "*" _ | String "+" _ | String "?" _ => inl (PError "nothing to repeat")
      | String "{" _ => inl (Unsupported "counted repetition")
      | String "$" s1 => continue (IAt REnd) s1 st
      | String "." s1 => continue (IAtom AAny) s1 st
      | String "\" EmptyString => inl (PError "bad escape (end of pattern)")
      | String "\" (String c s1) =>
          match escape c with
          | inl e => inl e
          | inr a => continue (IAtom a) s1 st
          end
      | String "[" (String "^" s1) =>
          match parse_set fuel' s1 [] with
          | inl e => inl e
          | inr (items, s2) => continue (IAtom (ASet true items)) s2 st
          end
      | String "[" s1 =>
          match parse_set fuel' s1 [] with
          | inl e => inl e
          | inr (items, s2) => continue (IAtom (ASet false items)) s2 st
          end
      | String "(" (String "?" (String ":" s1)) => group None s1
      | String "(" (String "?" (String "P" (String "<" s1))) =>
          match group_name s1 with
          | None => inl (PError "missing >, unterminated name")
          | Some (n, s2) => group (Some (Some n)) s2
          end
      | String "(" (String "?" _) => inl (Unsupported "group extension")
      | String "(" s1 => group (Some None) s1
      | String c s1 => continue (IAtom (ALit c)) s1 st
      end
  end.

(** [re.compile(pattern)] *)
Definition compile (p : string) : parse_error + pattern :=
  match parse_seq (S (String.length p)) p (PState 0 []) with
  | inl e => inl e
  | inr (r, EmptyString, st) => inr (Pattern r (ps_groups st) (ps_names st))
  | inr (_, _, _) => inl (PError "unbalanced parenthesis")
  end.

(** *** Matching *)

(** Captured groups: number and text, the most recent first. *)
Definition caps : Type := list (nat * string).

Fixpoint cap_lookup (i : nat) (cs : caps) : option string :=
  match cs with
  | [] => None
  | (j, t) :: cs' => if Nat.eqb i j then Some t else cap_lookup i cs'
  end.

(** [$]: at the end of the string or before its final newline; with
    [re.MULTILINE] also before every newline. *)
Definition at_end (multiline : bool) (s : string) : bool :=
  match s with
  | EmptyString => true
  | String c s' =>
      Ascii.eqb c Str.nl &&
      (multiline || match s' with EmptyString => true | _ => false end)
  end.

Section Matcher.
Context {R : Type}.
Variable multiline : bool.

(** Greedy repetition of a one-character pattern: as many characters as
    possible first, then one fewer, down to [min]. *)
Fixpoint rep_m (p : ascii -> bool) (min : nat) (s : string)
         (k : string -> option R) : option R :=
  let stop := match min with O => k s | S _ => None end in
  match s with
  | String c s' =>
      if p c then
        match rep_m p (Nat.pred min) s' k with
        | Some x => Some x
        | None => stop
        end
      else stop
  | EmptyString => stop
  end.

(** The matcher, in continuation-passing style: [re_m r s cs k] matches
    [r] at the front of [s] and hands what remains to [k]; when [k]
    refuses, the next alternative of [r] is tried. *)
Fixpoint re_m (r : re) (s : string) (cs : caps)
         (k : string -> caps -> option R) : option R :=
  match r with
  | REmpty => k s cs
  | RAtom a =>
      match s with
      | String c s' => if atom_matches a c then k s' cs else None
      | EmptyString => None
      end
  | RRep a min => rep_m (atom_matches a) min s (fun s' => k s' cs)
  | ROpt r1 =>
      match re_m r1 s cs k with
      | Some x => Some x
      | None => k s cs
      end
  | REnd => if at_end multiline s then k s cs else None
  | RGroup i r1 =>
      re_m r1 s cs (fun s' cs' => k s' ((i, Str.consumed s s') :: cs'))
  | RCat r1 r2 => re_m r1 s cs (fun s' cs' => re_m r2 s' cs' k)
  end.
End Matcher.

(** A match: the text before it, the matched text, the text after it and
    the groups. *)
Record match_obj : Type := Match {
  m_before : string;
  m_text : string;
  m_after : string;
  m_caps : caps
}.

(** A match of [r] at the front of [s]; with [must_advance] an empty match
    is refused (and the engine backtracks for another). *)
Definition match_here (multiline must_advance : bool) (r : re) (s : string)
  : option (string * caps) :=
  re_m multiline r s []
    (fun rest cs =>
       if must_advance && (String.length rest =? String.length s)%nat
       then None else Some (rest, cs)).

(** [pattern.match(s)] *)
Definition re_match (multiline : bool) (p : pattern) (s : string) : option match_obj :=
  match match_here multiline false (p_re p) s with
  | Some (rest, cs) => Some (Match EmptyString (Str.consumed s rest) rest cs)
  | None => None
  end.

(** The leftmost match in [s], [before] being the text already passed over
    (in reverse). *)
Fixpoint search_from (multiline must_advance : bool) (r : re)
         (before : string) (s : string) : option match_obj :=
  match match_here multiline must_advance r s with
  | Some (rest, cs) =>
      Some (Match before (Str.consumed s rest) rest cs)
  | None =>
      match s with
      | String c s' => search_from multiline false r (before ++ String c EmptyString) s'
      | EmptyString => None
      end
  end.

(** [pattern.search(s)] *)
Definition search (multiline : bool) (p : pattern) (s : string) : option match_obj :=
  search_from multiline false (p_re p) EmptyString s.

(** [match.groupdict()]: the named groups in order, [None] for a group that
    took no part in the match. *)
Definition groupdict (p : pattern) (m : match_obj) : list (string * option string) :=
  map (fun '(n, i) => (n, cap_lookup i (m_caps m))) (p_names p).

(** *** Substitution ([re.sub]) *)

(** A replacement template: literal text and references [\1] ... [\9]. *)
Inductive template_part : Type :=
| TText (c : ascii)
| TGroup (i : nat).

Definition digit_value (c : ascii) : nat := N.to_nat (Str.code c - 48).

Fixpoint parse_template (groups : nat) (t : string) : parse_error + list template_part :=
  match t with
  | EmptyString => inr []
  | String "\" EmptyString => inl (PError "bad escape (end of pattern)")
  | String "\" (String c t') =>
      if Ascii.eqb c "\" then
        match parse_template groups t' with
        | inl e => inl e
        | inr ps => inr (TText "\" :: ps)
        end
      else if Str.is_digit c && negb (Ascii.eqb c "0") then
        match t' with
        | String d _ =>
            if Str.is_digit d then inl (Unsupported "two-digit group reference")
            else if (digit_value c <=? groups)%nat then
              match parse_template groups t' with
              | inl e => inl e
              | inr ps => inr (TGroup (digit_value c) :: ps)
              end
            else inl (PError "invalid group reference")
        | EmptyString =>
            if (digit_value c <=? groups)%nat then inr [TGroup (digit_value c)]
            else inl (PError "invalid group reference")
        end
      else inl (Unsupported "escape in a template")
  | String c t' =>
      match parse_template groups t' with
      | inl e => inl e
      | inr ps => inr (TText c :: ps)
      end
  end.

(** The replacement for one match; a group that took no part in the match
    stands for the empty string. *)
Fixpoint expand (t : list template_part) (cs : caps) : string :=
  match t with
  | [] => EmptyString
  | TText c :: t' => String c (expand t' cs)
  | TGroup i :: t' =>
      match cap_lookup i cs with
      | Some g => g ++ expand t' cs
      | None => expand t' cs
      end
  end.

(** The scan of [re.sub]: replace the leftmost match, go on after it; after
    an empty match the next one must advance. *)
Fixpoint sub_loop (fuel : nat) (multiline : bool) (r : re) (t : list template_part)
         (must_advance : bool) (s : string) : string :=
  match fuel with
  | O => s
  | S fuel' =>
      match search_from multiline must_advance r EmptyString s with
      | None => s
      | Some m =>
          m_before m ++ expand t (m_caps m) ++
          sub_loop fuel' multiline r t
                   (String.length (m_text m) =? 0)%nat (m_after m)
      end
  end.

(** [re.sub(pattern, repl, s, flags)] with [flags] either 0 or [re.M]. *)
Definition sub (multiline : bool) (pat repl : string) (s : string)
  : parse_error + string :=
  match compile pat with
  | inl e => inl e
  | inr p =>
      match parse_template (p_groups p) repl with
      | inl e => inl e
      | inr t => inr (sub_loop (2 * String.length s + 2) multiline (p_re p) t false s)
      end
  end.

End Re.

(** ** Python built-ins *)

(** [re.compile] as the driver sees it: a [re.error] is an exception. *)
Definition re_compile (p : string) : result Re.pattern :=
  match Re.compile p with
  | inr c => ok c
  | inl (Re.PError msg) => raise (ReError msg)
  | inl (Re.Unsupported what) => raise (OtherError what)
  end.

(** The value of a run of decimal digits in which single underscores may
    separate digits; [acc] is [None] before the first digit. *)
Fixpoint digits_value (acc : option Z) (after_underscore : bool) (s : string)
  : option Z :=
  match s with
  | EmptyString => if after_underscore then None else acc
  | String c s' =>
      if Str.is_digit c then
        let d := Z.of_N (Str.code c - 48) in
        digits_value (Some (match acc with Some a => 10 * a + d | None => d end)%Z)
                     false s'
      else if Ascii.eqb c "_" then
        match acc with
        | Some _ => if after_underscore then None else digits_value acc true s'
        | None => None
        end
      else None
  end.

(** [int(s)] for a string, base 10.  (The cap newer interpreters put on the
    number of digits, [sys.get_int_max_str_digits()], is not modelled.) *)
Definition int_of_str (s : string) : result Z :=
  let t := Str.strip s in
  let '(negative, body) :=
    match t with
    | String "-" r => (true, r)
    | String "+" r => (false, r)
    | _ => (false, t)
    end in
  match digits_value None false body with
  | Some n => ok (if negative then - n else n)%Z
  | None => raise (ValueError "invalid literal for int() with base 10")
  end.

(** [int(x)] where [x] is a string or [None]. *)
Definition py_int (x : option string) : result Z :=
  match x with
  | Some s => int_of_str s
  | None =>
      raise (TypeError "int() argument must be a string, a bytes-like object or a real number, not 'NoneType'")
  end.

(** The conversion of an [int] operand of a float operation: the nearest
    binary64 number, ties to even; [OverflowError] beyond the largest. *)
Definition float_of_int (n : Z) : result float :=
  match binary_normalize prec emax n 0 false with
  | S754_infinity _ => raise (OverflowError "int too large to convert to float")
  | x => ok (SF2Prim x)
  end.

(** [x + n] for a float [x] and an int [n]. *)
Definition float_add_int (x : float) (n : Z) : result float :=
  let? f := float_of_int n in ok (x + f)%float.

(** [int(x)] for a float: truncation towards zero. *)
Definition int_of_float (x : float) : result Z :=
  match Prim2SF x with
  | S754_zero _ => ok 0%Z
  | S754_finite s m e =>
      let a := match e with
               | Z0 => Zpos m
               | Zpos _ => Z.shiftl (Zpos m) e
               | Zneg _ => Z.shiftr (Zpos m) (- e)
               end in
      ok (if s then - a else a)%Z
  | S754_infinity _ => raise (OverflowError "cannot convert float infinity to integer")
  | S754_nan => raise (ValueError "cannot convert float NaN to integer")
  end.

(** ** [_format_uptime] *)

Definition uptime_regex : string :=
  "(?:(?P<days>\d+) days )?(?:(?P<hours>\d+) hours )?(?:(?P<minutes>\d+) minutes )?(?P<seconds>\d+) seconds".

(** One turn of the loop [for unit in units]. *)
Definition uptime_step (uptime_sec : float) (unit : string * option string)
  : result float :=
  let '(name, value) := unit in
  if String.eqb name "days" then
    let? n := py_int value in float_add_int uptime_sec (n * 86400)
  else if String.eqb name "hours" then
    let? n := py_int value in float_add_int uptime_sec (n * 3600)
  else if String.eqb name "minutes" then
    let? n := py_int value in float_add_int uptime_sec (n * 60)
  else if String.eqb name "seconds" then
    let? n := py_int value in float_add_int uptime_sec n
  else ok uptime_sec.

Fixpoint uptime_loop (uptime_sec : float) (units : list (string * option string))
  : result float :=
  match units with
  | [] => ok uptime_sec
  | u :: rest =>
      let? acc := uptime_step uptime_sec u in uptime_loop acc rest
  end.

Definition _format_uptime (uptime : string) : result Z :=
  let uptime_sec := 0%float in
  let? regex := re_compile uptime_regex in
  match Re.re_match false regex uptime with
  | None => raise (AttributeError "'NoneType' object has no attribute 'groupdict'")
  | Some m =>
      let units := Re.groupdict regex m in
      let? total := uptime_loop uptime_sec units in
      int_of_float total
  end.

(** ** The session and the structured-extraction collaborator *)

(** What [send_command] hands back: text, or the records TextFSM made of
    it. *)
Inductive exec_result : Type :=
| Text (s : string)
| Records (rs : list (gmap string string)).

(** The netmiko connection ([self.device]) as a state machine over an
    abstract channel state.  [nm_send cmd expect] is the exchange behind
    [send_command(cmd, expect_string=expect)]; it yields text, and with
    [use_textfsm=True] netmiko returns what [nm_textfsm] makes of that text
    (records, or the text itself when no template applies). *)
Class Netmiko : Type := {
  chan : Type;
  nm_find_prompt : chan -> result string * chan;
  nm_send : string -> option string -> chan -> result string * chan;
  nm_write_channel : string -> chan -> result unit * chan;
  nm_is_active : chan -> result bool;
  nm_textfsm : string -> string -> exec_result
}.

(** [float(s)] for a string: the interpreter's decimal-to-binary64
    conversion, a parameter of the model. *)
Class PyFloat : Type := {
  float_of_str : string -> result float
}.

(** One exchange with the session, with what came back. *)
Inductive event : Type :=
| EvPrompt (r : result string)
| EvSend (cmd : string) (expect : option string) (r : result string)
| EvWrite (data : string) (r : result unit)
| EvActive (r : result bool).

Section Driver.
Context `{Netmiko}.

(** The driver object: [self.device] ([None] before [open]) and the
    exchanges made so far. *)
Record driver : Type := Driver {
  device : option chan;
  trace : list event
}.

(** Methods of the driver: state passing, with a result or an exception. *)
Definition M (A : Type) : Type := driver -> result A * driver.

Definition ret {A} (a : A) : M A := fun d => (ok a, d).
Definition throw {A} (e : exn) : M A := fun d => (raise e, d).
Definition bind {A B} (m : M A) (f : A -> M B) : M B :=
  fun d => match m d with
           | (inr a, d') => f a d'
           | (inl e, d') => (inl e, d')
           end.
Definition lift {A} (r : result A) : M A := fun d => (r, d).

(** [try: body except ...: handler] *)
Definition try_except {A} (body : M A) (handler : exn -> M A) : M A :=
  fun d => match body d with
           | (inr a, d') => (inr a, d')
           | (inl e, d') => handler e d'
           end.

Notation "'let*' x ':=' m 'in' k" := (bind m (fun x => k))
  (at level 10, x name, m at level 100, k at level 200).

(** A call of a method of [self.device]. *)
Definition on_device {A} (method : string) (f : chan -> result A * chan)
           (ev : result A -> event) : M A :=
  fun d =>
    match device d with
    | None =>
        (raise (AttributeError ("'NoneType' object has no attribute '" ++ method ++ "'")), d)
    | Some c =>
        let '(r, c') := f c in
        (r, Driver (Some c') (trace d ++ [ev r]))
    end.

Definition find_prompt : M string :=
  on_device "find_prompt" nm_find_prompt EvPrompt.

(** [self.device.send_command(cmd, use_textfsm=..., expect_string=...)] *)
Definition send_command (cmd : string) (use_textfsm : bool) (expect : option string)
  : M exec_result :=
  let* raw := on_device "send_command" (nm_send cmd expect) (EvSend cmd expect) in
  ret (if use_textfsm then nm_textfsm cmd raw else Text raw).

Definition write_channel (data : string) : M unit :=
  on_device "write_channel" (nm_write_channel data) (EvWrite data).

(** [self.device.remote_conn.transport.is_active()] *)
Definition is_active : M bool :=
  on_device "remote_conn" (fun c => (nm_is_active c, c)) EvActive.

(** *** Values of either shape *)

(** [output.strip()] *)
Definition output_strip (o : exec_result) : result exec_result :=
  match o with
  | Text s => ok (Text (Str.strip s))
  | Records _ => raise (AttributeError "'list' object has no attribute 'strip'")
  end.

(** [marker in output]: a substring of a text; never an element of a list
    of records. *)
Definition output_contains (marker : string) (o : exec_result) : bool :=
  match o with
  | Text s => Str.contains marker s
  | Records _ => false
  end.

(** *** [_enable] *)

Definition _enable : M unit :=
  let* _ := send_command "enable" false (Some "#") in ret tt.

(** *** [_send_command] *)

(** A command: one string, or a list of candidates. *)
Inductive command : Type :=
| Single (cmd : string)
| Chain (cmds : list string).

(** [r"[>#{}]\s*$".format(terminating_char)] *)
Definition bounding_pattern (terminating_char : ascii) : string :=
  "[>#" ++ String terminating_char "]\s*$".

(** The loop over the candidates; [output] is the variable of that name. *)
Fixpoint chain_loop (use_textfsm : bool) (cmds : list string) (output : exec_result)
  : M exec_result :=
  match cmds with
  | [] => ret output
  | cmd :: rest =>
      let* out := send_command cmd use_textfsm None in
      let* out := (if use_textfsm then ret out else lift (output_strip out)) in
      if negb (output_contains "% Invalid" out) then ret out
      else chain_loop use_textfsm rest out
  end.

Definition connection_closed (e : exn) : M exec_result :=
  match e with
  | SocketError msg | EOFError msg => throw (ConnectionClosedException msg)
  | _ => throw e
  end.

Definition _send_command (command : command) (use_textfsm : bool) : M exec_result :=
  let* prompt := find_prompt in
  let current_prompt := Str.strip prompt in
  match Str.last current_prompt with
  | None => throw (IndexError "string index out of range")
  | Some terminating_char =>
      let pattern := bounding_pattern terminating_char in
      try_except
        (match command with
         | Chain cmds => chain_loop use_textfsm cmds (Text "")
         | Single cmd =>
             let* out := send_command cmd use_textfsm (Some pattern) in
             if use_textfsm then ret out else lift (output_strip out)
         end)
        connection_closed
  end.

(** *** [cli] *)

Fixpoint cli_loop (commands : list string) (cli_output : gmap string exec_result)
  : M (gmap string exec_result) :=
  match commands with
  | [] => ret cli_output
  | command :: rest =>
      let* out := _send_command (Single command) false in
      if output_contains "Incorrect usage" out
      then throw (ValueError ("Unable to execute command " ++ command))
      else cli_loop rest (<[command := out]> cli_output)
  end.

(** [commands] is a list by its type here; the [TypeError] of the source for
    other values has no counterpart. *)
Definition cli (commands : list string) (encoding : string) : M (gmap string exec_result) :=
  if negb (String.eqb encoding "text")
  then throw (NotImplementedError (encoding ++ " is not a supported encoding"))
  else cli_loop commands ∅.

(** *** [get_config] *)

(** The dictionary with the keys [startup], [running] and [candidate]. *)
Record config_dict : Type := ConfigDict {
  startup : exec_result;
  running : exec_result;
  candidate : exec_result
}.

(** The redaction rules, in the order of the dictionary. *)
Definition filters : list (string * string) :=
  [ ("(mgmt-mode tr-069 access id \S+\s+password\s+).*$", "\1<removed>");
    ("(onu auto-upgrade firmware.*\s+ftp\s+\S+\s+\S+\s+).*$", "\1<removed>");
    ("(snmp trap\S+\s+\S+\s+).*$", "\1<removed>");
    ("(snmp community\s+\S+\s+).*$", "\1<removed>") ].

Definition re_sub (multiline : bool) (pat repl s : string) : result string :=
  match Re.sub multiline pat repl s with
  | inr t => ok t
  | inl (Re.PError msg) => raise (ReError msg)
  | inl (Re.Unsupported what) => raise (OtherError what)
  end.

(** Modelled from the spec: [napalm.base.helpers.sanitize_configs] is not
    under src/.  For each redaction rule, in order, every span the rule's
    pattern matches is replaced by the captured prefix followed by
    [<removed>]; rules are line-oriented (each matches from its prefix to the
    end of the line, i.e. [re.sub] with [re.MULTILINE]). *)
Fixpoint sanitize_config (config : string) (rules : list (string * string))
  : result string :=
  match rules with
  | [] => ok config
  | (filter_, replace) :: rest =>
      let? config := re_sub true filter_ replace config in
      sanitize_config config rest
  end.

Definition sanitize_field (rules : list (string * string)) (o : exec_result) : result exec_result :=
  match o with
  | Text s => let? t := sanitize_config s rules in ok (Text t)
  | Records _ => raise (TypeError "expected string or bytes-like object")
  end.

(** Modelled from the spec: [napalm.base.helpers.sanitize_configs] is not
    under src/.  The rules are applied across every text field of the
    snapshot, including empty ones. *)
Definition sanitize_configs (data : config_dict) (rules : list (string * string))
  : result config_dict :=
  let? s := sanitize_field rules (startup data) in
  let? r := sanitize_field rules (running data) in
  let? c := sanitize_field rules (candidate data) in
  ok (ConfigDict s r c).

Definition retrieve_in (retrieve : string) (choices : list string) : bool :=
  existsb (String.eqb retrieve) choices.

Definition get_config (retrieve : string) (full : bool) (sanitized : bool)
  : M config_dict :=
  let* _ := _enable in
  let data := ConfigDict (Text "") (Text "") (Text "") in
  let* data :=
    (if retrieve_in retrieve ["all"; "running"] then
       let* config := _send_command (Single "show running-config") false in
       ret (ConfigDict (startup data) config (candidate data))
     else ret data) in
  let* data :=
    (if retrieve_in retrieve ["all"; "startup"] then
       let* config := _send_command (Single "show startup-config") false in
       ret (ConfigDict config (running data) (candidate data))
     else ret data) in
  if sanitized then lift (sanitize_configs data filters) else ret data.

(** *** [is_alive] *)

Definition null : string := String (ascii_of_N 0) "".

Definition not_alive (e : exn) : M bool :=
  match e with
  | SocketError _ | EOFError _ => ret false
  | _ => throw e
  end.

(** The value of the key [is_alive] of the dictionary returned. *)
Definition is_alive : M bool :=
  fun d =>
    match device d with
    | None => (ok false, d)
    | Some _ =>
        try_except (let* _ := write_channel null in is_active) not_alive d
    end.

End Driver.

(** ** [get_environment] *)

Section Environment.
Context `{Netmiko} `{PyFloat}.

Notation "'let*' x ':=' m 'in' k" := (bind m (fun x => k))
  (at level 10, x name, m at level 100, k at level 200).

(** [entry[key]] for a record of strings. *)
Definition field (entry : gmap string string) (key : string) : result string :=
  match entry !! key with
  | Some v => ok v
  | None => raise (KeyError key)
  end.

Definition string_index_error : exn :=
  TypeError "string indices must be integers".

(** [output[0][key]] *)
Definition first_field (o : exec_result) (key : string) : result string :=
  match o with
  | Records (entry :: _) => field entry key
  | Records [] => raise (IndexError "list index out of range")
  | Text (String _ _) => raise string_index_error
  | Text EmptyString => raise (IndexError "string index out of range")
  end.

(** The entries a loop [for entry in output] goes through.  Over a text the
    entries are its characters, and the first statement of every loop body
    of [get_environment] indexes the entry with a string. *)
Definition entries (o : exec_result) : result (list (gmap string string)) :=
  match o with
  | Records rs => ok rs
  | Text EmptyString => ok []
  | Text (String _ _) => raise string_index_error
  end.

Record temperature_dict : Type := TemperatureDict {
  temperature : float;
  is_alert : bool;
  is_critical : bool
}.

Record power_dict : Type := PowerDict {
  status : bool;
  capacity : option float;
  output : option float
}.

Record memory_dict : Type := MemoryDict {
  available_ram : Z;
  used_ram : Z
}.

Record environment_dict : Type := EnvironmentDict {
  env_fans : gmap string bool;                  (* key ↦ status *)
  env_temperature : gmap string temperature_dict;
  env_power : gmap string power_dict;
  env_cpu : gmap string float;                  (* key ↦ %usage *)
  env_memory : memory_dict
}.

(** The body of the loop over the fans. *)
Definition fan_step (fans : gmap string bool) (entry : gmap string string)
  : result (gmap string bool) :=
  let? name := field entry "fan_name" in
  let? index := field entry "fan_index" in
  let key := name ++ "-" ++ index in
  let? st := field entry "fan_status" in
  let status := String.eqb st "RUN" in
  ok (<[key := status]> fans).

(** The two flags of a temperature record. *)
Definition critical_flag (value threshold_low threshold_high : float) : bool :=
  (value <? threshold_low)%float || (threshold_high <? value)%float.

(** The literal [0.10]: the binary64 number nearest to one tenth. *)
Definition tenth : float := 0x1.999999999999ap-4%float.

Definition alert_flag (value threshold_low threshold_high : float) : bool :=
  (value <? threshold_low + threshold_low * tenth)%float
  || (threshold_high - threshold_high * tenth <? value)%float.

(** The body of the loop over the temperature records. *)
Definition temperature_step (temps : gmap string temperature_dict)
           (entry : gmap string string) : result (gmap string temperature_dict) :=
  let? key := field entry "temp_name" in
  let? v := field entry "temp_value" in
  let? value := float_of_str v in
  let? lo := field entry "temp_threshold_low" in
  let? threshold_low := float_of_str lo in
  let? hi := field entry "temp_threshold_high" in
  let? threshold_high := float_of_str hi in
  let is_critical := critical_flag value threshold_low threshold_high in
  let is_alert := alert_flag value threshold_low threshold_high in
  ok (<[key := TemperatureDict value is_alert is_critical]> temps).

(** The body of the loop over the power supplies. *)
Definition power_step (power : gmap string power_dict) (entry : gmap string string)
  : result (gmap string power_dict) :=
  let? key := field entry "power_name" in
  let? st := field entry "power_status" in
  let status := String.eqb st "OK" in
  ok (<[key := PowerDict status None None]> power).

(** The body of the loop over the CPU records. *)
Definition cpu_step (cpu : gmap string float) (entry : gmap string string)
  : result (gmap string float) :=
  let key := "CPU" in
  let? u := field entry "cpu_average_1min" in
  let? usage := float_of_str u in
  ok (<[key := usage]> cpu).

(** A [for] loop that updates a dictionary and may raise. *)
Fixpoint for_each {A B} (body : B -> A -> result B) (acc : B) (xs : list A)
  : result B :=
  match xs with
  | [] => ok acc
  | x :: rest => let? acc := body acc x in for_each body acc rest
  end.

(** What [get_environment] makes of the five answers. *)
Definition environment_of (cpuload memory fan temp power : exec_result)
  : result environment_dict :=
  let? total := first_field memory "mem_total" in
  let? available := int_of_str total in
  let? used := first_field memory "mem_used" in
  let? used := int_of_str used in
  let mem := MemoryDict available used in
  let? es := entries fan in
  let? fans := for_each fan_step ∅ es in
  let? es := entries temp in
  let? temps := for_each temperature_step ∅ es in
  let? es := entries power in
  let? pw := for_each power_step ∅ es in
  let? es := entries cpuload in
  let? cpu := for_each cpu_step ∅ es in
  ok (EnvironmentDict fans temps pw cpu mem).

Definition get_environment : M environment_dict :=
  let* _ := _enable in
  let* cpuload := _send_command (Single "show cpuload") true in
  let* memory := _send_command (Single "show memory") true in
  let* fan := _send_command (Single "show status fan") true in
  let* temp := _send_command (Single "show status temp") true in
  let* power := _send_command (Single "show status power") true in
  lift (environment_of cpuload memory fan temp power).

End Environment.

(** ** [get_facts] *)

(** The dictionary [get_facts] returns, a field for each key. *)
Record facts_dict : Type := FactsDict {
  facts_uptime : Z;
  facts_vendor : string;
  facts_os_version : string;
  facts_serial_number : string;
  facts_model : string;
  facts_hostname : string;
  facts_fqdn : string;
  facts_interface_list : list string
}.

(** [napalm.base.utils.string_parsers.sorted_nicely], a collaborator from
    outside the driver: the names in another order. *)
Class StringParsers : Type := {
  sorted_nicely : list string -> list string
}.

Section Facts.
Context `{Netmiko} `{StringParsers}.

Notation "'let*' x ':=' m 'in' k" := (bind m (fun x => k))
  (at level 10, x name, m at level 100, k at level 200).

(** One turn of [entry["interface"] for entry in ...]. *)
Definition interface_step (names : list string) (entry : gmap string string)
  : result (list string) :=
  let? name := field entry "interface" in ok (names ++ [name])%list.

(** The dictionary literal of [get_facts], its values computed in the order
    they are written. *)
Definition facts_of (system uptime brief host : exec_result) : result facts_dict :=
  let? text := first_field uptime "uptime" in
  let? seconds := _format_uptime text in
  let? os_version := first_field system "sw_version" in
  let? serial_number := first_field system "serial" in
  let? model := first_field system "model" in
  let? hostname := first_field host "hostname" in
  let? es := entries brief in
  let? names := for_each interface_step [] es in
  ok (FactsDict seconds "Dasan" os_version serial_number model hostname ""
                (sorted_nicely names)).

Definition get_facts : M facts_dict :=
  let* _ := _enable in
  let* system := _send_command (Single "show system") true in
  let* uptime := _send_command (Single "show uptime") true in
  let* brief := _send_command (Single "show ip interface brief") true in
  let* host := _send_command (Single "show running-config hostname") true in
  lift (facts_of system uptime brief host).

End Facts.

(** ** The constructor, [open] and [close] *)

(** Values of the dictionary [optional_args]. *)
Inductive value : Type :=
| VStr (s : string)
| VInt (n : Z)
| VBool (b : bool)
| VNone.

(** [str(n)] for an [int]. *)
Definition str_of_int (n : Z) : string := NilZero.string_of_int (Z.to_int n).

(** A value inside an f-string. *)
Definition format_value (v : value) : string :=
  match v with
  | VStr s => s
  | VInt n => str_of_int n
  | VBool true => "True"
  | VBool false => "False"
  | VNone => "None"
  end.

(** The attributes the constructor sets, [self.device] apart. *)
Record settings : Type := Settings {
  platform : string;
  hostname : string;
  username : value;
  password : value;
  timeout : Z;
  optional_args : gmap string value;
  port : value;
  netmiko_optional_args : gmap string value
}.

(** [d.get(key, default)] *)
Definition dict_get (d : gmap string value) (key : string) (default : value) : value :=
  match d !! key with
  | Some v => v
  | None => default
  end.

(** [d.setdefault(key, default)], for the dictionary it leaves. *)
Definition setdefault (d : gmap string value) (key : string) (default : value)
  : gmap string value :=
  match d !! key with
  | Some _ => d
  | None => <[key := default]> d
  end.

(** What the driver takes from napalm and netmiko to make and end a
    connection: [netmiko_args], [NetworkDriver._netmiko_open],
    [BaseConnection._test_channel_read] and
    [NetworkDriver._netmiko_close], the last one acting on the driver
    object. *)
Class Connector `{Netmiko} : Type := {
  netmiko_args : option (gmap string value) -> result (gmap string value);
  _netmiko_open : string -> gmap string value -> result chan;
  nm_test_channel_read : string -> chan -> result string * chan;
  _netmiko_close : driver -> result unit * driver
}.

Section Connection.
Context `{Connector}.

Notation "'let*' x ':=' m 'in' k" := (bind m (fun x => k))
  (at level 10, x name, m at level 100, k at level 200).

(** [__init__], with every argument given (the source defaults [timeout] to
    60 and [optional_args] to [None]): the attributes, and the driver
    object without a session. *)
Definition __init__ (hostname username password : string) (timeout : Z)
           (optional_args : option (gmap string value)) : result (settings * driver) :=
  let platform := "dasan_nos" in
  let device := None in
  let self_optional_args :=
    match optional_args with
    | Some d => d              (* an empty dictionary is falsy, and [{}] again *)
    | None => ∅
    end in
  let port := dict_get self_optional_args "port" (VInt 22) in
  let username := dict_get self_optional_args "username" (VStr username) in
  let password := dict_get self_optional_args "password" (VStr password) in
  let? netmiko_optional_args := netmiko_args optional_args in
  let netmiko_optional_args := setdefault netmiko_optional_args "port" port in
  ok (Settings platform hostname username password timeout self_optional_args port
               netmiko_optional_args,
      Driver device []).

Definition close : M unit := _netmiko_close.

(** [napalm.base.exceptions.ConnectionException], one of the other
    exception classes. *)
Definition ConnectionException (msg : string) : exn := OtherError msg.

(** [re.search(pattern, text)] as a condition. *)
Definition re_found (pattern text : string) : result bool :=
  let? p := re_compile pattern in
  ok (match Re.search false p text with Some _ => true | None => false end).

Definition open (self : settings) : M unit :=
  let* c := lift (_netmiko_open "generic" (netmiko_optional_args self)) in
  let* _ := (fun d => (ok tt, Driver (Some c) (trace d))) in
  let pattern := "(>|Login incorrect)" in
  let* output :=
    (fun d => let '(r, c') := nm_test_channel_read pattern c in
              (r, Driver (Some c') (trace d))) in
  let pattern := "Login incorrect" in
  let* found := lift (re_found pattern output) in
  if found then
    let* _ := close in
    let msg := "Authentication failure: unable to connect to " in
    let msg := msg ++ (hostname self ++ ":" ++ format_value (port self) ++ " ") in
    let msg := msg ++ Str.strip output in
    throw (ConnectionException msg)
  else ret tt.

End Connection.

(** ** Sample collaborators

    A scripted session and a conversion of short decimals, to run the
    driver on concrete inputs. *)

Module Sample.

(** The answer of the sample appliance to a command. *)
Definition answer (cmd : string) : string :=
  if String.eqb cmd "cmd-a" then "% Invalid input detected at '^' marker. "
  else if String.eqb cmd "bogus cmd" then " Incorrect usage "
  else if String.eqb cmd "show startup-config" then " hostname olt-1 "
  else if String.eqb cmd "show running-config" then " hostname olt-1" ++ String Str.nl "snmp community public ro "
  else " ok: " ++ cmd ++ " ".

Definition record (kvs : list (string * string)) : gmap string string :=
  list_to_map kvs.

(** The records the sample templates extract. *)
Definition extract (cmd raw : string) : exec_result :=
  if String.eqb cmd "show memory" then
    Records [record [("mem_total", "2048"); ("mem_used", "512")]]
  else if String.eqb cmd "show status fan" then
    Records [record [("fan_name", "FAN"); ("fan_index", "1"); ("fan_status", "RUN")]]
  else if String.eqb cmd "show status temp" then
    Records [record [("temp_name", "inlet"); ("temp_value", "89.5");
                     ("temp_threshold_low", "10"); ("temp_threshold_high", "90")]]
  else if String.eqb cmd "show status power" then
    Records [record [("power_name", "PSU-A"); ("power_status", "OK")]]
  else if String.eqb cmd "show cpuload" then
    Records [record [("cpu_average_1min", "7.25")]]
  else Text raw.

(** A session that never fails; its state counts the exchanges. *)
#[export] Instance session : Netmiko := {|
  chan := nat;
  nm_find_prompt := fun n => (ok " SWITCH# ", S n);
  nm_send := fun cmd _ n => (ok (answer cmd), S n);
  nm_write_channel := fun _ n => (ok tt, S n);
  nm_is_active := fun _ => ok true;
  nm_textfsm := extract
|}.

(** A session whose socket fails on every exchange. *)
Definition broken : Netmiko := {|
  chan := unit;
  nm_find_prompt := fun u => (raise (SocketError "Socket is closed"), u);
  nm_send := fun _ _ u => (raise (SocketError "Socket is closed"), u);
  nm_write_channel := fun _ u => (raise (SocketError "Socket is closed"), u);
  nm_is_active := fun _ => ok false;
  nm_textfsm := fun _ raw => Text raw
|}.

(** Digits before and after the decimal point: the digits read so far as a
    number, and how many of them follow the point. *)
Fixpoint decimal_parts (s : string) (mantissa : Z) (after_point : option Z)
  : option (Z * Z) :=
  match s with
  | EmptyString => Some (mantissa, match after_point with Some k => k | None => 0%Z end)
  | String c s' =>
      if Str.is_digit c then
        decimal_parts s' (10 * mantissa + Z.of_N (Str.code c - 48))%Z
                      (match after_point with Some k => Some (k + 1)%Z | None => None end)
      else if Ascii.eqb c "." then
        match after_point with
        | None => decimal_parts s' mantissa (Some 0%Z)
        | Some _ => None
        end
      else None
  end.

(** [float(s)] on unsigned decimals of at most 15 digits, where the
    quotient of two exact binary64 numbers is the nearest one to the
    decimal. *)
Definition decimal_float (s : string) : result float :=
  match s with
  | EmptyString => raise (ValueError "could not convert string to float")
  | _ =>
      match decimal_parts s 0%Z None with
      | Some (m, k) =>
          if ((m <? 10 ^ 15) && (k <=? 15))%Z
          then ok (SF2Prim (binary_normalize prec emax m 0 false)
                   / SF2Prim (binary_normalize prec emax (10 ^ k) 0 false))%float
          else raise (ValueError "could not convert string to float")
      | None => raise (ValueError "could not convert string to float")
      end
  end.

#[export] Instance floats : PyFloat := {| float_of_str := decimal_float |}.

Definition fresh : driver := Driver (Some 0%nat) [].

End Sample.

(** ** Further sample collaborators *)

Module Scenario.

(** A session with a fixed prompt that answers a command as [reply] says,
    takes a write as [written] says and extracts records as [extract]
    says; its state counts the exchanges. *)
Definition session (prompt : string) (reply : string -> result string)
           (written : result unit) (extract : string -> string -> exec_result)
  : Netmiko := {|
  chan := nat;
  nm_find_prompt := fun n => (ok prompt, S n);
  nm_send := fun cmd _ n => (reply cmd, S n);
  nm_write_channel := fun _ n => (written, S n);
  nm_is_active := fun _ => ok true;
  nm_textfsm := extract
|}.

Definition plain (cmd raw : string) : exec_result := Text raw.

(** A session whose prompt is blank. *)
Definition blank : Netmiko := session "   " (fun cmd => ok cmd) (ok tt) plain.

(** A session that ends while [show version] is read. *)
Definition dropped : Netmiko :=
  session "SWITCH# "
          (fun cmd => if String.eqb cmd "show version"
                      then raise (EOFError "Channel stream closed by remote device.")
                      else ok (" ok: " ++ cmd))
          (ok tt) plain.

(** A session whose writes fail with an exception of another class. *)
Definition stuck : Netmiko :=
  session "SWITCH# " (fun cmd => ok cmd) (raise (OtherError "write timed out")) plain.

(** The records of an appliance with two interfaces, two fans, two power
    supplies and two CPU samples. *)
Definition records (cmd raw : string) : exec_result :=
  if String.eqb cmd "show system" then
    Records [Sample.record [("sw_version", "5.04"); ("serial", "DSN0042"); ("model", "V5812G")]]
  else if String.eqb cmd "show uptime" then
    Records [Sample.record [("uptime", "9 days 6 hours 17 minutes 25 seconds")]]
  else if String.eqb cmd "show ip interface brief" then
    Records [Sample.record [("interface", "mgmt")]; Sample.record [("interface", "br1")]]
  else if String.eqb cmd "show running-config hostname" then
    Records [Sample.record [("hostname", "olt-1")]]
  else if String.eqb cmd "show memory" then
    Records [Sample.record [("mem_total", "2048"); ("mem_used", "512")];
             Sample.record [("mem_total", "1"); ("mem_used", "1")]]
  else if String.eqb cmd "show status fan" then
    Records [Sample.record [("fan_name", "FAN"); ("fan_index", "1"); ("fan_status", "RUN")];
             Sample.record [("fan_name", "FAN"); ("fan_index", "2"); ("fan_status", "STOP")]]
  else if String.eqb cmd "show status power" then
    Records [Sample.record [("power_name", "PSU-A"); ("power_status", "OK")];
             Sample.record [("power_name", "PSU-B"); ("power_status", "FAIL")]]
  else if String.eqb cmd "show cpuload" then
    Records [Sample.record [("cpu_average_1min", "7.25")];
             Sample.record [("cpu_average_1min", "12.5")]]
  else if String.eqb cmd "show status temp" then
    Records []
  else Text raw.

Definition appliance : Netmiko :=
  session "SWITCH# " (fun cmd => ok (" " ++ cmd ++ " ")) (ok tt) records.

(** The same appliance shortly after a restart. *)
Definition young : Netmiko :=
  session "SWITCH# " (fun cmd => ok (" " ++ cmd ++ " ")) (ok tt)
          (fun cmd raw =>
             if String.eqb cmd "show uptime"
             then Records [Sample.record [("uptime", "17 minutes 25 seconds")]]
             else records cmd raw).

(** An appliance for which no template extracts a record. *)
Definition silent : Netmiko :=
  session "SWITCH# " (fun cmd => ok cmd) (ok tt) (fun _ _ => Records []).

(** The interface names as they come. *)
#[export] Instance parsers : StringParsers := {| sorted_nicely := fun names => names |}.

(** A connection that opens and then reads [banner]; closing forgets the
    session. *)
Definition connector (banner : string) : @Connector appliance := {|
  netmiko_args := fun optional_args =>
    match optional_args with
    | Some d => ok d
    | None => ok ∅
    end;
  _netmiko_open := fun _ _ => ok (0%nat : @chan appliance);
  nm_test_channel_read := fun _ (n : nat) => (ok banner, S n : @chan appliance);
  _netmiko_close := fun d => (ok tt, @Driver appliance None (@trace appliance d))
|}.

End Scenario.

(** ** Notions used to state the properties *)

(** The commands sent on a trace with the text each brought back. *)
Fixpoint exchanges_of (t : list event) : list (string * string) :=
  match t with
  | [] => []
  | EvSend cmd _ (inr raw) :: t' => (cmd, raw) :: exchanges_of t'
  | _ :: t' => exchanges_of t'
  end.

(** Failures of the channel: a socket-level error or an unexpected end of
    the stream. *)
Definition channel_failure (e : exn) : Prop :=
  match e with
  | SocketError _ | EOFError _ => True
  | _ => False
  end.

Section Behaviour.
Context `{Netmiko}.

(** A session on which no exchange fails and whose prompt is never blank. *)
Definition well_behaved : Prop :=
  (forall c, exists p c', nm_find_prompt c = (ok p, c') /\ Str.last (Str.strip p) <> None)
  /\ (forall cmd expect c, exists raw c', nm_send cmd expect c = (ok raw, c')).

(** What [_send_command] makes of the text a command brought back. *)
Definition processed (use_textfsm : bool) (cmd raw : string) : exec_result :=
  if use_textfsm then nm_textfsm cmd raw else Text (Str.strip raw).

Definition invalid (o : exec_result) : bool := output_contains "% Invalid" o.

End Behaviour.

(** The event of a command sent with the text it brought back. *)
Definition sent_as (expect : option string) (p : string * string) : event :=
  EvSend p.1 expect (ok p.2).

(** The dictionary [cli] builds from the commands run, with the text each
    brought back, starting from [acc]. *)
Definition results_from (acc : gmap string exec_result) (ex : list (string * string))
  : gmap string exec_result :=
  foldl (fun m p => <[p.1 := Text (Str.strip p.2)]> m) acc ex.

(** The text the last run of [cmd] brought back. *)
Definition last_reply (cmd : string) (ex : list (string * string)) : option string :=
  foldl (fun acc p => if String.eqb p.1 cmd then Some p.2 else acc) None ex.

(** The text a command brought back lacks the incorrect-usage marker. *)
Definition no_incorrect_usage (p : string * string) : Prop :=
  Str.contains "Incorrect usage" p.2 = false.

(** A redaction rule whose pattern and template compile. *)
Definition rule_ok (rule : string * string) : bool :=
  match Re.compile rule.1 with
  | inr p =>
      match Re.parse_template (Re.p_groups p) rule.2 with
      | inr _ => true
      | inl _ => false
      end
  | inl _ => false
  end.

(** The text of a snapshot's field after optional sanitization. *)
Definition sanitize_text (s : string) : string :=
  match sanitize_config s filters with
  | inr t => t
  | inl _ => s
  end.

(** What a field retrieved from the device holds. *)
Definition presented (sanitized : bool) (raw : string) : exec_result :=
  Text (if sanitized then sanitize_text (Str.strip raw) else Str.strip raw).

(** The text ends with one of [chars] followed by white space only. *)
Definition ends_with_terminal (chars : list ascii) (text : string) : Prop :=
  exists u x w, text = (u ++ String x w)%string /\ In x chars
                /\ Str.all Str.is_space w = true.

(** What the bounding pattern is compiled to: a set of three characters,
    [\s*] and [$]. *)
Definition bounding_re (c : ascii) : Re.re :=
  Re.RCat (Re.RAtom (Re.ASet false [Re.SLit ">"; Re.SLit "#"; Re.SLit c]))
    (Re.RCat (Re.RRep (Re.ACat Re.CatSpace) 0) (Re.RCat Re.REnd Re.REmpty)).

(** The reading of the bounding pattern that fails: it would find a match
    exactly in the texts that end with the terminal character of the
    prompt. *)
Definition bounds_only_terminal (prompt : string) : Prop :=
  forall c p text,
    Str.last (Str.strip prompt) = Some c ->
    re_compile (bounding_pattern c) = ok p ->
    (is_Some (Re.search false p text) <-> ends_with_terminal [c] text).

(** The binary64 number nearest to an integer, and its canonical form when
    the integer is below [2^53]: a mantissa of 53 bits and the exponent
    that goes with it. *)
Definition norm (v : Z) : spec_float := binary_normalize prec emax v 0 false.

Definition canon (v : Z) : spec_float :=
  match v with
  | Zpos _ => S754_finite false (Z.to_pos (v * 2 ^ (52 - Z.log2 v))) (Z.log2 v - 52)
  | _ => S754_zero false
  end.

(** The compiled pattern of [_format_uptime]. *)
Definition uptime_pattern : Re.pattern :=
  Eval vm_compute in
    match Re.compile uptime_regex with
    | inr p => p
    | inl _ => Re.Pattern Re.REmpty 0 []
    end.

(** [regex.match(uptime)] *)
Definition uptime_match (s : string) : option Re.match_obj :=
  Re.re_match false uptime_pattern s.

(** A non-empty run of decimal digits. *)
Definition is_number (s : string) : Prop :=
  s <> EmptyString /\ Str.all Str.is_digit s = true.

(** A duration with all four groups. *)
Definition duration (d h m s : string) : string :=
  d ++ " days " ++ h ++ " hours " ++ m ++ " minutes " ++ s ++ " seconds".

(** The measured value and the two thresholds of a temperature record, as
    [float] reads them. *)
Definition temperature_reading `{PyFloat} (entry : gmap string string)
           (value threshold_low threshold_high : float) : Prop :=
  (let? v := field entry "temp_value" in float_of_str v) = ok value
  /\ (let? v := field entry "temp_threshold_low" in float_of_str v) = ok threshold_low
  /\ (let? v := field entry "temp_threshold_high" in float_of_str v) = ok threshold_high.

(** The value of a run of decimal digits. *)
Fixpoint decimal (acc : Z) (s : string) : Z :=
  match s with
  | EmptyString => acc
  | String c s' => decimal (10 * acc + Z.of_N (Str.code c - 48)) s'
  end.

(** What a fan record says: its key and whether the fan runs. *)
Definition fan_reading (entry : gmap string string) (key : string) (running : bool) : Prop :=
  exists name index st,
    field entry "fan_name" = ok name /\ field entry "fan_index" = ok index
    /\ field entry "fan_status" = ok st
    /\ key = name ++ "-" ++ index /\ running = String.eqb st "RUN".

(** What a power record says. *)
Definition power_reading (entry : gmap string string) (key : string) (p : power_dict) : Prop :=
  exists st,
    field entry "power_name" = ok key /\ field entry "power_status" = ok st
    /\ p = PowerDict (String.eqb st "OK") None None.

(** ** The shape of the compiled patterns *)

Module Shape.
Import Re.

(** The expression of a literal text followed by [k]. *)
Fixpoint lit (s : string) (k : re) : re :=
  match s with
  | EmptyString => k
  | String c s' => RCat (RAtom (ALit c)) (lit s' k)
  end.

(** The group [(\d+)] numbered [i]. *)
Definition num (i : nat) : re := RGroup i (RCat (RRep (ACat CatDigit) 1) REmpty).

(** An optional unit [(?:(\d+)word)?]. *)
Definition unit_opt (i : nat) (word : string) : re :=
  ROpt (RCat (num i) (lit word REmpty)).

(** The expression of [_format_uptime]. *)
Definition uptime_re : re :=
  RCat (unit_opt 1 " days ")
    (RCat (unit_opt 2 " hours ")
      (RCat (unit_opt 3 " minutes ")
        (RCat (num 4) (lit " seconds" REmpty)))).

End Shape.

(** ** Declarative reading of patterns

    [matches ml r s rest]: the pattern [r] can consume a prefix of [s] and
    leave [rest], whatever the priorities of the engine. *)
Inductive matches (ml : bool) : Re.re -> string -> string -> Prop :=
| MEmpty s : matches ml Re.REmpty s s
| MAtom a c s : Re.atom_matches a c = true -> matches ml (Re.RAtom a) (String c s) s
| MRep a min pre rest :
    Str.all (Re.atom_matches a) pre = true -> (min <= String.length pre)%nat ->
    matches ml (Re.RRep a min) (pre ++ rest) rest
| MOptSome r s rest : matches ml r s rest -> matches ml (Re.ROpt r) s rest
| MOptNone r s : matches ml (Re.ROpt r) s s
| MEnd s : Re.at_end ml s = true -> matches ml Re.REnd s s
| MGroup i r s rest : matches ml r s rest -> matches ml (Re.RGroup i r) s rest
| MCat r1 r2 s mid rest :
    matches ml r1 s mid -> matches ml r2 mid rest -> matches ml (Re.RCat r1 r2) s rest.

(** ** Redaction rules on one line

    The matches of a pattern in the order the engine tries them, the
    leftmost match in a text, and the rules of the shape [(P).*$] with the
    replacement [\1R]. *)

Module Redaction.
Import Re.

(** The matches of a pattern at the front of a text, in the order the
    engine tries them: what each leaves and the groups it captured. *)
Fixpoint rep_runs (p : ascii -> bool) (min : nat) (s : string) : list string :=
  let stop := match min with O => [s] | S _ => [] end in
  match s with
  | String c s' => (if p c then rep_runs p (Nat.pred min) s' else []) ++ stop
  | EmptyString => stop
  end.

Fixpoint runs (ml : bool) (r : re) (s : string) (cs : caps) : list (string * caps) :=
  match r with
  | REmpty => [(s, cs)]
  | RAtom a =>
      match s with
      | String c s' => if atom_matches a c then [(s', cs)] else []
      | EmptyString => []
      end
  | RRep a min => map (fun s' => (s', cs)) (rep_runs (atom_matches a) min s)
  | ROpt r1 => runs ml r1 s cs ++ [(s, cs)]
  | REnd => if at_end ml s then [(s, cs)] else []
  | RGroup i r1 =>
      map (fun y => (y.1, (i, Str.consumed s y.1) :: y.2)) (runs ml r1 s cs)
  | RCat r1 r2 => flat_map (fun y => runs ml r2 y.1 y.2) (runs ml r1 s cs)
  end.

(** The first element of a list that [f] accepts, with what [f] makes of it. *)
Fixpoint first_some {A B} (f : A -> option B) (l : list A) : option B :=
  match l with
  | [] => None
  | x :: l' => match f x with Some y => Some y | None => first_some f l' end
  end.

(** A pattern without [$]: whether it matches does not depend on what
    follows the match. *)
Fixpoint anchor_free (r : re) : bool :=
  match r with
  | REnd => false
  | ROpt r1 | RGroup _ r1 => anchor_free r1
  | RCat r1 r2 => anchor_free r1 && anchor_free r2
  | _ => true
  end.

(** A pattern whose last part is [\s+]: every match ends in white space. *)
Fixpoint ends_space (r : re) : bool :=
  match r with
  | RRep (ACat CatSpace) (S _) => true
  | RGroup _ r1 => ends_space r1
  | RCat r1 REmpty => ends_space r1
  | RCat _ r2 => ends_space r2
  | _ => false
  end.

(** [within x y]: the match that leaves [y] stops before the last
    [length x] characters of the text. *)
Definition within (x : string) (y : string * caps) : bool :=
  (String.length x <=? String.length y.1)%nat.

(** A text without a newline. *)
Definition one_line (s : string) : bool :=
  Str.all (fun c => negb (Ascii.eqb c Str.nl)) s.

(** A text without white space. *)
Definition solid (s : string) : bool :=
  Str.all (fun c => negb (Str.is_space c)) s.

(** The leftmost place of [s] where [P] matches: the text before it, the
    text of the (preferred) match and the text after it. *)
Fixpoint find (P : re) (before s : string) : option (string * string * string) :=
  match runs true P s [] with
  | y :: _ => Some (before, Str.consumed s y.1, y.1)
  | [] =>
      match s with
      | String c s' => find P (before ++ String c "") s'
      | EmptyString => None
      end
  end.

(** What a line rule makes of a one-line text: everything after the
    leftmost match of [P] gives way to [R]. *)
Definition redact (P : re) (R : string) (s : string) : string :=
  match find P "" s with
  | Some (u, g, _) => u ++ g ++ R
  | None => s
  end.

(** The expression [.*$]. *)
Definition rest_of_line : re := RCat (RRep AAny 0) (RCat REnd REmpty).

(** A template without group references, as a text. *)
Fixpoint template_text (t : list template_part) : option string :=
  match t with
  | [] => Some ""
  | TText c :: t' =>
      match template_text t' with
      | Some s => Some (String c s)
      | None => None
      end
  | TGroup _ :: _ => None
  end.

(** The part [P] of an expression [(P).*$]. *)
Definition rule_prefix (r : re) : option re :=
  match r with
  | RCat (RGroup 1 P) (RCat (RRep AAny 0) (RCat REnd REmpty)) => Some P
  | _ => None
  end.

(** The text [R] of a template [\1R]. *)
Definition rule_text (t : list template_part) : option string :=
  match t with
  | TGroup 1 :: t' => template_text t'
  | _ => None
  end.

(** A rule of the shape [(P).*$] -> [\1R]: [P] without anchors and ending
    in white space, [R] a text without white space. *)
Definition line_rule (rule : string * string) : option (re * string) :=
  match compile rule.1 with
  | inr p =>
      match rule_prefix (p_re p), parse_template (p_groups p) rule.2 with
      | Some P, inr t =>
          match rule_text t with
          | Some R =>
              if anchor_free P && ends_space P && solid R
              then Some (P, R) else None
          | None => None
          end
      | _, _ => None
      end
  | inl _ => None
  end.


(** A rule of that shape. *)
Definition is_line_rule (rule : string * string) : bool :=
  match line_rule rule with Some _ => true | None => false end.


End Redaction.


(** * Properties *)

(** ** The driver monad *)

Section MonadFacts.
Context `{Netmiko}.

Lemma bind_ok {A B} (m : M A) (f : A -> M B) d a d' :
  m d = (ok a, d') -> bind m f d = f a d'.
Proof. unfold bind. intros ->. reflexivity. Qed.

Lemma bind_raise {A B} (m : M A) (f : A -> M B) d e d' :
  m d = (raise e, d') -> bind m f d = (raise e, d').
Proof. unfold bind. intros ->. reflexivity. Qed.

Lemma bind_ret {A B} (a : A) (f : A -> M B) d : bind (ret a) f d = f a d.
Proof. reflexivity. Qed.

Lemma bind_bind {A B C} (m : M A) (f : A -> M B) (g : B -> M C) d :
  bind (bind m f) g d = bind m (fun a => bind (f a) g) d.
Proof. unfold bind. destruct (m d) as [[e|a] d']; reflexivity. Qed.

Lemma on_device_some {A} method (f : chan -> result A * chan) ev d c r c' :
  device d = Some c -> f c = (r, c') ->
  on_device method f ev d = (r, Driver (Some c') (trace d ++ [ev r])).
Proof. unfold on_device. intros -> ->. reflexivity. Qed.

Lemma send_command_ok cmd use_textfsm expect d c raw c' :
  device d = Some c -> nm_send cmd expect c = (ok raw, c') ->
  send_command cmd use_textfsm expect d =
  (ok (if use_textfsm then nm_textfsm cmd raw else Text raw),
   Driver (Some c') (trace d ++ [EvSend cmd expect (ok raw)])).
Proof.
  intros Hd Hs. unfold send_command, bind.
  rewrite (on_device_some _ _ _ _ _ _ _ Hd Hs). reflexivity.
Qed.

Lemma send_command_raise cmd use_textfsm expect d c e c' :
  device d = Some c -> nm_send cmd expect c = (raise e, c') ->
  send_command cmd use_textfsm expect d =
  (raise e, Driver (Some c') (trace d ++ [EvSend cmd expect (raise e)])).
Proof.
  intros Hd Hs. unfold send_command, bind.
  rewrite (on_device_some _ _ _ _ _ _ _ Hd Hs). reflexivity.
Qed.

Lemma exchanges_of_app t1 t2 :
  exchanges_of (t1 ++ t2) = (exchanges_of t1 ++ exchanges_of t2)%list.
Proof.
  induction t1 as [|ev t1 IH]; [reflexivity|].
  destruct ev as [r|cmd e [x|raw]|data r|r]; simpl; rewrite IH; reflexivity.
Qed.

End MonadFacts.

(** ** [get_config] does not read [full] *)

Section GetConfigFull.
Context `{Netmiko}.

(** C10.  The result of [get_config] is independent of [full]: two calls
    that differ only in [full] (same [retrieve], same [sanitized], same
    driver state, hence same answers of the device) return the same
    snapshot and leave the driver in the same state. *)
Theorem get_config_full_irrelevant :
  forall (retrieve : string) (full1 full2 sanitized : bool) (d : driver),
    get_config retrieve full1 sanitized d = get_config retrieve full2 sanitized d.
Proof. intros. unfold get_config. reflexivity. Qed.

End GetConfigFull.

(** ** [is_alive] *)

Section IsAlive.
Context `{Netmiko}.

Lemma is_alive_unfold d c :
  device d = Some c ->
  is_alive d =
  match nm_write_channel null c with
  | (inr _, c') =>
      match nm_is_active c' with
      | inr b =>
          (ok b, Driver (Some c')
                        ((trace d ++ [EvWrite null (ok tt)]) ++ [EvActive (ok b)]))
      | inl e =>
          not_alive e (Driver (Some c')
                        ((trace d ++ [EvWrite null (ok tt)]) ++ [EvActive (raise e)]))
      end
  | (inl e, c') =>
      not_alive e (Driver (Some c') (trace d ++ [EvWrite null (raise e)]))
  end.
Proof.
  intros Hd. unfold is_alive, try_except, bind, write_channel, is_active, on_device.
  rewrite Hd. destruct (nm_write_channel null c) as [[e|[]] c']; simpl.
  - reflexivity.
  - destruct (nm_is_active c') as [e|b]; reflexivity.
Qed.

(** C5.  [is_alive] reports not-alive when no session has been opened; it
    reports not-alive when the probe (the write of a null byte, or the
    question to the transport after it) fails with a socket-level error or
    an end of stream; after a successful probe it reports the transport's
    own flag; and so it never raises on a session whose only failures are
    of these two kinds. *)
Theorem is_alive_never_raises :
  (forall d, device d = None -> is_alive d = (ok false, d))
  /\ (forall d c e c',
        device d = Some c -> nm_write_channel null c = (raise e, c') ->
        channel_failure e -> fst (is_alive d) = ok false)
  /\ (forall d c c' b,
        device d = Some c -> nm_write_channel null c = (ok tt, c') ->
        nm_is_active c' = ok b -> fst (is_alive d) = ok b)
  /\ (forall d,
        (forall c e c', nm_write_channel null c = (raise e, c') -> channel_failure e) ->
        (forall c e, nm_is_active c = raise e -> channel_failure e) ->
        exists b, fst (is_alive d) = ok b).
Proof.
  repeat split.
  - intros d Hd. unfold is_alive. rewrite Hd. reflexivity.
  - intros d c e c' Hd Hw He. rewrite (is_alive_unfold d c Hd), Hw.
    destruct e; simpl in He; try contradiction; reflexivity.
  - intros d c c' b Hd Hw Ha. rewrite (is_alive_unfold d c Hd), Hw, Ha. reflexivity.
  - intros d Hw Ha. destruct (device d) as [c|] eqn:Hd.
    + rewrite (is_alive_unfold d c Hd).
      destruct (nm_write_channel null c) as [[e|[]] c'] eqn:Ew.
      * specialize (Hw c e c' Ew).
        destruct e; simpl in Hw; try contradiction; eexists; reflexivity.
      * destruct (nm_is_active c') as [e|b] eqn:Ea.
        -- specialize (Ha c' e Ea).
           destruct e; simpl in Ha; try contradiction; eexists; reflexivity.
        -- eexists; reflexivity.
    + exists false. unfold is_alive. rewrite Hd. reflexivity.
Qed.

End IsAlive.

(** The four parts of C5 on concrete sessions: no session, the socket
    failing, and a live session. *)
Lemma is_alive_never_raises_witness :
  @is_alive Sample.broken (Driver None []) = (ok false, Driver None [])
  /\ fst (@is_alive Sample.broken (@Driver Sample.broken (Some tt) [])) = ok false
  /\ fst (@is_alive Sample.session Sample.fresh) = ok true
  /\ exists b, fst (@is_alive Sample.broken (@Driver Sample.broken (Some tt) [])) = ok b.
Proof.
  split; [|split; [|split]].
  - apply (proj1 (@is_alive_never_raises Sample.broken)). reflexivity.
  - apply (proj1 (proj2 (@is_alive_never_raises Sample.broken))
             (@Driver Sample.broken (Some tt) []) tt (SocketError "Socket is closed") tt);
      [reflexivity | reflexivity | exact I].
  - apply (proj1 (proj2 (proj2 (@is_alive_never_raises Sample.session)))
             Sample.fresh 0%nat 1%nat true); reflexivity.
  - apply (proj2 (proj2 (proj2 (@is_alive_never_raises Sample.broken)))).
    + intros c e c' He. inversion He. exact I.
    + intros c e He. inversion He.
Defined.

(** ** [_send_command] on a list of candidates *)

Section Chain.
Context `{Netmiko}.

(** The loop over the candidates, on a session whose exchanges succeed:
    [ex] lists the candidates tried with the text each brought back. *)
Lemma chain_loop_spec (use_textfsm : bool) :
  (forall cmd expect c, exists raw c', nm_send cmd expect c = (ok raw, c')) ->
  forall (cmds : list string) (out0 : exec_result) (d : driver),
    is_Some (device d) ->
    exists (ex : list (string * string)) (skipped : list string) out d',
      chain_loop use_textfsm cmds out0 d = (ok out, d')
      /\ is_Some (device d')
      /\ cmds = (map fst ex ++ skipped)%list
      /\ trace d' = (trace d ++ map (sent_as None) ex)%list
      /\ Forall (fun p => invalid (processed use_textfsm p.1 p.2) = true) (removelast ex)
      /\ out = match last ex with
               | Some p => processed use_textfsm p.1 p.2
               | None => out0
               end
      /\ (skipped <> [] ->
          exists p, last ex = Some p /\ invalid (processed use_textfsm p.1 p.2) = false)
      /\ (cmds <> [] -> ex <> []).
Proof.
  intros Hsend cmds. induction cmds as [|cmd rest IH]; intros out0 d [c Hd].
  - exists [], [], out0, d. simpl. rewrite app_nil_r.
    repeat split; eauto; try constructor; congruence.
  - destruct (Hsend cmd None c) as (raw & c' & Hs).
    set (d1 := Driver (Some c') (trace d ++ [EvSend cmd None (ok raw)])).
    assert (Hstep :
      chain_loop use_textfsm (cmd :: rest) out0 d =
      if negb (invalid (processed use_textfsm cmd raw))
      then (ok (processed use_textfsm cmd raw), d1)
      else chain_loop use_textfsm rest (processed use_textfsm cmd raw) d1).
    { cbn [chain_loop]. unfold bind at 1.
      rewrite (send_command_ok _ _ _ _ _ _ _ Hd Hs).
      fold d1. unfold processed, invalid.
      destruct use_textfsm; unfold bind, ret, lift; simpl;
        match goal with |- context [negb ?b] => destruct b end; reflexivity. }
    destruct (invalid (processed use_textfsm cmd raw)) eqn:Einv; cbn [negb] in Hstep.
    + destruct (IH (processed use_textfsm cmd raw) d1) as
        (ex & skipped & out & d' & Hrun & Hdev & Hcmds & Htr & Hall & Hout & Hskip & Hne).
      { exists c'. reflexivity. }
      exists ((cmd, raw) :: ex), skipped, out, d'.
      rewrite Hstep, Hrun. repeat split.
      * exact Hdev.
      * simpl. now rewrite Hcmds.
      * rewrite Htr. unfold d1. simpl. rewrite <- app_assoc. reflexivity.
      * destruct ex as [|p ex]; [constructor|].
        change (removelast ((cmd, raw) :: p :: ex))
          with ((cmd, raw) :: removelast (p :: ex)).
        constructor; [exact Einv | exact Hall].
      * destruct ex as [|p ex]; [exact Hout|].
        rewrite last_cons_cons, Hout.
        destruct (last (p :: ex)) eqn:E; [reflexivity|].
        apply last_None in E. discriminate.
      * intros Hs'. destruct ex as [|p ex].
        -- destruct (Hskip Hs') as (p & Hp & _). discriminate.
        -- rewrite last_cons_cons. exact (Hskip Hs').
      * discriminate.
    + exists [(cmd, raw)], rest, (processed use_textfsm cmd raw), d1.
      rewrite Hstep. repeat split.
      * exists c'. reflexivity.
      * constructor.
      * intros _. exists (cmd, raw). split; [reflexivity | exact Einv].
      * discriminate.
Qed.

(** C3.  Given a list of candidates, on a session whose exchanges succeed
    and whose prompt is not blank, [_send_command] reads the prompt and then
    sends candidates in order, each once, as far as [ex] goes: [ex] is the
    candidates tried with the text each brought back, [skipped] those never
    sent.  Every candidate tried before the last one answered with the
    invalid-command marker; the result is what the last one tried brought
    back (trimmed when unstructured, as TextFSM made it when structured);
    candidates are left unsent only when that result lacks the marker; and
    when every candidate answers with the marker all are tried and the last
    answer is returned, not an error. *)
Theorem send_command_chain_first_valid :
  forall (use_textfsm : bool) (cmds : list string) (d : driver) c prompt c',
    device d = Some c ->
    nm_find_prompt c = (ok prompt, c') ->
    Str.last (Str.strip prompt) <> None ->
    (forall cmd expect ch, exists raw ch', nm_send cmd expect ch = (ok raw, ch')) ->
    exists (ex : list (string * string)) (skipped : list string) out d',
      _send_command (Chain cmds) use_textfsm d = (ok out, d')
      /\ cmds = (map fst ex ++ skipped)%list
      /\ trace d' = (trace d ++ EvPrompt (ok prompt) :: map (sent_as None) ex)%list
      /\ Forall (fun p => invalid (processed use_textfsm p.1 p.2) = true) (removelast ex)
      /\ out = match last ex with
               | Some p => processed use_textfsm p.1 p.2
               | None => Text ""
               end
      /\ (skipped <> [] ->
          exists p, last ex = Some p /\ invalid (processed use_textfsm p.1 p.2) = false)
      /\ (cmds <> [] -> ex <> []).
Proof.
  intros use_textfsm cmds d c prompt c' Hd Hp Hlast Hsend.
  set (d0 := Driver (Some c') (trace d ++ [EvPrompt (ok prompt)])).
  destruct (chain_loop_spec use_textfsm Hsend cmds (Text "") d0) as
    (ex & skipped & out & d' & Hrun & _ & Hcmds & Htr & Hall & Hout & Hskip & Hne).
  { exists c'. reflexivity. }
  exists ex, skipped, out, d'. repeat split; try assumption.
  - unfold _send_command, bind at 1, find_prompt.
    rewrite (on_device_some _ _ _ _ _ _ _ Hd Hp). fold d0. cbn [ok].
    destruct (Str.last (Str.strip prompt)) as [ch|]; [|congruence].
    unfold try_except. rewrite Hrun. reflexivity.
  - rewrite Htr. unfold d0. simpl. rewrite <- app_assoc. reflexivity.
Qed.

End Chain.

(** C3 on the sample session: of the candidates [cmd-a], [cmd-b], [cmd-c]
    the first answers with the marker, the second does not and is
    returned, the third is never sent. *)
Lemma send_command_chain_first_valid_witness :
  exists (ex : list (string * string)) (skipped : list string) out d',
    @_send_command Sample.session (Chain ["cmd-a"; "cmd-b"; "cmd-c"]) false Sample.fresh
    = (ok out, d')
    /\ ["cmd-a"; "cmd-b"; "cmd-c"] = (map fst ex ++ skipped)%list
    /\ trace d' = (trace Sample.fresh ++
                   EvPrompt (ok " SWITCH# ") :: map (sent_as None) ex)%list
    /\ Forall (fun p => invalid (@processed Sample.session false p.1 p.2) = true)
              (removelast ex)
    /\ out = match last ex with
             | Some p => @processed Sample.session false p.1 p.2
             | None => Text ""
             end
    /\ (skipped <> [] ->
        exists p, last ex = Some p
                  /\ invalid (@processed Sample.session false p.1 p.2) = false)
    /\ (["cmd-a"; "cmd-b"; "cmd-c"] <> [] -> ex <> []).
Proof.
  apply (@send_command_chain_first_valid Sample.session false
           ["cmd-a"; "cmd-b"; "cmd-c"] Sample.fresh 0%nat " SWITCH# " 1%nat).
  - reflexivity.
  - reflexivity.
  - vm_compute. discriminate.
  - intros cmd expect ch. exists (Sample.answer cmd), (S ch). reflexivity.
Defined.

(** ** Strings: trimming and containment *)

Module StrFacts.
Import Str.

Lemma starts_with_rstrip p s :
  p <> EmptyString -> (exists c, last p = Some c /\ is_space c = false) ->
  starts_with p (rstrip s) = starts_with p s.
Proof.
  revert p. induction s as [|c s IH]; intros p Hne Hlast; [reflexivity|].
  destruct p as [|a p]; [congruence|].
  change (rstrip (String c s)) with
    (match rstrip s with
     | EmptyString => if is_space c then EmptyString else String c EmptyString
     | r => String c r
     end).
  destruct p as [|b p].
  - (* a one-character pattern *)
    destruct Hlast as (x & Hx & Hsp). simpl in Hx. injection Hx as <-.
    destruct (rstrip s) eqn:Er.
    + destruct (is_space c) eqn:Ec; simpl.
      * destruct (Ascii.eqb_spec a c) as [->|]; [congruence|reflexivity].
      * now rewrite !andb_true_r.
    + simpl. now rewrite !andb_true_r.
  - assert (IH' : starts_with (String b p) (rstrip s) = starts_with (String b p) s).
    { apply IH; [discriminate|]. destruct Hlast as (x & Hx & Hsp).
      exists x. split; [exact Hx | exact Hsp]. }
    change (starts_with (String a (String b p)) (String c s))
      with (Ascii.eqb a c && starts_with (String b p) s).
    rewrite <- IH'. clear IH' IH.
    destruct (rstrip s); [destruct (is_space c)|]; simpl;
      rewrite ?andb_false_r; reflexivity.
Qed.

Lemma contains_rstrip p s :
  p <> EmptyString -> (exists c, last p = Some c /\ is_space c = false) ->
  contains p (rstrip s) = contains p s.
Proof.
  intros Hne Hlast. induction s as [|c s IH]; [reflexivity|].
  assert (Hsw := starts_with_rstrip p (String c s) Hne Hlast).
  change (contains p (String c s)) with (starts_with p (String c s) || contains p s).
  rewrite <- Hsw, <- IH.
  change (rstrip (String c s)) with
    (match rstrip s with
     | EmptyString => if is_space c then EmptyString else String c EmptyString
     | r => String c r
     end).
  destruct (rstrip s) eqn:Er.
  - destruct (is_space c); simpl; destruct p; try congruence; simpl;
      now rewrite ?orb_false_r.
  - reflexivity.
Qed.

Lemma contains_lstrip p s :
  (exists c p', p = String c p' /\ is_space c = false) ->
  contains p (lstrip s) = contains p s.
Proof.
  intros (a & p' & -> & Ha). induction s as [|c s IH]; [reflexivity|].
  simpl lstrip. destruct (is_space c) eqn:Ec; [|reflexivity].
  rewrite IH.
  change (contains (String a p') (String c s))
    with (Ascii.eqb a c && starts_with p' s || contains (String a p') s).
  destruct (Ascii.eqb_spec a c) as [->|]; [congruence|reflexivity].
Qed.

(** Trimming a text neither removes nor creates an occurrence of a marker
    that begins and ends with characters other than white space. *)
Lemma contains_strip p s :
  (exists c p', p = String c p' /\ is_space c = false) ->
  (exists c, last p = Some c /\ is_space c = false) ->
  contains p (strip s) = contains p s.
Proof.
  intros Hfirst Hlast. unfold strip.
  rewrite contains_lstrip by exact Hfirst.
  apply contains_rstrip; [|exact Hlast].
  destruct Hfirst as (c & p' & -> & _). discriminate.
Qed.

Lemma contains_strip_invalid s :
  contains "% Invalid" (strip s) = contains "% Invalid" s.
Proof.
  apply contains_strip.
  - eexists _, _. split; reflexivity.
  - eexists. split; reflexivity.
Qed.

Lemma contains_strip_incorrect s :
  contains "Incorrect usage" (strip s) = contains "Incorrect usage" s.
Proof.
  apply contains_strip.
  - eexists _, _. split; reflexivity.
  - eexists. split; reflexivity.
Qed.

End StrFacts.

(** ** [_send_command] on one command *)

Section Single.
Context `{Netmiko}.

Lemma send_single_ok (use_textfsm : bool) (cmd : string) (d : driver) :
  well_behaved -> is_Some (device d) ->
  exists prompt term raw d',
    _send_command (Single cmd) use_textfsm d = (ok (processed use_textfsm cmd raw), d')
    /\ is_Some (device d')
    /\ Str.last (Str.strip prompt) = Some term
    /\ trace d' = (trace d ++ [EvPrompt (ok prompt);
                               EvSend cmd (Some (bounding_pattern term)) (ok raw)])%list.
Proof.
  intros [Hprompt Hsend] [c Hd].
  destruct (Hprompt c) as (prompt & c1 & Hp & Hlast).
  destruct (Str.last (Str.strip prompt)) as [term|] eqn:El; [|congruence].
  destruct (Hsend cmd (Some (bounding_pattern term)) c1) as (raw & c2 & Hs).
  exists prompt, term, raw,
    (Driver (Some c2)
       ((trace d ++ [EvPrompt (ok prompt)])
          ++ [EvSend cmd (Some (bounding_pattern term)) (ok raw)])).
  split; [|split; [eexists; reflexivity | split; [exact El|]]].
  - unfold _send_command, bind at 1, find_prompt.
    rewrite (on_device_some _ _ _ _ _ _ _ Hd Hp). cbn [ok]. rewrite El.
    unfold try_except, bind.
    erewrite send_command_ok; [| reflexivity | exact Hs].
    unfold processed. destruct use_textfsm; reflexivity.
  - cbn [trace]. rewrite <- app_assoc. reflexivity.
Qed.

Lemma send_single_exchanges (use_textfsm : bool) (cmd : string) (d : driver) :
  well_behaved -> is_Some (device d) ->
  exists raw d',
    _send_command (Single cmd) use_textfsm d = (ok (processed use_textfsm cmd raw), d')
    /\ is_Some (device d')
    /\ exchanges_of (trace d') = (exchanges_of (trace d) ++ [(cmd, raw)])%list.
Proof.
  intros Hw Hd.
  destruct (send_single_ok use_textfsm cmd d Hw Hd) as
    (prompt & term & raw & d' & Hrun & Hdev & _ & Htr).
  exists raw, d'. repeat split; try assumption.
  rewrite Htr, exchanges_of_app. reflexivity.
Qed.

End Single.

(** ** [cli] *)

Section Cli.
Context `{Netmiko}.

Lemma results_from_lookup (ex : list (string * string)) :
  forall (acc : gmap string exec_result) (cmd : string),
    results_from acc ex !! cmd =
    match last_reply cmd ex with
    | Some raw => Some (Text (Str.strip raw))
    | None => acc !! cmd
    end.
Proof.
  unfold results_from, last_reply.
  induction ex as [|p ex IH] using rev_ind; intros acc cmd; [reflexivity|].
  rewrite !foldl_snoc. destruct (String.eqb_spec p.1 cmd) as [<-|Hne].
  - now rewrite lookup_insert_eq.
  - rewrite lookup_insert_ne by exact Hne. apply IH.
Qed.

Lemma cli_loop_spec :
  well_behaved ->
  forall (commands : list string) (acc : gmap string exec_result) (d : driver),
    is_Some (device d) ->
    exists (ex : list (string * string)) (skipped : list string) r d',
      cli_loop commands acc d = (r, d')
      /\ commands = (map fst ex ++ skipped)%list
      /\ exchanges_of (trace d') = (exchanges_of (trace d) ++ ex)%list
      /\ Forall no_incorrect_usage (removelast ex)
      /\ match last ex with
         | Some p =>
             if Str.contains "Incorrect usage" p.2
             then r = raise (ValueError ("Unable to execute command " ++ p.1))
             else skipped = [] /\ r = ok (results_from acc ex)
         | None => commands = [] /\ r = ok acc
         end.
Proof.
  intros Hw commands. induction commands as [|cmd rest IH]; intros acc d Hd.
  - exists [], [], (ok acc), d. simpl. rewrite app_nil_r.
    repeat split; constructor.
  - destruct (send_single_exchanges false cmd d Hw Hd) as (raw & d1 & Hrun & Hd1 & Hex).
    assert (Hstep :
      cli_loop (cmd :: rest) acc d =
      if Str.contains "Incorrect usage" raw
      then (raise (ValueError ("Unable to execute command " ++ cmd)), d1)
      else cli_loop rest (<[cmd := Text (Str.strip raw)]> acc) d1).
    { cbn [cli_loop]. unfold bind at 1. rewrite Hrun.
      unfold processed, output_contains, ok. cbv beta iota.
      rewrite StrFacts.contains_strip_incorrect.
      destruct (Str.contains "Incorrect usage" raw); reflexivity. }
    destruct (Str.contains "Incorrect usage" raw) eqn:Ebad.
    + exists [(cmd, raw)], rest, (raise (ValueError ("Unable to execute command " ++ cmd))), d1.
      repeat split; try assumption; try constructor.
      cbn. rewrite Ebad. reflexivity.
    + destruct (IH (<[cmd := Text (Str.strip raw)]> acc) d1 Hd1) as
        (ex & skipped & r & d' & Hloop & Hcmds & Hex' & Hall & Hlast).
      exists ((cmd, raw) :: ex), skipped, r, d'. repeat split.
      * now rewrite Hstep.
      * simpl. now rewrite Hcmds.
      * rewrite Hex', Hex, <- app_assoc. reflexivity.
      * destruct ex as [|p ex]; [constructor|].
        change (removelast ((cmd, raw) :: p :: ex))
          with ((cmd, raw) :: removelast (p :: ex)).
        constructor; [exact Ebad | exact Hall].
      * destruct ex as [|p ex].
        -- cbn. rewrite Ebad. cbn in Hlast. destruct Hlast as [-> ->].
           simpl in Hcmds. now subst.
        -- rewrite last_cons_cons.
           destruct (last (p :: ex)) as [q|] eqn:El.
           ++ exact Hlast.
           ++ apply last_None in El. discriminate.
Qed.

(** C6.  On a session whose exchanges succeed, [cli] runs the commands in
    order: [ex] is the commands run with the text each brought back,
    [skipped] those never run.  No answer before the last one run carries
    the incorrect-usage marker.  When the last one run carries it, the call
    fails with an error naming exactly that command, and the commands after
    it were not run; otherwise every command was run and the result maps
    each command to the trimmed text its (last) run brought back. *)
Theorem cli_stops_at_incorrect_usage :
  forall (commands : list string) (d : driver),
    well_behaved -> is_Some (device d) ->
    exists (ex : list (string * string)) (skipped : list string) r d',
      cli commands "text" d = (r, d')
      /\ commands = (map fst ex ++ skipped)%list
      /\ exchanges_of (trace d') = (exchanges_of (trace d) ++ ex)%list
      /\ Forall no_incorrect_usage (removelast ex)
      /\ match last ex with
         | Some p =>
             if Str.contains "Incorrect usage" p.2
             then r = raise (ValueError ("Unable to execute command " ++ p.1))
             else skipped = []
                  /\ exists m, r = ok m
                       /\ forall cmd, m !! cmd =
                                      (fun raw => Text (Str.strip raw)) <$> last_reply cmd ex
         | None => commands = [] /\ r = ok ∅
         end.
Proof.
  intros commands d Hw Hd.
  destruct (cli_loop_spec Hw commands ∅ d Hd) as
    (ex & skipped & r & d' & Hloop & Hcmds & Hex & Hall & Hlast).
  exists ex, skipped, r, d'. repeat split; try assumption.
  destruct (last ex) as [p|]; [|exact Hlast].
  destruct (Str.contains "Incorrect usage" p.2); [exact Hlast|].
  destruct Hlast as [-> ->]. split; [reflexivity|].
  eexists. split; [reflexivity|].
  intros cmd. rewrite results_from_lookup.
  destruct (last_reply cmd ex); reflexivity.
Qed.

End Cli.

Lemma sample_well_behaved : @well_behaved Sample.session.
Proof.
  split.
  - intros c. exists " SWITCH# ", (S c). split; [reflexivity|].
    vm_compute. discriminate.
  - intros cmd expect c. exists (Sample.answer cmd), (S c). reflexivity.
Qed.

(** C6 on the sample session, for the commands [show version], [bogus cmd],
    [show uptime]. *)
Lemma cli_stops_at_incorrect_usage_witness :
  exists (ex : list (string * string)) (skipped : list string) r d',
    @cli Sample.session ["show version"; "bogus cmd"; "show uptime"] "text" Sample.fresh
    = (r, d')
    /\ ["show version"; "bogus cmd"; "show uptime"] = (map fst ex ++ skipped)%list
    /\ exchanges_of (trace d') = (exchanges_of (trace Sample.fresh) ++ ex)%list
    /\ Forall no_incorrect_usage (removelast ex)
    /\ match last ex with
       | Some p =>
           if Str.contains "Incorrect usage" p.2
           then r = raise (ValueError ("Unable to execute command " ++ p.1))
           else skipped = []
                /\ exists m, r = ok m
                     /\ forall cmd, m !! cmd =
                                    (fun raw => Text (Str.strip raw)) <$> last_reply cmd ex
       | None => ["show version"; "bogus cmd"; "show uptime"] = [] /\ r = ok ∅
       end.
Proof.
  apply (@cli_stops_at_incorrect_usage Sample.session
           ["show version"; "bogus cmd"; "show uptime"] Sample.fresh).
  - exact sample_well_behaved.
  - exists 0%nat. reflexivity.
Defined.

(** The example of the specification, run: the call fails naming
    [bogus cmd], and [show uptime] was never sent. *)
Example cli_bogus_cmd :
  let '(r, d') :=
    @cli Sample.session ["show version"; "bogus cmd"; "show uptime"] "text" Sample.fresh in
  r = raise (ValueError "Unable to execute command bogus cmd")
  /\ map fst (exchanges_of (trace d')) = ["show version"; "bogus cmd"].
Proof. vm_compute. split; reflexivity. Qed.

(** The example of the specification for a list of candidates: [cmd-a] is
    tried once, then [cmd-b], whose answer is returned. *)
Example chain_cmd_a_cmd_b :
  let '(r, d') :=
    @_send_command Sample.session (Chain ["cmd-a"; "cmd-b"]) false Sample.fresh in
  r = ok (Text "ok: cmd-b")
  /\ map fst (exchanges_of (trace d')) = ["cmd-a"; "cmd-b"].
Proof. vm_compute. split; reflexivity. Qed.

(** ** [get_config] *)

Lemma sanitize_config_total (rules : list (string * string)) :
  forallb rule_ok rules = true ->
  forall s, exists t, sanitize_config s rules = ok t.
Proof.
  induction rules as [|[pat repl] rules IH]; intros Hok s.
  - exists s. reflexivity.
  - simpl in Hok. apply andb_true_iff in Hok as [Hrule Hrest].
    unfold rule_ok in Hrule. simpl in Hrule.
    destruct (Re.compile pat) as [e|p] eqn:Ec; [discriminate|].
    destruct (Re.parse_template (Re.p_groups p) repl) as [e|t] eqn:Et; [discriminate|].
    cbn [sanitize_config]. unfold re_sub, Re.sub. rewrite Ec, Et.
    apply (IH Hrest).
Qed.

Lemma filters_ok : forallb rule_ok filters = true.
Proof. vm_compute. reflexivity. Qed.

Lemma sanitize_config_filters (s : string) :
  sanitize_config s filters = ok (sanitize_text s).
Proof.
  unfold sanitize_text.
  destruct (sanitize_config_total filters filters_ok s) as [t ->]. reflexivity.
Qed.

Lemma sanitize_text_empty : sanitize_text "" = "".
Proof. vm_compute. reflexivity. Qed.

Section GetConfig.
Context `{Netmiko}.

Lemma enable_ok (d : driver) :
  well_behaved -> is_Some (device d) ->
  exists raw d',
    _enable d = (ok tt, d') /\ is_Some (device d')
    /\ exchanges_of (trace d') = (exchanges_of (trace d) ++ [("enable", raw)])%list.
Proof.
  intros [_ Hsend] [c Hd]. destruct (Hsend "enable" (Some "#") c) as (raw & c' & Hs).
  exists raw, (Driver (Some c') (trace d ++ [EvSend "enable" (Some "#") (ok raw)])).
  split; [|split; [eexists; reflexivity|]].
  - unfold _enable, bind. erewrite send_command_ok; [reflexivity | exact Hd | exact Hs].
  - cbn [trace]. rewrite exchanges_of_app. reflexivity.
Qed.

(** The [candidate] field is never written, and sanitization leaves the
    empty text empty. *)
Lemma get_config_candidate retrieve full sanitized (d : driver) data d' :
  get_config retrieve full sanitized d = (ok data, d') -> candidate data = Text "".
Proof.
  unfold get_config, bind, ret, lift.
  destruct (_enable d) as [[e|[]] d1]; [discriminate|].
  assert (Hsan : forall x y, candidate x = Text "" ->
            (if sanitized then sanitize_configs x filters else ok x) = ok y ->
            candidate y = Text "").
  { intros x y Hx Hy. destruct sanitized; [|injection Hy as <-; exact Hx].
    unfold sanitize_configs, rbind in Hy.
    destruct (sanitize_field filters (startup x)) as [e|s]; [discriminate|].
    destruct (sanitize_field filters (running x)) as [e|r]; [discriminate|].
    rewrite Hx in Hy. cbn [sanitize_field] in Hy.
    rewrite sanitize_config_filters, sanitize_text_empty in Hy.
    cbn in Hy. injection Hy as <-. reflexivity. }
  destruct (retrieve_in retrieve ["all"; "running"]);
    [destruct (_send_command (Single "show running-config") false d1) as [[e|o1] d2];
       [discriminate|] |];
    (destruct (retrieve_in retrieve ["all"; "startup"]);
     [match goal with
      | |- context [_send_command (Single "show startup-config") false ?dd] =>
          destruct (_send_command (Single "show startup-config") false dd) as [[e|o2] d3];
          [discriminate|]
      end |]);
    intros Hres; unfold ok in Hres; cbv beta iota in Hres;
    cbn [startup running candidate] in Hres;
    destruct sanitized; cbv beta in Hres;
    apply (f_equal fst) in Hres; cbn [fst] in Hres;
    (eapply Hsan; [|exact Hres]; reflexivity).
Qed.

Lemma sanitize_snapshot (sanitized : bool) (s r : string) (d : driver) :
  (if sanitized
   then lift (sanitize_configs (ConfigDict (Text s) (Text r) (Text "")) filters)
   else ret (ConfigDict (Text s) (Text r) (Text ""))) d
  = (ok (ConfigDict (Text (if sanitized then sanitize_text s else s))
                    (Text (if sanitized then sanitize_text r else r))
                    (Text "")), d).
Proof.
  destruct sanitized; [|reflexivity].
  unfold lift, sanitize_configs. cbn [startup running candidate sanitize_field].
  rewrite !sanitize_config_filters. cbn. rewrite sanitize_text_empty. reflexivity.
Qed.

(** C8.  On a session whose exchanges succeed: [get_config] with
    [retrieve="startup"] sends [enable] and [show startup-config] only and
    returns a snapshot whose [running] field is the empty text, [startup]
    holding what the device answered; with [retrieve="all"] it asks for both
    configurations and both fields hold what the device answered; and
    whatever [retrieve] is, and whatever the session does, the [candidate]
    field of a returned snapshot is the empty text. *)
Theorem get_config_fields :
  forall (full sanitized : bool) (d : driver),
    well_behaved -> is_Some (device d) ->
    (exists e raw d',
        get_config "startup" full sanitized d
        = (ok (ConfigDict (presented sanitized raw) (Text "") (Text "")), d')
        /\ exchanges_of (trace d')
           = (exchanges_of (trace d) ++ [("enable", e); ("show startup-config", raw)])%list)
    /\ (exists e raw_r raw_s d',
        get_config "all" full sanitized d
        = (ok (ConfigDict (presented sanitized raw_s) (presented sanitized raw_r) (Text "")), d')
        /\ exchanges_of (trace d')
           = (exchanges_of (trace d) ++
              [("enable", e); ("show running-config", raw_r);
               ("show startup-config", raw_s)])%list)
    /\ (forall retrieve data d',
        get_config retrieve full sanitized d = (ok data, d') -> candidate data = Text "").
Proof.
  intros full sanitized d Hw Hd.
  destruct (enable_ok d Hw Hd) as (e & d1 & Hen & Hd1 & Hex1).
  split; [|split].
  - destruct (send_single_exchanges false "show startup-config" d1 Hw Hd1)
      as (raw & d2 & Hrun & Hd2 & Hex2).
    exists e, raw, d2. split.
    + unfold get_config. rewrite (bind_ok _ _ _ _ _ Hen).
      change (retrieve_in "startup" ["all"; "running"]) with false.
      change (retrieve_in "startup" ["all"; "startup"]) with true.
      cbv iota. rewrite bind_ret, bind_bind, (bind_ok _ _ _ _ _ Hrun), bind_ret.
      cbn [startup running candidate]. unfold processed.
      rewrite sanitize_snapshot. unfold presented.
      rewrite sanitize_text_empty. destruct sanitized; reflexivity.
    + rewrite Hex2, Hex1, <- app_assoc. reflexivity.
  - destruct (send_single_exchanges false "show running-config" d1 Hw Hd1)
      as (raw_r & d2 & Hrun & Hd2 & Hex2).
    destruct (send_single_exchanges false "show startup-config" d2 Hw Hd2)
      as (raw_s & d3 & Hrun' & Hd3 & Hex3).
    exists e, raw_r, raw_s, d3. split.
    + unfold get_config. rewrite (bind_ok _ _ _ _ _ Hen).
      change (retrieve_in "all" ["all"; "running"]) with true.
      change (retrieve_in "all" ["all"; "startup"]) with true.
      cbv iota. rewrite bind_bind, (bind_ok _ _ _ _ _ Hrun), bind_ret.
      rewrite bind_bind, (bind_ok _ _ _ _ _ Hrun'), bind_ret.
      cbn [startup running candidate]. unfold processed.
      rewrite sanitize_snapshot. reflexivity.
    + rewrite Hex3, Hex2, Hex1, <- !app_assoc. reflexivity.
  - intros retrieve data d'. apply get_config_candidate.
Qed.

End GetConfig.

(** C8 on the sample session, with sanitization. *)
Lemma get_config_fields_witness :
  (exists e raw d',
      @get_config Sample.session "startup" false true Sample.fresh
      = (ok (ConfigDict (presented true raw) (Text "") (Text "")), d')
      /\ exchanges_of (trace d')
         = (exchanges_of (trace Sample.fresh) ++
            [("enable", e); ("show startup-config", raw)])%list)
  /\ (exists e raw_r raw_s d',
      @get_config Sample.session "all" false true Sample.fresh
      = (ok (ConfigDict (presented true raw_s) (presented true raw_r) (Text "")), d')
      /\ exchanges_of (trace d')
         = (exchanges_of (trace Sample.fresh) ++
            [("enable", e); ("show running-config", raw_r);
             ("show startup-config", raw_s)])%list)
  /\ (forall retrieve data d',
      @get_config Sample.session retrieve false true Sample.fresh = (ok data, d') ->
      candidate data = Text "").
Proof.
  apply (@get_config_fields Sample.session false true Sample.fresh).
  - exact sample_well_behaved.
  - exists 0%nat. reflexivity.
Defined.

(** The two retrievals of the specification, run on the sample session. *)
Example get_config_startup_only :
  fst (@get_config Sample.session "startup" false false Sample.fresh)
  = ok (ConfigDict (Text "hostname olt-1") (Text "") (Text "")).
Proof. vm_compute. reflexivity. Qed.

(** ** The matcher against the declarative reading *)

Module ReFacts.
Import Re.

Lemma append_cons c (a b : string) : (String c a ++ b)%string = String c (a ++ b).
Proof. reflexivity. Qed.

Lemma append_nil_l (b : string) : ("" ++ b)%string = b.
Proof. reflexivity. Qed.

Ltac unapp := rewrite ?append_cons, ?append_nil_l in *.

Lemma append_assoc (a b c : string) : ((a ++ b) ++ c = a ++ (b ++ c))%string.
Proof. induction a as [|x a IH]; unapp; [reflexivity | now rewrite IH]. Qed.

Lemma append_nil_r (a : string) : (a ++ "")%string = a.
Proof. induction a as [|x a IH]; unapp; [reflexivity | now rewrite IH]. Qed.

Lemma length_append (a b : string) :
  String.length (a ++ b) = (String.length a + String.length b)%nat.
Proof. induction a as [|x a IH]; unapp; simpl; [reflexivity | now rewrite IH]. Qed.

Lemma all_append p (a b : string) :
  Str.all p (a ++ b) = Str.all p a && Str.all p b.
Proof.
  induction a as [|x a IH]; unapp; simpl; [reflexivity|].
  rewrite IH. now rewrite andb_assoc.
Qed.

Section Sound.
Context {R : Type}.
Variable ml : bool.

Lemma rep_m_sound p min s (k : string -> option R) x :
  rep_m p min s k = Some x ->
  exists pre rest, s = (pre ++ rest)%string /\ Str.all p pre = true
                   /\ (min <= String.length pre)%nat /\ k rest = Some x.
Proof.
  revert min. induction s as [|c s IH]; intros min Hm.
  - simpl in Hm. destruct min; [|discriminate].
    exists ""%string, ""%string. repeat split; [simpl; lia | exact Hm].
  - cbn [rep_m] in Hm.
    assert (Hstop : match min with O => k (String c s) | S _ => None end = Some x ->
                    exists pre rest, String c s = (pre ++ rest)%string
                      /\ Str.all p pre = true /\ (min <= String.length pre)%nat
                      /\ k rest = Some x).
    { destruct min; [|discriminate]. intros Hk.
      exists ""%string, (String c s). repeat split; [simpl; lia | exact Hk]. }
    destruct (p c) eqn:Ec; [|exact (Hstop Hm)].
    destruct (rep_m p (Nat.pred min) s k) as [y|] eqn:Er; [|exact (Hstop Hm)].
    injection Hm as <-.
    destruct (IH _ Er) as (pre & rest & -> & Hall & Hlen & Hk).
    exists (String c pre), rest. simpl. rewrite Ec, Hall.
    repeat split; [lia | exact Hk].
Qed.

Lemma rep_m_complete p pre rest (k : string -> option R) :
  forall min, Str.all p pre = true -> (min <= String.length pre)%nat ->
  k rest <> None -> rep_m p min (pre ++ rest) k <> None.
Proof.
  induction pre as [|c pre IH]; intros min Hall Hlen Hk; unapp.
  - simpl in Hlen. assert (min = O) as -> by lia.
    destruct rest as [|c rest]; simpl; [exact Hk|].
    destruct (p c); [|exact Hk].
    destruct (rep_m p 0 rest k); [discriminate | exact Hk].
  - simpl in Hall. apply andb_true_iff in Hall as [Hc Hall].
    simpl. rewrite Hc.
    specialize (IH (Nat.pred min) Hall).
    destruct (rep_m p (Nat.pred min) (pre ++ rest) k); [discriminate|].
    exfalso. apply IH; [simpl in Hlen; lia | exact Hk | reflexivity].
Qed.

(** Whatever the matcher finds is a match in the declarative reading. *)
Lemma re_m_sound (r : re) :
  forall s cs (k : string -> caps -> option R) x,
    re_m ml r s cs k = Some x ->
    exists rest cs', matches ml r s rest /\ k rest cs' = Some x.
Proof.
  induction r as [|a|a min|r IH| |i r IH|r1 IH1 r2 IH2]; intros s cs k x Hm; simpl in Hm.
  - exists s, cs. split; [constructor | exact Hm].
  - destruct s as [|c s]; [discriminate|].
    destruct (atom_matches a c) eqn:Ea; [|discriminate].
    exists s, cs. split; [now constructor | exact Hm].
  - apply rep_m_sound in Hm as (pre & rest & -> & Hall & Hlen & Hk).
    exists rest, cs. split; [now constructor | exact Hk].
  - destruct (re_m ml r s cs k) as [y|] eqn:Er.
    + injection Hm as <-. destruct (IH _ _ _ _ Er) as (rest & cs' & Hr & Hk).
      exists rest, cs'. split; [now apply MOptSome | exact Hk].
    + exists s, cs. split; [apply MOptNone | exact Hm].
  - destruct (at_end ml s) eqn:Ee; [|discriminate].
    exists s, cs. split; [now constructor | exact Hm].
  - destruct (IH _ _ _ _ Hm) as (rest & cs' & Hr & Hk).
    exists rest, ((i, Str.consumed s rest) :: cs'). split; [now constructor | exact Hk].
  - destruct (IH1 _ _ _ _ Hm) as (mid & cs1 & Hr1 & Hk1).
    destruct (IH2 _ _ _ _ Hk1) as (rest & cs2 & Hr2 & Hk2).
    exists rest, cs2. split; [econstructor; eassumption | exact Hk2].
Qed.

(** A match in the declarative reading whose remainder the continuation
    accepts makes the matcher succeed (on that match or on one of higher
    priority). *)
Lemma re_m_complete (r : re) s rest :
  matches ml r s rest ->
  forall cs (k : string -> caps -> option R),
    (forall cs', k rest cs' <> None) -> re_m ml r s cs k <> None.
Proof.
  induction 1 as [s|a c s Ha|a min pre rest Hall Hlen|r s rest Hr IH|r s|s He
                 |i r s rest Hr IH|r1 r2 s mid rest H1 IH1 H2 IH2];
    intros cs k Hk; simpl.
  - apply Hk.
  - rewrite Ha. apply Hk.
  - apply rep_m_complete; [exact Hall | exact Hlen | apply Hk].
  - specialize (IH cs k Hk). destruct (re_m ml r s cs k); [discriminate | contradiction].
  - destruct (re_m ml r s cs k); [discriminate | apply Hk].
  - rewrite He. apply Hk.
  - apply IH. intros cs'. apply Hk.
  - apply IH1. intros cs'. apply IH2. exact Hk.
Qed.

End Sound.

(** What a match leaves is a suffix of the text. *)
Lemma matches_suffix ml r s rest :
  matches ml r s rest -> exists pre, s = (pre ++ rest)%string.
Proof.
  induction 1 as [s|a c s Ha|a min pre rest Hall Hlen|r s rest Hr IH|r s|s He
                 |i r s rest Hr IH|r1 r2 s mid rest H1 IH1 H2 IH2].
  - exists ""%string. reflexivity.
  - exists (String c ""). reflexivity.
  - exists pre. reflexivity.
  - exact IH.
  - exists ""%string. reflexivity.
  - exists ""%string. reflexivity.
  - exact IH.
  - destruct IH1 as [p1 ->]. destruct IH2 as [p2 ->].
    exists (p1 ++ p2)%string. now rewrite append_assoc.
Qed.

Lemma match_here_iff ml r s :
  match_here ml false r s <> None <-> exists rest, matches ml r s rest.
Proof.
  unfold match_here. split.
  - destruct (re_m ml r s [] _) as [x|] eqn:Em; [|congruence]. intros _.
    apply re_m_sound in Em as (rest & cs' & Hr & _). now exists rest.
  - intros [rest Hr]. eapply re_m_complete; [exact Hr|]. intros cs'. discriminate.
Qed.

(** [search] succeeds exactly when the pattern matches at some position. *)
Lemma search_from_iff ml r :
  forall s before,
    search_from ml false r before s <> None <->
    exists u s' rest, s = (u ++ s')%string /\ matches ml r s' rest.
Proof.
  induction s as [|c s IH]; intros before; cbn [search_from].
  - destruct (match_here ml false r "") as [[rest cs]|] eqn:Em.
    + split; [|discriminate]. intros _.
      assert (Hm : match_here ml false r "" <> None) by congruence.
      apply match_here_iff in Hm as [rest' Hr]. exists ""%string, ""%string, rest'. now split.
    + split; [congruence|]. intros (u & s' & rest & Hs & Hr).
      destruct u; [|discriminate]. unapp. subst s'.
      assert (Hm : match_here ml false r "" <> None) by (apply match_here_iff; eauto).
      congruence.
  - destruct (match_here ml false r (String c s)) as [[rest cs]|] eqn:Em.
    + split; [|discriminate]. intros _.
      assert (Hm : match_here ml false r (String c s) <> None) by congruence.
      apply match_here_iff in Hm as [rest' Hr].
      exists ""%string, (String c s), rest'. now split.
    + rewrite IH. split.
      * intros (u & s' & rest & -> & Hr). exists (String c u), s', rest. now split.
      * intros (u & s' & rest & Hs & Hr). destruct u as [|x u].
        -- unapp. subst s'.
           assert (Hm : match_here ml false r (String c s) <> None)
             by (apply match_here_iff; eauto).
           congruence.
        -- unapp. injection Hs as -> ->. exists u, s', rest. now split.
Qed.

End ReFacts.

(** ** The bounding pattern of [_send_command] *)

Lemma bounding_pattern_compiles (c : ascii) :
  c <> "]"%char -> c <> "\"%char ->
  Re.compile (bounding_pattern c) = inr (Re.Pattern (bounding_re c) 0 []).
Proof.
  intros H1 H2.
  destruct c as [b0 b1 b2 b3 b4 b5 b6 b7].
  destruct b0, b1, b2, b3, b4, b5, b6, b7;
    try (exfalso; apply H1; reflexivity);
    try (exfalso; apply H2; reflexivity);
    vm_compute; reflexivity.
Qed.

Lemma at_end_spaces (s : string) :
  Re.at_end false s = true -> Str.all Str.is_space s = true.
Proof.
  destruct s as [|c s]; [reflexivity|]. simpl.
  destruct (Ascii.eqb_spec c Str.nl) as [->|]; [|discriminate].
  destruct s; [reflexivity | discriminate].
Qed.

Lemma bounding_re_matches (c : ascii) (text : string) :
  (exists u s' rest, text = (u ++ s')%string /\ matches false (bounding_re c) s' rest)
  <-> ends_with_terminal [">"%char; "#"%char; c] text.
Proof.
  unfold ends_with_terminal, bounding_re. split.
  - intros (u & s' & rest & -> & Hm).
    inversion Hm as [| | | | | | |r1 r2 s0 mid rest0 Ha Hrest]; subst.
    inversion Ha as [|a x s1 Hx| | | | | |]; subst.
    inversion Hrest as [| | | | | | |r1 r2 s0 mid2 rest0 Hs Hend]; subst.
    inversion Hs as [| |a min pre rest1 Hall Hlen| | | | |]; subst.
    inversion Hend as [| | | | | | |r1 r2 s0 mid3 rest0 He Hnil]; subst.
    inversion He as [| | | | |s2 Hat| |]; subst.
    exists u, x, (pre ++ mid3)%string. split; [reflexivity|]. split.
    + cbn [Re.atom_matches existsb Re.in_item xorb] in Hx.
      rewrite !orb_true_iff in Hx.
      destruct Hx as [Hx|[Hx|[Hx|Hx]]]; [| | |discriminate];
        apply Ascii.eqb_eq in Hx; subst; simpl; auto.
    + rewrite ReFacts.all_append. apply andb_true_iff. split; [exact Hall|].
      now apply at_end_spaces.
  - intros (u & x & w & -> & Hin & Hall).
    exists u, (String x w), ""%string. split; [reflexivity|].
    eapply MCat.
    + apply MAtom. cbn [Re.atom_matches existsb Re.in_item xorb].
      rewrite !orb_true_iff.
      destruct Hin as [<-|[<-|[<-|[]]]]; rewrite Ascii.eqb_refl; auto.
    + eapply MCat.
      * rewrite <- (ReFacts.append_nil_r w) at 1.
        apply MRep; [exact Hall | simpl; lia].
      * eapply MCat; [apply MEnd; reflexivity | apply MEmpty].
Qed.

(** C9, as the code has it.  For a prompt whose last character [c] after
    trimming is neither a closing bracket nor a backslash, the bounding
    pattern compiles, and it finds a match exactly in the texts that end
    with [>], [#] or [c] followed by white space only. *)
Theorem bounding_pattern_matches :
  forall (prompt : string) (c : ascii),
    Str.last (Str.strip prompt) = Some c ->
    c <> "]"%char -> c <> "\"%char ->
    exists p,
      re_compile (bounding_pattern c) = ok p
      /\ forall text,
           is_Some (Re.search false p text)
           <-> ends_with_terminal [">"%char; "#"%char; c] text.
Proof.
  intros prompt c _ H1 H2.
  exists (Re.Pattern (bounding_re c) 0 []). split.
  - unfold re_compile. now rewrite bounding_pattern_compiles.
  - intros text. unfold Re.search. cbn [Re.p_re].
    rewrite <- not_eq_None_Some, ReFacts.search_from_iff.
    apply bounding_re_matches.
Qed.

Lemma bounding_pattern_matches_witness :
  exists p,
    re_compile (bounding_pattern "$") = ok p
    /\ forall text,
         is_Some (Re.search false p text)
         <-> ends_with_terminal [">"%char; "#"%char; "$"%char] text.
Proof.
  apply (bounding_pattern_matches "admin@olt:~$ " "$"%char).
  - reflexivity.
  - discriminate.
  - discriminate.
Defined.

(** C9 as stated fails: for the prompt [SWITCH#] the pattern also finds a
    match in a text that ends with [>]. *)
Lemma bounding_pattern_other_terminal : ~ bounds_only_terminal "SWITCH# ".
Proof.
  intros Hc.
  destruct (Hc "#"%char (Re.Pattern (bounding_re "#") 0 []) "x>"%string
               eq_refl eq_refl) as [Hfound _].
  destruct Hfound as (u & x & w & Heq & Hin & _).
  - vm_compute. eexists. reflexivity.
  - destruct Hin as [<-|[]].
    destruct u as [|a [|b [|c u]]]; ReFacts.unapp; discriminate.
Qed.

(** The two prompts left out of C9: after a closing bracket the set is
    closed early and the pattern asks for [>]] or [#]]; after a backslash
    the pattern does not compile. *)
Example bounding_pattern_bracket :
  exists p, re_compile (bounding_pattern "]") = ok p
            /\ Re.search false p "olt]" = None
            /\ is_Some (Re.search false p "olt>]").
Proof. eexists. split; [vm_compute; reflexivity|]. split; vm_compute; eauto. Qed.

Example bounding_pattern_backslash :
  re_compile (bounding_pattern "\") = raise (ReError "unterminated character set").
Proof. vm_compute. reflexivity. Qed.

(** ** Sums of small integers in binary64 are exact *)

Module FloatFacts.
Local Open Scope Z_scope.

Lemma digits2_log2 p : Zpos (digits2_pos p) = Z.log2 (Zpos p) + 1.
Proof.
  induction p as [p IH|p IH|]; simpl digits2_pos.
  - rewrite Pos2Z.inj_succ, IH.
    change (Z.pos p~1) with (2 * Z.pos p + 1). rewrite Z.log2_succ_double by lia. lia.
  - rewrite Pos2Z.inj_succ, IH.
    change (Z.pos p~0) with (2 * Z.pos p). rewrite Z.log2_double by lia. lia.
  - reflexivity.
Qed.

Lemma iter_xO_val m n : Zpos (Pos.iter xO m n) = Zpos m * 2 ^ Zpos n.
Proof.
  induction n as [|n IH] using Pos.peano_ind.
  - simpl. lia.
  - rewrite Pos.iter_succ, Pos2Z.inj_succ, Z.pow_succ_r by lia.
    change (Z.pos (Pos.iter xO m n)~0) with (2 * Z.pos (Pos.iter xO m n)). lia.
Qed.

Lemma iter_pos_iter {A} (f : A -> A) n x : SpecFloat.iter_pos f n x = Pos.iter f x n.
Proof.
  revert x. induction n as [n IH|n IH|]; intros x; simpl.
  - rewrite !IH. rewrite <- !Pos.iter_swap. reflexivity.
  - rewrite !IH. reflexivity.
  - reflexivity.
Qed.

Lemma shr_exact m n :
  SpecFloat.iter_pos shr_1 n (Build_shr_record (Zpos (Pos.iter xO m n)) false false)
  = Build_shr_record (Zpos m) false false.
Proof.
  rewrite iter_pos_iter.
  induction n as [|n IH] using Pos.peano_ind.
  - reflexivity.
  - rewrite Pos.iter_succ_r. rewrite Pos.iter_succ. simpl shr_1. exact IH.
Qed.

Lemma fexp_val e : -1074 <= e - 53 -> fexp prec emax e = e - 53.
Proof. intros He. unfold fexp, emin, prec, emax. lia. Qed.

(** Rounding a mantissa whose value is [m' * 2^n] with [m'] of 53 bits. *)
Lemma round_aux_exact (M m' : positive) (n e : Z) :
  0 <= n -> Zpos M = Zpos m' * 2 ^ n -> Z.log2 (Zpos m') = 52 ->
  -1074 <= e + n <= 971 ->
  binary_round_aux prec emax false (Zpos M) e loc_Exact = S754_finite false m' (e + n).
Proof.
  intros Hn HM Hd He.
  assert (HdM : Zpos (digits2_pos M) = 53 + n).
  { rewrite digits2_log2, HM, Z.log2_mul_pow2 by lia. lia. }
  assert (Hdm : Zpos (digits2_pos m') = 53) by (rewrite digits2_log2; lia).
  unfold binary_round_aux, shr_fexp. cbn [Zdigits2 shr_record_of_loc].
  rewrite HdM, fexp_val by lia.
  replace (53 + n + e - 53 - e) with n by lia.
  assert (Hshr : shr (Build_shr_record (Zpos M) false false) e n
                 = (Build_shr_record (Zpos m') false false, e + n)).
  { destruct n as [|k|k]; [| |lia].
    - simpl. rewrite Z.add_0_r. f_equal. f_equal. rewrite HM. simpl. lia.
    - cbn [shr]. f_equal.
      assert (M = Pos.iter xO m' k) as ->.
      { apply Pos2Z.inj. rewrite HM, iter_xO_val. reflexivity. }
      apply shr_exact. }
  rewrite Hshr. cbn [shr_m loc_of_shr_record round_nearest_even Zdigits2 shr_record_of_loc].
  rewrite Hdm, fexp_val by lia.
  replace (53 + (e + n) - 53 - (e + n)) with 0 by lia.
  cbn [shr shr_m].
  replace (e + n <=? emax - prec) with true; [reflexivity|].
  symmetry. apply Z.leb_le. unfold emax, prec. lia.
Qed.

Lemma canon_pos v : 0 < v ->
  canon v = S754_finite false (Z.to_pos (v * 2 ^ (52 - Z.log2 v))) (Z.log2 v - 52).
Proof. destruct v; try lia. reflexivity. Qed.

(** Rounding [M * 2^e], an integer below [2^53], gives its canonical form. *)
Lemma round_exact (M : positive) (e v : Z) :
  0 < v < 2 ^ 53 -> e <= 0 -> -1000 <= e -> Zpos M = v * 2 ^ (- e) ->
  binary_round prec emax false M e = canon v.
Proof.
  intros Hv He He' HM.
  assert (Hl : 0 <= Z.log2 v < 53).
  { split; [apply Z.log2_nonneg|]. apply Z.log2_lt_pow2; lia. }
  assert (Hspec := Z.log2_spec v ltac:(lia)).
  set (m' := Z.to_pos (v * 2 ^ (52 - Z.log2 v))).
  assert (Hm' : Zpos m' = v * 2 ^ (52 - Z.log2 v)).
  { unfold m'. rewrite Z2Pos.id; [reflexivity|]. apply Z.mul_pos_pos; [lia|].
    apply Z.pow_pos_nonneg; lia. }
  assert (Hlm : Z.log2 (Zpos m') = 52).
  { rewrite Hm', Z.log2_mul_pow2 by lia. lia. }
  rewrite canon_pos by lia. fold m'.
  unfold binary_round.
  assert (HdM : Zpos (digits2_pos M) + e = Z.log2 v + 1).
  { rewrite digits2_log2, HM, Z.log2_mul_pow2 by lia. lia. }
  rewrite HdM, fexp_val by lia.
  replace (Z.log2 v + 1 - 53) with (Z.log2 v - 52) by lia.
  unfold shl_align.
  destruct (Z.log2 v - 52 - e) as [|k|k] eqn:Ek.
  - replace (Z.log2 v - 52) with (e + 0) by lia.
    apply round_aux_exact; [lia | | exact Hlm | lia].
    rewrite HM, Hm'. replace (52 - Z.log2 v) with (- e) by lia. lia.
  - replace (Z.log2 v - 52) with (e + Zpos k) by lia.
    apply round_aux_exact; [lia | | exact Hlm | lia].
    rewrite HM, Hm', <- Z.mul_assoc, <- Z.pow_add_r by lia.
    f_equal. f_equal. lia.
  - replace (Z.log2 v - 52) with ((Z.log2 v - 52) + 0) at 2 by lia.
    apply round_aux_exact; [lia | | exact Hlm | lia].
    rewrite iter_xO_val, HM, Hm', Z.pow_0_r, Z.mul_1_r, <- Z.mul_assoc, <- Z.pow_add_r by lia.
    f_equal. f_equal. lia.
Qed.

Lemma norm_canon v : 0 <= v < 2 ^ 53 -> norm v = canon v.
Proof.
  intros Hv. unfold norm, binary_normalize. destruct v as [|p|p]; [reflexivity| |lia].
  apply round_exact; [lia | lia | lia | simpl; lia].
Qed.

Lemma canon_valid v : 0 <= v < 2 ^ 53 -> valid_binary (canon v) = true.
Proof.
  intros Hv. destruct v as [|p|p]; [reflexivity| |lia].
  assert (Hl : 0 <= Z.log2 (Zpos p) < 53).
  { split; [apply Z.log2_nonneg|]. apply Z.log2_lt_pow2; lia. }
  unfold valid_binary. cbn [canon SpecFloat.valid_binary]. unfold bounded, canonical_mantissa.
  rewrite digits2_log2, Z2Pos.id, Z.log2_mul_pow2 by
    (try apply Z.mul_pos_pos; try apply Z.pow_pos_nonneg; lia).
  rewrite fexp_val by lia.
  apply andb_true_iff. split; [apply Z.eqb_eq; lia | apply Z.leb_le; unfold emax, prec; lia].
Qed.

Lemma shl_align_val m e e' :
  e' <= e -> Zpos (fst (shl_align m e e')) = Zpos m * 2 ^ (e - e').
Proof.
  intros He. unfold shl_align. destruct (e' - e) as [|k|k] eqn:Ek; cbn [fst].
  - replace (e - e') with 0 by lia. lia.
  - lia.
  - rewrite iter_xO_val. f_equal. f_equal. lia.
Qed.

Lemma SFadd_canon a b :
  0 <= a -> 0 <= b -> a + b < 2 ^ 53 ->
  SFadd prec emax (canon a) (canon b) = canon (a + b).
Proof.
  intros Ha Hb Hab.
  destruct a as [|pa|pa]; [|destruct b as [|pb|pb]|]; try lia.
  - destruct b; try lia; reflexivity.
  - rewrite Z.add_0_r. reflexivity.
  - assert (Hla : 0 <= Z.log2 (Zpos pa) < 53).
    { split; [apply Z.log2_nonneg|]. apply Z.log2_lt_pow2; lia. }
    assert (Hlb : 0 <= Z.log2 (Zpos pb) < 53).
    { split; [apply Z.log2_nonneg|]. apply Z.log2_lt_pow2; lia. }
    rewrite (canon_pos (Zpos pa)), (canon_pos (Zpos pb)) by lia.
    set (ea := Z.log2 (Zpos pa) - 52). set (eb := Z.log2 (Zpos pb) - 52).
    set (ma := Z.to_pos (Zpos pa * 2 ^ (52 - Z.log2 (Zpos pa)))).
    set (mb := Z.to_pos (Zpos pb * 2 ^ (52 - Z.log2 (Zpos pb)))).
    assert (Hma : Zpos ma = Zpos pa * 2 ^ (- ea)).
    { unfold ma, ea. rewrite Z2Pos.id.
      - f_equal. f_equal. lia.
      - apply Z.mul_pos_pos; [lia|]. apply Z.pow_pos_nonneg; lia. }
    assert (Hmb : Zpos mb = Zpos pb * 2 ^ (- eb)).
    { unfold mb, eb. rewrite Z2Pos.id.
      - f_equal. f_equal. lia.
      - apply Z.mul_pos_pos; [lia|]. apply Z.pow_pos_nonneg; lia. }
    cbn [SFadd cond_Zopp].
    set (ez := Z.min ea eb).
    assert (Hza : Zpos (fst (shl_align ma ea ez)) = Zpos pa * 2 ^ (- ez)).
    { rewrite shl_align_val, Hma, <- Z.mul_assoc, <- Z.pow_add_r by (unfold ez; lia).
      f_equal. f_equal. lia. }
    assert (Hzb : Zpos (fst (shl_align mb eb ez)) = Zpos pb * 2 ^ (- ez)).
    { rewrite shl_align_val, Hmb, <- Z.mul_assoc, <- Z.pow_add_r by (unfold ez; lia).
      f_equal. f_equal. lia. }
    change (Zpos (fst (shl_align ma ea ez)) + Zpos (fst (shl_align mb eb ez)))
      with (Zpos (fst (shl_align ma ea ez) + fst (shl_align mb eb ez))).
    cbn [binary_normalize].
    apply round_exact; [lia | unfold ez, ea, eb; lia | unfold ez, ea, eb; lia |].
    rewrite Pos2Z.inj_add, Hza, Hzb. lia.
Qed.

(** The float of an integer below [2^53]. *)
Lemma float_of_int_exact n :
  0 <= n < 2 ^ 53 -> float_of_int n = ok (SF2Prim (canon n)).
Proof.
  intros Hn. unfold float_of_int. fold (norm n). rewrite norm_canon by exact Hn.
  destruct n; try lia; reflexivity.
Qed.

Lemma float_add_int_exact a n :
  0 <= a -> 0 <= n -> a + n < 2 ^ 53 ->
  float_add_int (SF2Prim (canon a)) n = ok (SF2Prim (canon (a + n))).
Proof.
  intros Ha Hn Hs. unfold float_add_int.
  rewrite float_of_int_exact by lia. unfold ok, rbind. f_equal.
  apply Prim2SF_inj.
  rewrite add_spec, !Prim2SF_SF2Prim by (apply canon_valid; lia).
  apply SFadd_canon; lia.
Qed.

Lemma int_of_float_exact v :
  0 <= v < 2 ^ 53 -> int_of_float (SF2Prim (canon v)) = ok v.
Proof.
  intros Hv. unfold int_of_float.
  rewrite Prim2SF_SF2Prim by (apply canon_valid; lia).
  destruct v as [|p|p]; [reflexivity| |lia].
  assert (Hl : 0 <= Z.log2 (Zpos p) < 53).
  { split; [apply Z.log2_nonneg|]. apply Z.log2_lt_pow2; lia. }
  cbn [canon]. unfold ok. f_equal.
  assert (Hm : Zpos (Z.to_pos (Zpos p * 2 ^ (52 - Z.log2 (Zpos p))))
               = Zpos p * 2 ^ (52 - Z.log2 (Zpos p))).
  { rewrite Z2Pos.id; [reflexivity|]. apply Z.mul_pos_pos; [lia|].
    apply Z.pow_pos_nonneg; lia. }
  destruct (Z.log2 (Zpos p) - 52) as [|k|k] eqn:Ek.
  - rewrite Hm. replace (52 - Z.log2 (Zpos p)) with 0 by lia. lia.
  - lia.
  - rewrite Hm, Z.shiftr_div_pow2 by lia.
    replace (- Zneg k) with (52 - Z.log2 (Zpos p)) by lia.
    apply Z.div_mul. apply Z.pow_nonzero; lia.
Qed.

End FloatFacts.

(** ** [_format_uptime] *)

Module UptimeFacts.
Import Re ReFacts.

Lemma uptime_regex_compiles : re_compile uptime_regex = ok uptime_pattern.
Proof. vm_compute. reflexivity. Qed.

Lemma format_uptime_unfold (s : string) :
  _format_uptime s =
  match uptime_match s with
  | None => raise (AttributeError "'NoneType' object has no attribute 'groupdict'")
  | Some m =>
      let? total := uptime_loop 0%float (groupdict uptime_pattern m) in
      int_of_float total
  end.
Proof. unfold _format_uptime. rewrite uptime_regex_compiles. reflexivity. Qed.

Lemma starts_with_append (p r : string) : Str.starts_with p (p ++ r) = true.
Proof.
  induction p as [|c p IH]; [reflexivity|]. unapp. simpl.
  now rewrite Ascii.eqb_refl, IH.
Qed.

Lemma contains_append (p a r : string) : Str.contains p (a ++ p ++ r) = true.
Proof.
  induction a as [|c a IH]; unapp.
  - destruct (p ++ r)%string eqn:E; simpl; rewrite <- ?E, starts_with_append; reflexivity.
  - simpl. rewrite IH. apply orb_true_r.
Qed.

(** A text the pattern matches holds [ seconds]. *)
Lemma uptime_match_seconds (s : string) :
  uptime_match s <> None -> Str.contains " seconds" s = true.
Proof.
  unfold uptime_match, re_match. intros Hm.
  assert (Hh : match_here false false (p_re uptime_pattern) s <> None).
  { destruct (match_here false false (p_re uptime_pattern) s); congruence. }
  apply match_here_iff in Hh as [rest Hr]. cbn [p_re uptime_pattern] in Hr.
  inversion Hr as [| | | | | | |r1 r2 s0 m1 rest0 Hd Hr1]; subst; clear Hr.
  inversion Hr1 as [| | | | | | |r1 r2 s0 m2 rest0 Hh Hr2]; subst; clear Hr1.
  inversion Hr2 as [| | | | | | |r1 r2 s0 m3 rest0 Hmi Hr3]; subst; clear Hr2.
  inversion Hr3 as [| | | | | | |r1 r2 s0 m4 rest0 Hs Hr4]; subst; clear Hr3.
  apply matches_suffix in Hd as [p1 ->]. apply matches_suffix in Hh as [p2 ->].
  apply matches_suffix in Hmi as [p3 ->]. apply matches_suffix in Hs as [p4 ->].
  repeat match goal with
         | H : matches _ (RCat _ _) _ _ |- _ => inversion H; subst; clear H
         | H : matches _ (RAtom _) _ _ |- _ => inversion H; subst; clear H
         | H : matches _ REmpty _ _ |- _ => inversion H; subst; clear H
         end.
  repeat match goal with
         | H : atom_matches (ALit _) _ = true |- _ =>
             cbn [atom_matches] in H; apply Ascii.eqb_eq in H; subst
         end.
  rewrite <- !append_assoc.
  apply (contains_append " seconds" (((p1 ++ p2) ++ p3) ++ p4) rest).
Qed.

Lemma digit_not_space c : Str.is_digit c = true -> Str.is_space c = false.
Proof.
  unfold Str.is_digit, Str.is_space. intros H.
  apply andb_true_iff in H as [H1 H2]. apply N.leb_le in H1, H2.
  repeat (apply orb_false_iff; split);
    try (apply andb_false_iff; (left; apply N.leb_gt; lia) || (right; apply N.leb_gt; lia));
    apply N.eqb_neq; lia.
Qed.

Lemma strip_solid (s : string) :
  Str.all (fun c => negb (Str.is_space c)) s = true -> Str.strip s = s.
Proof.
  intros Hs. unfold Str.strip.
  assert (Hr : Str.rstrip s = s).
  { induction s as [|c s IH]; [reflexivity|]. simpl in Hs.
    apply andb_true_iff in Hs as [Hc Hs]. simpl. rewrite (IH Hs).
    destruct s; [|reflexivity]. apply negb_true_iff in Hc. now rewrite Hc. }
  rewrite Hr. destruct s as [|c s]; [reflexivity|]. simpl in Hs.
  apply andb_true_iff in Hs as [Hc _]. apply negb_true_iff in Hc.
  simpl. now rewrite Hc.
Qed.

Lemma digits_solid (s : string) :
  Str.all Str.is_digit s = true -> Str.all (fun c => negb (Str.is_space c)) s = true.
Proof.
  induction s as [|c s IH]; [reflexivity|]. simpl. intros H.
  apply andb_true_iff in H as [Hc Hs].
  now rewrite (digit_not_space c Hc), (IH Hs).
Qed.

Lemma digits_value_decimal (s : string) :
  Str.all Str.is_digit s = true ->
  forall a, digits_value (Some a) false s = Some (decimal a s).
Proof.
  induction s as [|c s IH]; intros Hs a; [reflexivity|]. simpl in Hs.
  apply andb_true_iff in Hs as [Hc Hs]. simpl. rewrite Hc. apply (IH Hs).
Qed.

Lemma digit_not_sign c r :
  Str.is_digit c = true ->
  match String c r with
  | String "-" t => (true, t)
  | String "+" t => (false, t)
  | _ => (false, String c r)
  end = (false, String c r).
Proof.
  intros Hc. destruct c as [b0 b1 b2 b3 b4 b5 b6 b7].
  destruct b0, b1, b2, b3, b4, b5, b6, b7; try reflexivity; discriminate.
Qed.

(** [int] of a run of digits is its decimal value. *)
Lemma py_int_number (s : string) :
  is_number s -> py_int (Some s) = ok (decimal 0 s).
Proof.
  intros [Hne Hs]. unfold py_int, int_of_str.
  rewrite (strip_solid s (digits_solid s Hs)).
  destruct s as [|c s]; [congruence|]. simpl in Hs.
  apply andb_true_iff in Hs as [Hc Hs].
  rewrite (digit_not_sign c s Hc). simpl. rewrite Hc.
  rewrite (digits_value_decimal s Hs). reflexivity.
Qed.

Lemma decimal_nonneg (s : string) : forall a, (0 <= a -> 0 <= decimal a s)%Z.
Proof.
  induction s as [|c s IH]; intros a Ha; simpl; [exact Ha|].
  apply IH. lia.
Qed.

Lemma consumed_append (a b : string) : Str.consumed (a ++ b) b = a.
Proof.
  unfold Str.consumed. rewrite length_append.
  replace (String.length a + String.length b - String.length b)%nat
    with (String.length a) by lia.
  induction a as [|c a IH]; unapp; simpl.
  - destruct b; reflexivity.
  - now rewrite IH.
Qed.

(** A run of digits followed by a character that is no digit: the greedy
    repetition takes the whole run first. *)
Lemma rep_digits_run {R} (ds : string) (c : ascii) (rest : string)
      (k : string -> option R) (x : R) :
  is_number ds -> Str.is_digit c = false ->
  k (String c rest) = Some x ->
  rep_m (atom_matches (ACat CatDigit)) 1 (ds ++ String c rest) k = Some x.
Proof.
  intros [Hne Hs] Hc Hk.
  assert (Hgen : forall min, (min <= String.length ds)%nat ->
            rep_m (atom_matches (ACat CatDigit)) min (ds ++ String c rest) k = Some x).
  { clear Hne. induction ds as [|a ds IH]; intros min Hmin; unapp.
    - simpl in Hmin. assert (min = O) as -> by lia.
      cbn [rep_m atom_matches in_category]. rewrite Hc. exact Hk.
    - simpl in Hs. apply andb_true_iff in Hs as [Ha Hs].
      cbn [rep_m atom_matches in_category]. rewrite Ha.
      rewrite (IH Hs (Nat.pred min)); [reflexivity|]. simpl in Hmin. lia. }
  apply Hgen. destruct ds; [congruence | simpl; lia].
Qed.

(** The four groups of a full duration. *)
Lemma uptime_match_duration (d h m s : string) :
  is_number d -> is_number h -> is_number m -> is_number s ->
  exists mo,
    uptime_match (duration d h m s) = Some mo
    /\ groupdict uptime_pattern mo =
       [("days", Some d); ("hours", Some h); ("minutes", Some m); ("seconds", Some s)].
Proof.
  intros Hd Hh Hm Hs.
  set (t3 := (s ++ " seconds")%string).
  set (t2 := (m ++ " minutes " ++ t3)%string).
  set (t1 := (h ++ " hours " ++ t2)%string).
  assert (Hhere :
    match_here false false (p_re uptime_pattern) (duration d h m s)
    = Some (""%string,
            [(4%nat, Str.consumed t3 " seconds");
             (3%nat, Str.consumed t2 (" minutes " ++ t3));
             (2%nat, Str.consumed t1 (" hours " ++ t2));
             (1%nat, Str.consumed (d ++ " days " ++ t1) (" days " ++ t1))])).
  { unfold match_here, duration. fold t3 t2 t1. cbn [p_re uptime_pattern re_m].
    unapp.
    rewrite (rep_digits_run d " " ("days " ++ t1) _
               (""%string, [(4%nat, Str.consumed t3 " seconds");
                  (3%nat, Str.consumed t2 (String " " ("minutes " ++ t3)));
                  (2%nat, Str.consumed t1 (String " " ("hours " ++ t2)));
                  (1%nat, Str.consumed (d ++ String " " ("days " ++ t1))
                                       (String " " ("days " ++ t1)))]));
      [reflexivity | exact Hd | reflexivity |].
    unapp. cbn [atom_matches Ascii.eqb Bool.eqb]. unfold t1 at 1.
    rewrite (rep_digits_run h " " ("hours " ++ t2) _
               (""%string, [(4%nat, Str.consumed t3 " seconds");
                  (3%nat, Str.consumed t2 (String " " ("minutes " ++ t3)));
                  (2%nat, Str.consumed t1 (String " " ("hours " ++ t2)));
                  (1%nat, Str.consumed (d ++ String " " ("days " ++ t1))
                                       (String " " ("days " ++ t1)))]));
      [reflexivity | exact Hh | reflexivity |].
    unapp. cbn [atom_matches Ascii.eqb Bool.eqb]. unfold t2 at 1.
    rewrite (rep_digits_run m " " ("minutes " ++ t3) _
               (""%string, [(4%nat, Str.consumed t3 " seconds");
                  (3%nat, Str.consumed t2 (String " " ("minutes " ++ t3)));
                  (2%nat, Str.consumed t1 (String " " ("hours " ++ t2)));
                  (1%nat, Str.consumed (d ++ String " " ("days " ++ t1))
                                       (String " " ("days " ++ t1)))]));
      [reflexivity | exact Hm | reflexivity |].
    unapp. cbn [atom_matches Ascii.eqb Bool.eqb]. unfold t3 at 1.
    rewrite (rep_digits_run s " " "seconds" _
               (""%string, [(4%nat, Str.consumed t3 " seconds");
                  (3%nat, Str.consumed t2 (String " " ("minutes " ++ t3)));
                  (2%nat, Str.consumed t1 (String " " ("hours " ++ t2)));
                  (1%nat, Str.consumed (d ++ String " " ("days " ++ t1))
                                       (String " " ("days " ++ t1)))]));
      [reflexivity | exact Hs | reflexivity |].
    reflexivity. }
  eexists. split.
  - unfold uptime_match, re_match. rewrite Hhere. reflexivity.
  - unfold groupdict. cbn [p_names uptime_pattern map m_caps cap_lookup Nat.eqb].
    unfold t1, t2, t3. rewrite !consumed_append. reflexivity.
Qed.

End UptimeFacts.

(** C1, as the code has it.  For a duration with all four groups,
    ["<d> days <h> hours <m> minutes <s> seconds"], whose total is below
    [2^53], [_format_uptime] returns exactly
    [d*86400 + h*3600 + m*60 + s]. *)
Theorem format_uptime_full_duration :
  forall d h m s : string,
    is_number d -> is_number h -> is_number m -> is_number s ->
    (decimal 0 d * 86400 + decimal 0 h * 3600 + decimal 0 m * 60 + decimal 0 s < 2 ^ 53)%Z ->
    _format_uptime (duration d h m s)
    = ok (decimal 0 d * 86400 + decimal 0 h * 3600 + decimal 0 m * 60 + decimal 0 s)%Z.
Proof.
  intros d h m s Hd Hh Hm Hs Hlt.
  assert (H0d := UptimeFacts.decimal_nonneg d 0 ltac:(lia)).
  assert (H0h := UptimeFacts.decimal_nonneg h 0 ltac:(lia)).
  assert (H0m := UptimeFacts.decimal_nonneg m 0 ltac:(lia)).
  assert (H0s := UptimeFacts.decimal_nonneg s 0 ltac:(lia)).
  rewrite UptimeFacts.format_uptime_unfold.
  destruct (UptimeFacts.uptime_match_duration d h m s Hd Hh Hm Hs) as (mo & -> & ->).
  change 0%float with (SF2Prim (canon 0)).
  cbn [uptime_loop uptime_step String.eqb Ascii.eqb Bool.eqb].
  rewrite !UptimeFacts.py_int_number by assumption.
  cbn [rbind ok].
  rewrite FloatFacts.float_add_int_exact by lia. cbn [rbind ok].
  rewrite FloatFacts.float_add_int_exact by lia. cbn [rbind ok].
  rewrite FloatFacts.float_add_int_exact by lia. cbn [rbind ok].
  rewrite FloatFacts.float_add_int_exact by lia. cbn [rbind ok].
  rewrite FloatFacts.int_of_float_exact by lia.
  reflexivity.
Qed.

(** The example of the specification: 9 days 6 hours 17 minutes 25 seconds
    are 800245 seconds. *)
Lemma format_uptime_full_duration_witness :
  _format_uptime (duration "9" "6" "17" "25") = ok 800245%Z.
Proof.
  apply (format_uptime_full_duration "9" "6" "17" "25").
  - split; [discriminate | reflexivity].
  - split; [discriminate | reflexivity].
  - split; [discriminate | reflexivity].
  - split; [discriminate | reflexivity].
  - vm_compute. reflexivity.
Defined.

(** C1 as stated fails on both of its examples: the first duration is
    800245 seconds, not 799045, and a duration without the groups for days,
    hours and minutes raises [TypeError], [int] being applied to the [None]
    of a group that took no part in the match. *)
Lemma format_uptime_examples_fail :
  _format_uptime "9 days 6 hours 17 minutes 25 seconds" = ok 800245%Z
  /\ _format_uptime "9 days 6 hours 17 minutes 25 seconds" <> ok 799045%Z
  /\ _format_uptime "45 seconds"
     = raise (TypeError "int() argument must be a string, a bytes-like object or a real number, not 'NoneType'")
  /\ _format_uptime "45 seconds" <> ok 45%Z.
Proof.
  assert (H1 : _format_uptime "9 days 6 hours 17 minutes 25 seconds" = ok 800245%Z)
    by (vm_compute; reflexivity).
  assert (H2 : _format_uptime "45 seconds"
     = raise (TypeError "int() argument must be a string, a bytes-like object or a real number, not 'NoneType'"))
    by (vm_compute; reflexivity).
  repeat split; try assumption.
  - rewrite H1. discriminate.
  - rewrite H2. discriminate.
Qed.

(** C4, as the code has it.  When the duration pattern does not match,
    as on every text without [ seconds], [_format_uptime] raises
    [AttributeError] (the match is [None]); it does not return zero. *)
Theorem format_uptime_no_match :
  (forall s : string,
      uptime_match s = None ->
      _format_uptime s
      = raise (AttributeError "'NoneType' object has no attribute 'groupdict'"))
  /\ (forall s : string,
      Str.contains " seconds" s = false -> uptime_match s = None).
Proof.
  split.
  - intros s Hm. rewrite UptimeFacts.format_uptime_unfold, Hm. reflexivity.
  - intros s Hs. destruct (uptime_match s) eqn:Em; [|reflexivity].
    assert (Hc : Str.contains " seconds" s = true).
    { apply UptimeFacts.uptime_match_seconds. congruence. }
    congruence.
Qed.

Lemma format_uptime_no_match_witness :
  _format_uptime "17 minutes"
  = raise (AttributeError "'NoneType' object has no attribute 'groupdict'").
Proof.
  apply (proj1 format_uptime_no_match "17 minutes").
  apply (proj2 format_uptime_no_match "17 minutes").
  reflexivity.
Defined.

(** C4 as stated fails: a text without the seconds group does not yield
    zero. *)
Lemma format_uptime_not_zero :
  Str.contains " seconds" "17 minutes" = false
  /\ _format_uptime "17 minutes" <> ok 0%Z.
Proof.
  split; [reflexivity|].
  assert (H : _format_uptime "17 minutes"
              = raise (AttributeError "'NoneType' object has no attribute 'groupdict'"))
    by (vm_compute; reflexivity).
  rewrite H. discriminate.
Qed.

(** ** [get_environment]: the temperature records *)

Section Temperature.
Context `{Netmiko} `{PyFloat}.

Lemma temperature_step_ok temps entry temps' :
  temperature_step temps entry = ok temps' ->
  exists key value lo hi,
    field entry "temp_name" = ok key
    /\ temperature_reading entry value lo hi
    /\ temps' = <[key := TemperatureDict value (alert_flag value lo hi)
                                         (critical_flag value lo hi)]> temps.
Proof.
  unfold temperature_step, temperature_reading, rbind. intros Hs.
  destruct (field entry "temp_name") as [e|key]; [discriminate|].
  destruct (field entry "temp_value") as [e|v]; [discriminate|].
  destruct (float_of_str v) as [e|value]; [discriminate|].
  destruct (field entry "temp_threshold_low") as [e|l]; [discriminate|].
  destruct (float_of_str l) as [e|lo]; [discriminate|].
  destruct (field entry "temp_threshold_high") as [e|h]; [discriminate|].
  destruct (float_of_str h) as [e|hi]; [discriminate|].
  injection Hs as <-. exists key, value, lo, hi. repeat split; reflexivity.
Qed.

(** The loop over the temperature records: every key of the result that
    was not there before comes from a record of that name, with the flags
    computed from its reading; and every record leaves a key. *)
Lemma temperature_loop_spec (rs : list (gmap string string)) :
  forall acc temps,
    for_each temperature_step acc rs = ok temps ->
    (forall key t, temps !! key = Some t ->
       acc !! key = Some t
       \/ exists entry value lo hi,
            In entry rs /\ field entry "temp_name" = ok key
            /\ temperature_reading entry value lo hi
            /\ t = TemperatureDict value (alert_flag value lo hi)
                                   (critical_flag value lo hi))
    /\ (forall entry, In entry rs ->
          exists key, field entry "temp_name" = ok key /\ is_Some (temps !! key))
    /\ (forall key, is_Some (acc !! key) -> is_Some (temps !! key)).
Proof.
  induction rs as [|entry rs IH]; intros acc temps Hloop.
  - injection Hloop as <-. repeat split; [auto | intros e [] | auto].
  - cbn [for_each] in Hloop. unfold rbind at 1 in Hloop.
    destruct (temperature_step acc entry) as [e|acc'] eqn:Es; [discriminate|].
    destruct (temperature_step_ok _ _ _ Es) as (key0 & value & lo & hi & Hk & Hr & ->).
    destruct (IH _ _ Hloop) as (Hkeys & Hall & Hmono).
    repeat split.
    + intros key t Ht. destruct (Hkeys key t Ht) as [Hacc|Hnew].
      * destruct (decide (key0 = key)) as [<-|Hne].
        -- rewrite lookup_insert_eq in Hacc. injection Hacc as <-.
           right. exists entry, value, lo, hi.
           split; [now left|]. split; [exact Hk|]. split; [exact Hr | reflexivity].
        -- rewrite lookup_insert_ne in Hacc by exact Hne. now left.
      * destruct Hnew as (e' & v' & l' & h' & Hin & Hrest).
        right. exists e', v', l', h'. split; [now right | exact Hrest].
    + intros e' [<-|Hin].
      * exists key0. split; [exact Hk|]. apply Hmono.
        rewrite lookup_insert_eq. eauto.
      * apply (Hall e' Hin).
    + intros key Hsome. apply Hmono.
      destruct (decide (key0 = key)) as [<-|Hne].
      * rewrite lookup_insert_eq. eauto.
      * now rewrite lookup_insert_ne by exact Hne.
Qed.

Lemma environment_of_temperature cpuload memory fan temp power env :
  environment_of cpuload memory fan temp power = ok env ->
  exists rs, entries temp = ok rs
             /\ for_each temperature_step ∅ rs = ok (env_temperature env).
Proof.
  unfold environment_of, rbind. intros He.
  repeat match type of He with
         | match ?x with inl _ => _ | inr _ => _ end = _ =>
             let E := fresh "E" in destruct x eqn:E; [discriminate|]
         end.
  injection He as <-. eexists. split; [reflexivity|].
  cbn [env_temperature]. eassumption.
Qed.

Lemma get_environment_temperature (d : driver) env d' :
  get_environment d = (ok env, d') ->
  exists temp d3 d4 rs,
    _send_command (Single "show status temp") true d3 = (ok temp, d4)
    /\ entries temp = ok rs
    /\ for_each temperature_step ∅ rs = ok (env_temperature env).
Proof.
  unfold get_environment, bind, lift. intros Hg.
  destruct (_enable d) as [[e|[]] d0]; [discriminate|].
  destruct (_send_command (Single "show cpuload") true d0) as [[e|cpuload] d1];
    [discriminate|].
  destruct (_send_command (Single "show memory") true d1) as [[e|memory] d2];
    [discriminate|].
  destruct (_send_command (Single "show status fan") true d2) as [[e|fan] d3];
    [discriminate|].
  destruct (_send_command (Single "show status temp") true d3) as [[e|temp] d4] eqn:Et;
    [discriminate|].
  destruct (_send_command (Single "show status power") true d4) as [[e|power] d5];
    [discriminate|].
  injection Hg as Henv _.
  destruct (environment_of_temperature _ _ _ _ _ _ Henv) as (rs & Hrs & Hloop).
  exists temp, d3, d4, rs. auto.
Qed.

(** C2.  When [get_environment] returns, the records [rs] of the answer to
    [show status temp] and the temperature entries of the result correspond:
    every record leaves an entry under its name, and every entry comes from
    a record of that name with value [v] and thresholds [low], [high], its
    [is_critical] being true iff [v < low] or [v > high], its [is_alert]
    iff [v < low + low*0.10] or [v > high - high*0.10], in binary64
    arithmetic.  With [low = 10] and [high = 90]: 9 is critical; 89.5 is
    not critical and is an alert; 50 is neither. *)
Theorem temperature_flags :
  forall (d : driver) env d',
    get_environment d = (ok env, d') ->
    (exists temp d3 d4 rs,
        _send_command (Single "show status temp") true d3 = (ok temp, d4)
        /\ entries temp = ok rs
        /\ (forall entry, In entry rs ->
              exists key, field entry "temp_name" = ok key
                          /\ is_Some (env_temperature env !! key))
        /\ (forall key t, env_temperature env !! key = Some t ->
              exists entry v low high,
                In entry rs /\ field entry "temp_name" = ok key
                /\ temperature_reading entry v low high
                /\ temperature t = v
                /\ (is_critical t = true <->
                    (v <? low)%float = true \/ (high <? v)%float = true)
                /\ (is_alert t = true <->
                    (v <? low + low * tenth)%float = true
                    \/ (high - high * tenth <? v)%float = true)))
    /\ critical_flag 9 10 90 = true
    /\ critical_flag 89.5 10 90 = false /\ alert_flag 89.5 10 90 = true
    /\ critical_flag 50 10 90 = false /\ alert_flag 50 10 90 = false.
Proof.
  intros d env d' Hg. split; [|repeat split; vm_compute; reflexivity].
  destruct (get_environment_temperature d env d' Hg) as (temp & d3 & d4 & rs & Hs & Hrs & Hloop).
  destruct (temperature_loop_spec rs _ _ Hloop) as (Hkeys & Hall & _).
  exists temp, d3, d4, rs. repeat split; [exact Hs | exact Hrs | exact Hall | ].
  intros key t Ht. destruct (Hkeys key t Ht) as [Hempty|Hnew].
  - rewrite lookup_empty in Hempty. discriminate.
  - destruct Hnew as (entry & v & lo & hi & Hin & Hk & Hr & ->).
    exists entry, v, lo, hi.
    split; [exact Hin|]. split; [exact Hk|]. split; [exact Hr|].
    split; [reflexivity|]. cbn [is_critical is_alert].
    unfold critical_flag, alert_flag. split; apply orb_true_iff.
Qed.

End Temperature.

(** C2 on the sample session, whose inlet sensor reads 89.5 between the
    thresholds 10 and 90. *)
Lemma temperature_flags_witness :
  exists env d',
    @get_environment Sample.session Sample.floats Sample.fresh = (ok env, d')
    /\ (option_map is_critical (env_temperature env !! "inlet") = Some false)
    /\ (option_map is_alert (env_temperature env !! "inlet") = Some true)
    /\ critical_flag 9 10 90 = true.
Proof.
  destruct (@get_environment Sample.session Sample.floats Sample.fresh)
    as [[e|env] d'] eqn:Hg; [vm_compute in Hg; discriminate|].
  exists env, d'. split; [reflexivity|].
  pose proof (@temperature_flags Sample.session Sample.floats Sample.fresh env d' Hg)
    as [_ (Hc & _)].
  assert (Henv : fst (@get_environment Sample.session Sample.floats Sample.fresh) = ok env)
    by (rewrite Hg; reflexivity).
  vm_compute in Henv. injection Henv as <-.
  split; [vm_compute; reflexivity|]. split; [vm_compute; reflexivity | exact Hc].
Defined.

(** ** Sanitizing twice *)

Module RedactionFacts.
Import Re ReFacts Redaction.

Lemma first_some_app {A B} (f : A -> option B) l1 l2 :
  first_some f (l1 ++ l2) =
  match first_some f l1 with Some y => Some y | None => first_some f l2 end.
Proof.
  induction l1 as [|x l1 IH]; simpl; [reflexivity|].
  destruct (f x); [reflexivity | exact IH].
Qed.

Lemma first_some_ext {A B} (f g : A -> option B) l :
  (forall x, f x = g x) -> first_some f l = first_some g l.
Proof. intros E. induction l as [|x l IH]; simpl; [reflexivity|]. now rewrite E, IH. Qed.

Lemma first_some_map {A B C} (f : B -> option C) (g : A -> B) l :
  first_some f (map g l) = first_some (fun x => f (g x)) l.
Proof. induction l as [|x l IH]; simpl; [reflexivity|]. now rewrite IH. Qed.

Lemma first_some_flat_map {A B C} (f : B -> option C) (g : A -> list B) l :
  first_some f (flat_map g l) = first_some (fun x => first_some f (g x)) l.
Proof.
  induction l as [|x l IH]; simpl; [reflexivity|].
  rewrite first_some_app, IH. reflexivity.
Qed.

Lemma first_some_single {A B} (f : A -> option B) x : first_some f [x] = f x.
Proof. simpl. destruct (f x); reflexivity. Qed.

Lemma rep_m_runs {R} p min s (k : string -> option R) :
  rep_m p min s k = first_some k (rep_runs p min s).
Proof.
  revert min. induction s as [|c s IH]; intros min.
  - destruct min; [exact (eq_sym (first_some_single k "")) | reflexivity].
  - cbn [rep_m rep_runs]. rewrite first_some_app.
    assert (Hstop : match min with O => k (String c s) | S _ => None end
                    = first_some k match min with O => [String c s] | S _ => [] end).
    { destruct min; [exact (eq_sym (first_some_single k (String c s))) | reflexivity]. }
    destruct (p c).
    + rewrite IH. destruct (first_some k (rep_runs p (Nat.pred min) s)); [reflexivity|].
      exact Hstop.
    + exact Hstop.
Qed.

(** The engine returns the first match the continuation accepts. *)
Lemma re_m_runs {R} ml (r : re) :
  forall s cs (k : string -> caps -> option R),
    re_m ml r s cs k = first_some (fun y => k y.1 y.2) (runs ml r s cs).
Proof.
  induction r as [|a|a min|r IH| |i r IH|r1 IH1 r2 IH2]; intros s cs k; cbn [re_m runs].
  - now rewrite first_some_single.
  - destruct s as [|c s]; [reflexivity|].
    destruct (atom_matches a c); [|reflexivity]. now rewrite first_some_single.
  - rewrite rep_m_runs, first_some_map. reflexivity.
  - rewrite first_some_app, IH, first_some_single. reflexivity.
  - destruct (at_end ml s); [|reflexivity]. now rewrite first_some_single.
  - rewrite IH, first_some_map. reflexivity.
  - rewrite IH1, first_some_flat_map. apply first_some_ext. intros y. apply IH2.
Qed.

Lemma rep_runs_sound p z : forall s min,
  In z (rep_runs p min s) ->
  exists pre, s = pre ++ z /\ Str.all p pre = true /\ (min <= String.length pre)%nat.
Proof.
  induction s as [|c s IH]; intros min Hin.
  - destruct min; [|contradiction]. destruct Hin as [<-|[]].
    exists "". repeat split. simpl. lia.
  - cbn [rep_runs] in Hin. apply in_app_or in Hin as [Hin|Hin].
    + destruct (p c) eqn:Ec; [|contradiction].
      destruct (IH _ Hin) as (pre & -> & Hall & Hlen).
      exists (String c pre). unapp. simpl. rewrite Ec, Hall. repeat split. lia.
    + destruct min; [|contradiction]. destruct Hin as [<-|[]].
      exists "". repeat split. simpl. lia.
Qed.

Lemma runs_sound ml (r : re) : forall s cs y,
  In y (runs ml r s cs) -> matches ml r s y.1.
Proof.
  induction r as [|a|a min|r IH| |i r IH|r1 IH1 r2 IH2]; intros s cs y Hin; cbn [runs] in Hin.
  - destruct Hin as [<-|[]]. constructor.
  - destruct s as [|c s]; [contradiction|].
    destruct (atom_matches a c) eqn:Ea; [|contradiction].
    destruct Hin as [<-|[]]. now constructor.
  - apply in_map_iff in Hin as (z & <- & Hz).
    apply rep_runs_sound in Hz as (pre & -> & Hall & Hlen). now constructor.
  - apply in_app_or in Hin as [Hin|[<-|[]]].
    + apply MOptSome. exact (IH _ _ _ Hin).
    + apply MOptNone.
  - destruct (at_end ml s) eqn:Ee; [|contradiction].
    destruct Hin as [<-|[]]. now constructor.
  - apply in_map_iff in Hin as (z & <- & Hz). cbn [fst]. constructor.
    exact (IH _ _ _ Hz).
  - apply in_flat_map in Hin as (z & Hz & Hy).
    econstructor; [exact (IH1 _ _ _ Hz) | exact (IH2 _ _ _ Hy)].
Qed.

Lemma runs_length ml r s cs y :
  In y (runs ml r s cs) -> (String.length y.1 <= String.length s)%nat.
Proof.
  intros Hin. apply runs_sound in Hin. apply matches_suffix in Hin as [pre ->].
  rewrite length_append. lia.
Qed.

Lemma filter_flat_map {A B} (f : B -> bool) (g : A -> list B) l :
  List.filter f (flat_map g l) = flat_map (fun a => List.filter f (g a)) l.
Proof.
  induction l as [|a l IH]; simpl; [reflexivity|].
  now rewrite List.filter_app, IH.
Qed.

Lemma filter_none {A} (f : A -> bool) l :
  (forall a, In a l -> f a = false) -> List.filter f l = [].
Proof.
  induction l as [|a l IH]; intros Hf; simpl; [reflexivity|].
  rewrite (Hf a) by now left. apply IH. intros b Hb. apply Hf. now right.
Qed.

Lemma filter_all {A} (f : A -> bool) l :
  (forall a, In a l -> f a = true) -> List.filter f l = l.
Proof.
  induction l as [|a l IH]; intros Hf; simpl; [reflexivity|].
  rewrite (Hf a) by now left. f_equal. apply IH. intros b Hb. apply Hf. now right.
Qed.

Lemma flat_map_filter {A B} (f : A -> bool) (g : A -> list B) l :
  (forall a, f a = false -> g a = []) ->
  flat_map g l = flat_map g (List.filter f l).
Proof.
  intros Hg. induction l as [|a l IH]; simpl; [reflexivity|].
  destruct (f a) eqn:Ef; simpl; rewrite IH; [reflexivity|].
  now rewrite (Hg a Ef).
Qed.

Lemma rep_runs_frame p x : forall u min,
  List.filter (fun z => (String.length x <=? String.length z)%nat)
              (rep_runs p min (u ++ x))
  = map (fun z => z ++ x) (rep_runs p min u).
Proof.
  induction u as [|c u IH]; intros min; unapp.
  - (* nothing of [u] left: only the empty repetition stays within *)
    assert (Hstop : forall s : string, s = x ->
              List.filter (fun z => (String.length x <=? String.length z)%nat)
                          match min with O => [s] | S _ => [] end
              = map (fun z => z ++ x) match min with O => [""] | S _ => [] end).
    { intros s ->. destruct min; [|reflexivity]. simpl. now rewrite Nat.leb_refl. }
    destruct x as [|c x]; [apply (Hstop "" eq_refl)|].
    cbn [rep_runs]. rewrite List.filter_app, (Hstop (String c x) eq_refl).
    rewrite filter_none; [reflexivity|].
    intros z Hz. destruct (p c); [|contradiction].
    apply rep_runs_sound in Hz as (pre & E & _).
    apply Nat.leb_gt. apply (f_equal String.length) in E.
    rewrite length_append in E. simpl. lia.
  - cbn [rep_runs]. rewrite List.filter_app, map_app. f_equal.
    + destruct (p c); [apply IH | reflexivity].
    + destruct min; [|reflexivity]. simpl.
      rewrite length_append.
      replace (String.length x <=? S (String.length u + String.length x))%nat with true
        by (symmetry; apply Nat.leb_le; lia).
      reflexivity.
Qed.

Lemma consumed_frame (u u2 x : string) :
  (String.length u2 <= String.length u)%nat ->
  Str.consumed (u ++ x) (u2 ++ x) = Str.consumed u u2.
Proof.
  intros Hle. unfold Str.consumed. rewrite !length_append.
  replace (String.length u + String.length x - (String.length u2 + String.length x))%nat
    with (String.length u - String.length u2)%nat by lia.
  assert (Hn : (String.length u - String.length u2 <= String.length u)%nat) by lia.
  revert Hn. generalize (String.length u - String.length u2)%nat as n. clear.
  induction u as [|c u IH]; intros n Hn; unapp.
  - simpl in Hn. assert (n = O) as -> by lia. destruct x; reflexivity.
  - destruct n; [reflexivity|]. simpl. rewrite IH; [reflexivity | simpl in Hn; lia].
Qed.

Lemma filter_map_comm {A B} (f : B -> bool) (g : A -> B) l :
  List.filter f (map g l) = map g (List.filter (fun a => f (g a)) l).
Proof.
  induction l as [|a l IH]; [reflexivity|]. cbn [map List.filter].
  destruct (f (g a)); cbn [map]; now rewrite IH.
Qed.

Lemma within_app u x cs : within x ((u ++ x)%string, cs) = true.
Proof. unfold within. cbn [fst]. rewrite length_append. apply Nat.leb_le. lia. Qed.

Lemma within_short x z cs :
  (String.length z < String.length x)%nat -> within x (z, cs) = false.
Proof. intros Hlt. unfold within. cbn [fst]. now apply Nat.leb_gt. Qed.

(** The matches of a pattern without anchors that stay within the first
    part [u] of a text [u ++ x] are the matches on [u] alone, in the same
    order, whatever [x] is. *)
Lemma runs_frame ml (r : re) x :
  anchor_free r = true ->
  forall u cs,
    List.filter (within x) (runs ml r (u ++ x) cs)
    = map (fun y => ((y.1 ++ x)%string, y.2)) (runs ml r u cs).
Proof.
  induction r as [|a|a min|r IH| |i r IH|r1 IH1 r2 IH2]; intros Haf u cs;
    cbn [runs anchor_free] in *.
  - cbn [List.filter map fst snd]. now rewrite within_app.
  - destruct u as [|c u]; unapp.
    + destruct x as [|c x]; [reflexivity|].
      destruct (atom_matches a c); [|reflexivity]. cbn [List.filter map].
      rewrite within_short; [reflexivity | simpl; lia].
    + destruct (atom_matches a c); [|reflexivity]. cbn [List.filter map fst snd].
      now rewrite within_app.
  - rewrite map_map. cbn [fst snd].
    rewrite <- (map_map (fun z => (z ++ x)%string) (fun z => (z, cs))).
    rewrite <- (rep_runs_frame (atom_matches a) x u min).
    generalize (rep_runs (atom_matches a) min (u ++ x)). intros l.
    induction l as [|z l IHl]; [reflexivity|].
    cbn [map List.filter]. unfold within at 1. cbn [fst].
    destruct (String.length x <=? String.length z)%nat; cbn [map]; now rewrite IHl.
  - rewrite List.filter_app, map_app, (IH Haf). f_equal.
    cbn [List.filter map fst snd]. now rewrite within_app.
  - discriminate.
  - rewrite filter_map_comm.
    rewrite (List.filter_ext _ (within x)) by reflexivity.
    rewrite (IH Haf), !map_map. cbn [fst snd].
    apply map_ext_in. intros y Hy.
    rewrite consumed_frame; [reflexivity|]. now apply runs_length in Hy.
  - apply andb_true_iff in Haf as [Haf1 Haf2].
    rewrite filter_flat_map.
    rewrite (flat_map_filter (within x)).
    2:{ intros y Hy. apply filter_none. intros z Hz.
        apply runs_length in Hz. unfold within in *.
        apply Nat.leb_gt in Hy. apply Nat.leb_gt. lia. }
    rewrite (IH1 Haf1). rewrite flat_map_concat_map, map_map, <- flat_map_concat_map.
    cbn [fst snd].
    rewrite (flat_map_ext _ (fun y => map (fun z => ((z.1 ++ x)%string, z.2)) (runs ml r2 y.1 y.2))).
    2:{ intros y. apply (IH2 Haf2). }
    generalize (runs ml r1 u cs). intros l.
    induction l as [|y l IHl]; [reflexivity|].
    cbn [flat_map map]. now rewrite map_app, IHl.
Qed.

(** Strings *)

Lemma all_last p (s : string) :
  Str.all p s = true -> s <> "" ->
  exists w c, s = w ++ String c "" /\ p c = true.
Proof.
  induction s as [|c s IH]; intros Hall Hne; [congruence|].
  simpl in Hall. apply andb_true_iff in Hall as [Hc Hs].
  destruct s as [|d s].
  - exists "", c. split; [reflexivity | exact Hc].
  - destruct (IH Hs ltac:(discriminate)) as (w & e & E & He).
    exists (String c w), e. unapp. rewrite <- E. split; [reflexivity | exact He].
Qed.

Lemma suffix_of_suffix (a x b z : string) :
  a ++ x = b ++ z -> (String.length z <= String.length x)%nat ->
  exists p, x = p ++ z.
Proof.
  revert b. induction a as [|c a IH]; intros b E Hlen; unapp.
  - exists b. exact E.
  - destruct b as [|d b]; unapp.
    + apply (f_equal String.length) in E. simpl in E. rewrite length_append in E. lia.
    + injection E as _ E. exact (IH b E Hlen).
Qed.

Lemma append_inv_r (a b x : string) : a ++ x = b ++ x -> a = b.
Proof.
  revert b. induction a as [|c a IH]; intros b E; unapp.
  - destruct b as [|d b]; [reflexivity|]. unapp.
    apply (f_equal String.length) in E. simpl in E. rewrite length_append in E. lia.
  - destruct b as [|d b]; unapp.
    + apply (f_equal String.length) in E. simpl in E. rewrite length_append in E. lia.
    + injection E as -> E. f_equal. exact (IH b E).
Qed.

Lemma consumed_all (s : string) : Str.consumed s "" = s.
Proof. rewrite <- (append_nil_r s) at 1. apply UptimeFacts.consumed_append. Qed.

(** Matches that end in white space *)

Lemma ends_space_sound ml (r : re) :
  ends_space r = true ->
  forall s rest, matches ml r s rest ->
    exists w c, s = w ++ String c rest /\ Str.is_space c = true.
Proof.
  induction r as [|a|a min|r IH| |i r IH|r1 IH1 r2 IH2]; intros He s rest Hm;
    cbn [ends_space] in He; try discriminate.
  - destruct a as [| |k|]; try discriminate. destruct k; try discriminate.
    destruct min as [|min]; [discriminate|].
    inversion Hm as [ | |a' min' pre rest' Hall Hlen| | | | | ]; subst.
    destruct (all_last _ pre Hall) as (w & c & -> & Hc).
    { intros ->. simpl in Hlen. lia. }
    exists w, c. rewrite append_assoc. unapp. split; [reflexivity | exact Hc].
  - inversion Hm; subst. eauto.
  - inversion Hm as [ | | | | | | |? ? ? mid ? H1 H2]; subst.
    assert (Hcase : (r2 = REmpty /\ ends_space r1 = true) \/ ends_space r2 = true).
    { destruct r2; auto. }
    destruct Hcase as [[-> He1]|He2].
    + inversion H2; subst. exact (IH1 He1 _ _ H1).
    + destruct (IH2 He2 _ _ H2) as (w & c & -> & Hc).
      apply matches_suffix in H1 as [pre ->].
      exists (pre ++ w), c. rewrite append_assoc. split; [reflexivity | exact Hc].
Qed.

Section LineRule.
Variable P : re.
Hypothesis P_free : anchor_free P = true.
Hypothesis P_space : ends_space P = true.

(** A match of [P] does not end inside a text without white space. *)
Lemma runs_within_solid ml (w x : string) cs y :
  solid x = true -> In y (runs ml P (w ++ x) cs) -> within x y = true.
Proof.
  intros Hx Hy. apply runs_sound in Hy.
  destruct (ends_space_sound ml P P_space _ _ Hy) as (w' & c & E & Hc).
  unfold within. apply Nat.leb_le.
  destruct (Nat.le_gt_cases (String.length x) (String.length y.1)) as [|Hlt]; [assumption|].
  destruct (suffix_of_suffix w x w' (String c y.1) E) as [p ->]; [simpl; lia|].
  unfold solid in Hx. rewrite all_append in Hx. simpl in Hx.
  rewrite Hc in Hx. simpl in Hx. rewrite andb_false_r in Hx. discriminate.
Qed.

Lemma runs_solid ml (w x : string) cs :
  solid x = true ->
  runs ml P (w ++ x) cs = map (fun y => ((y.1 ++ x)%string, y.2)) (runs ml P w cs).
Proof.
  intros Hx. rewrite <- (runs_frame ml P x P_free).
  symmetry. apply filter_all. intros y Hy. eapply runs_within_solid; eassumption.
Qed.

Lemma runs_none_swap ml (w rest x : string) cs :
  solid x = true -> runs ml P (w ++ rest) cs = [] -> runs ml P (w ++ x) cs = [].
Proof.
  intros Hx Hnone. rewrite (runs_solid ml w x cs Hx).
  pose proof (runs_frame ml P rest P_free w cs) as Hf.
  rewrite Hnone in Hf. cbn [List.filter] in Hf.
  destruct (runs ml P w cs); [reflexivity | discriminate].
Qed.

Lemma runs_head_swap ml (g rest x : string) cs y l :
  solid x = true -> runs ml P (g ++ rest) cs = y :: l -> y.1 = rest ->
  exists y' l', runs ml P (g ++ x) cs = y' :: l' /\ y'.1 = x.
Proof.
  intros Hx Hrun Hy. rewrite (runs_solid ml g x cs Hx).
  pose proof (runs_frame ml P rest P_free g cs) as Hf.
  rewrite Hrun in Hf. cbn [List.filter] in Hf.
  assert (Hw : within rest y = true).
  { unfold within. rewrite Hy. apply Nat.leb_refl. }
  rewrite Hw in Hf.
  destruct (runs ml P g cs) as [|y0 l0]; [discriminate|].
  cbn [map] in Hf. injection Hf as Hy0 _.
  assert (E0 : y0.1 = "").
  { rewrite Hy0 in Hy. cbn [fst] in Hy.
    apply (append_inv_r y0.1 "" rest). exact Hy. }
  eexists _, _. split; [reflexivity|]. cbn [fst]. rewrite E0. reflexivity.
Qed.

Lemma runs_solid_none ml (x : string) cs : solid x = true -> runs ml P x cs = [].
Proof.
  intros Hx. destruct (runs ml P x cs) as [|y l] eqn:E; [reflexivity|].
  assert (Hy : In y (runs ml P x cs)) by (rewrite E; now left).
  apply runs_sound in Hy.
  destruct (ends_space_sound ml P P_space _ _ Hy) as (w' & c & E' & Hc).
  rewrite E' in Hx. unfold solid in Hx. rewrite all_append in Hx. simpl in Hx.
  rewrite Hc in Hx. simpl in Hx. rewrite andb_false_r in Hx. discriminate.
Qed.

(** The leftmost match *)

Lemma find_hit b s y l :
  runs true P s [] = y :: l -> find P b s = Some (b, Str.consumed s y.1, y.1).
Proof. destruct s; cbn [find]; intros ->; reflexivity. Qed.

Lemma find_shape : forall s b u g rest,
  find P b s = Some (u, g, rest) ->
  exists p, u = b ++ p /\ s = p ++ g ++ rest.
Proof.
  induction s as [|c s IH]; intros b u g rest Hf; cbn [find] in Hf.
  - destruct (runs true P "" []) as [|y l] eqn:E; [discriminate|].
    rewrite (runs_solid_none true "" [] eq_refl) in E. discriminate.
  - destruct (runs true P (String c s) []) as [|y l] eqn:E.
    + destruct (IH _ _ _ _ Hf) as (p & -> & ->).
      exists (String c p). rewrite append_assoc. split; reflexivity.
    + injection Hf as <- <- <-. exists "". rewrite append_nil_r. split; [reflexivity|].
      unapp.
      assert (Hy : In y (runs true P (String c s) [])) by (rewrite E; now left).
      apply runs_sound, matches_suffix in Hy as [pre Hpre].
      rewrite Hpre, UptimeFacts.consumed_append. reflexivity.
Qed.

Lemma find_stable (x : string) :
  solid x = true ->
  forall u b g rest,
    find P b (u ++ g ++ rest) = Some (b ++ u, g, rest) ->
    find P b (u ++ g ++ x) = Some (b ++ u, g, x).
Proof.
  intros Hx. induction u as [|c u IH]; intros b g rest Hf; unapp.
  - destruct (runs true P (g ++ rest) []) as [|y l] eqn:E.
    + exfalso. destruct (g ++ rest) as [|c s] eqn:Es; cbn [find] in Hf; rewrite E in Hf;
        [discriminate|].
      apply find_shape in Hf as (p & Hp & _).
      apply (f_equal String.length) in Hp.
      rewrite !length_append in Hp. simpl in Hp. lia.
    + rewrite (find_hit _ _ _ _ E) in Hf. injection Hf as _ _ Hy.
      destruct (runs_head_swap true g rest x [] y l Hx E Hy) as (y' & l' & E' & Hy').
      rewrite (find_hit _ _ _ _ E'), Hy', UptimeFacts.consumed_append, append_nil_r. reflexivity.
  - cbn [find] in Hf |- *.
    destruct (runs true P (String c (u ++ g ++ rest)) []) as [|y l] eqn:E.
    + rewrite <- append_cons, <- append_assoc in E.
      apply (runs_none_swap true _ rest x [] Hx) in E.
      rewrite append_assoc, append_cons in E. rewrite E.
      replace (b ++ String c u) with ((b ++ String c "") ++ u) in *
        by (rewrite append_assoc; reflexivity).
      apply (IH _ _ rest). exact Hf.
    + exfalso. injection Hf as Hb _ _.
      apply (f_equal String.length) in Hb. rewrite length_append in Hb. simpl in Hb. lia.
Qed.



(** The engine on a one-line text *)

Lemma rep_any_runs (z : string) :
  one_line z = true -> exists l, rep_runs (atom_matches AAny) 0 z = "" :: l.
Proof.
  induction z as [|c z IH]; intros Hz.
  - exists []. reflexivity.
  - unfold one_line in Hz. simpl in Hz. apply andb_true_iff in Hz as [Hc Hz].
    destruct (IH Hz) as [l El].
    cbn [rep_runs atom_matches Nat.pred]. rewrite Hc, El.
    eexists. reflexivity.
Qed.

Lemma rest_of_line_runs (z : string) cs :
  one_line z = true -> exists l, runs true rest_of_line z cs = ("", cs) :: l.
Proof.
  intros Hz. destruct (rep_any_runs z Hz) as [l El].
  unfold rest_of_line. cbn [runs]. rewrite El.
  cbn [map flat_map fst snd at_end app]. eexists. reflexivity.
Qed.

Lemma solid_one_line (x : string) : solid x = true -> one_line x = true.
Proof.
  unfold solid, one_line. induction x as [|c x IH]; simpl; [reflexivity|].
  intros H. apply andb_true_iff in H as [Hc Hx]. rewrite (IH Hx), andb_true_r.
  destruct (Ascii.eqb_spec c Str.nl) as [->|]; [discriminate | reflexivity].
Qed.

Lemma one_line_suffix (a b : string) : one_line (a ++ b) = true -> one_line b = true.
Proof. unfold one_line. rewrite all_append. intros H. now apply andb_true_iff in H. Qed.

Lemma match_here_rule (s : string) ma :
  one_line s = true ->
  match_here true ma (RCat (RGroup 1 P) rest_of_line) s
  = match runs true P s [] with
    | [] => None
    | y :: _ => Some ("", (1, Str.consumed s y.1) :: y.2)
    end.
Proof.
  intros Hs. unfold match_here. rewrite re_m_runs. cbn [runs].
  destruct (runs true P s []) as [|y l] eqn:E; [reflexivity|].
  assert (Hy : In y (runs true P s [])) by (rewrite E; now left).
  apply runs_sound in Hy.
  destruct (ends_space_sound true P P_space _ _ Hy) as (w & c & Es & _).
  assert (Hy1 : one_line y.1 = true).
  { rewrite Es in Hs. apply one_line_suffix in Hs.
    now apply (one_line_suffix (String c "")) in Hs. }
  cbn [map flat_map fst snd].
  destruct (rest_of_line_runs y.1 ((1, Str.consumed s y.1) :: y.2) Hy1) as [l' El].
  unfold caps in *. rewrite El.
  cbn [app first_some fst snd].
  replace (String.length "" =? String.length s)%nat with false.
  - rewrite andb_false_r. reflexivity.
  - symmetry. apply Nat.eqb_neq. rewrite Es, length_append. simpl. lia.
Qed.

Lemma consumed_suffix (s pre rest : string) :
  s = pre ++ rest -> Str.consumed s rest = pre.
Proof. intros ->. apply UptimeFacts.consumed_append. Qed.

Lemma search_rule : forall s b ma,
  one_line s = true ->
  match find P b s with
  | Some (u, g, rest) =>
      exists cs, search_from true ma (RCat (RGroup 1 P) rest_of_line) b s
                 = Some (Match u (g ++ rest) "" ((1, g) :: cs))
  | None => search_from true ma (RCat (RGroup 1 P) rest_of_line) b s = None
  end.
Proof.
  induction s as [|c s IH]; intros b ma Hs; cbn [search_from find];
    rewrite (match_here_rule _ ma Hs).
  - rewrite (runs_solid_none true "" [] eq_refl). reflexivity.
  - destruct (runs true P (String c s) []) as [|y l] eqn:E.
    + apply IH. apply (one_line_suffix (String c "")). exact Hs.
    + exists y.2. rewrite consumed_all.
      assert (Hy : In y (runs true P (String c s) [])) by (rewrite E; now left).
      apply runs_sound, matches_suffix in Hy as [pre Hpre].
      rewrite (consumed_suffix _ _ _ Hpre), <- Hpre. reflexivity.
Qed.

Lemma expand_text t R cs : template_text t = Some R -> expand t cs = R.
Proof.
  revert R. induction t as [|[c|i] t IH]; intros R Ht; cbn [template_text] in Ht.
  - now injection Ht as <-.
  - destruct (template_text t) as [R'|]; [|discriminate]. injection Ht as <-.
    cbn [expand]. now rewrite (IH R').
  - discriminate.
Qed.

Lemma sub_loop_rule t R n (s : string) :
  template_text t = Some R -> one_line s = true ->
  sub_loop (S (S n)) true (RCat (RGroup 1 P) rest_of_line) (TGroup 1 :: t) false s
  = redact P R s.
Proof.
  intros Ht Hs. unfold redact. cbn [sub_loop].
  pose proof (search_rule s "" false Hs) as Hsearch.
  destruct (find P "" s) as [[[u g] rest]|].
  - destruct Hsearch as [cs ->]. cbn [m_before m_caps m_text m_after].
    pose proof (search_rule "" "" (String.length (g ++ rest) =? 0)%nat eq_refl) as Hend.
    cbn [find] in Hend. rewrite (runs_solid_none true "" [] eq_refl) in Hend.
    rewrite Hend. cbn [expand cap_lookup Nat.eqb].
    rewrite (expand_text t R _ Ht), !append_nil_r. reflexivity.
  - now rewrite Hsearch.
Qed.

(** A rule applied twice does what it does once. *)
Lemma redact_idempotent R (s : string) :
  solid R = true -> redact P R (redact P R s) = redact P R s.
Proof.
  intros HR. unfold redact at 2 3.
  destruct (find P "" s) as [[[u g] rest]|] eqn:Ef.
  - destruct (find_shape _ _ _ _ _ Ef) as (p & Hp & Hs). unapp. subst p s.
    unfold redact. rewrite (find_stable R HR u "" g rest Ef). unapp. reflexivity.
  - unfold redact. now rewrite Ef.
Qed.

Lemma redact_one_line R (s : string) :
  solid R = true -> one_line s = true -> one_line (redact P R s) = true.
Proof.
  intros HR Hs. unfold redact.
  destruct (find P "" s) as [[[u g] rest]|] eqn:Ef; [|exact Hs].
  destruct (find_shape _ _ _ _ _ Ef) as (p & Hp & Es). unapp. subst p s.
  unfold one_line in *. rewrite !all_append in *.
  apply andb_true_iff in Hs as [Hu Hg]. apply andb_true_iff in Hg as [Hg _].
  rewrite Hu, Hg. cbn [andb]. apply solid_one_line. exact HR.
Qed.

End LineRule.


(** Rules *)

Lemma rule_prefix_inv (r P : re) :
  rule_prefix r = Some P -> r = RCat (RGroup 1 P) rest_of_line.
Proof.
  unfold rule_prefix.
  repeat match goal with
         | |- context [match ?x with _ => _ end] => destruct x; try discriminate
         end.
  intros [= ->]. reflexivity.
Qed.

Lemma rule_text_inv t R :
  rule_text t = Some R -> exists t', t = TGroup 1 :: t' /\ template_text t' = Some R.
Proof.
  unfold rule_text.
  repeat match goal with
         | |- context [match ?x with _ => _ end] => destruct x; try discriminate
         end.
  intros Ht. eexists. split; [reflexivity | exact Ht].
Qed.

Lemma line_rule_inv (rule : string * string) P R :
  line_rule rule = Some (P, R) ->
  anchor_free P = true /\ ends_space P = true /\ solid R = true /\
  exists p t, compile rule.1 = inr p /\ p_re p = RCat (RGroup 1 P) rest_of_line
              /\ parse_template (p_groups p) rule.2 = inr (TGroup 1 :: t)
              /\ template_text t = Some R.
Proof.
  unfold line_rule. intros H.
  destruct (compile rule.1) as [e|p] eqn:Ec; [discriminate|].
  destruct (rule_prefix (p_re p)) as [P'|] eqn:Ep; [|discriminate].
  destruct (parse_template (p_groups p) rule.2) as [e|t] eqn:Epar; [discriminate|].
  destruct (rule_text t) as [R'|] eqn:Et; [|discriminate].
  destruct (anchor_free P' && ends_space P' && solid R') eqn:Eb; [|discriminate].
  injection H as -> ->.
  apply andb_true_iff in Eb as [Eb HR]. apply andb_true_iff in Eb as [Hf Hs].
  apply rule_prefix_inv in Ep. apply rule_text_inv in Et as (t' & -> & Ht').
  repeat split; try assumption. exists p, t'. repeat split; try assumption; reflexivity.
Qed.

(** [re.sub] with a line rule on a one-line text. *)
Lemma re_sub_line_rule (rule : string * string) P R (s : string) :
  line_rule rule = Some (P, R) -> one_line s = true ->
  re_sub true rule.1 rule.2 s = ok (redact P R s).
Proof.
  intros Hrule Hs.
  destruct (line_rule_inv rule P R Hrule) as (Hf & Hsp & HR & p & t & Ec & Ep & Et & Ht).
  unfold re_sub, sub. rewrite Ec, Et, Ep.
  replace (2 * String.length s + 2)%nat with (S (S (2 * String.length s))) by lia.
  rewrite (sub_loop_rule P Hsp t R _ s Ht Hs). reflexivity.
Qed.







Lemma filters_line_rules : forallb is_line_rule filters = true.
Proof. vm_compute. reflexivity. Qed.

(** One rule of [get_config] alone, on a one-line text: applied twice it
    does what it does once. *)
Lemma sanitize_rule_idempotent (rule : string * string) (s : string) :
  In rule filters -> one_line s = true ->
  exists t, sanitize_config s [rule] = ok t /\ sanitize_config t [rule] = ok t.
Proof.
  intros Hin Hs.
  pose proof filters_line_rules as Hall. rewrite forallb_forall in Hall.
  specialize (Hall rule Hin). unfold is_line_rule in Hall.
  destruct (line_rule rule) as [[P R]|] eqn:E; [|discriminate].
  destruct (line_rule_inv rule P R E) as (Hf & Hsp & HR & _).
  exists (redact P R s). destruct rule as [pat repl]. cbn [sanitize_config].
  pose proof (re_sub_line_rule _ P R s E Hs) as H1. cbn [fst snd] in H1.
  pose proof (re_sub_line_rule _ P R _ E (redact_one_line P Hsp R s HR Hs)) as H2.
  cbn [fst snd] in H2.
  rewrite H1, H2, (redact_idempotent P Hf Hsp R s HR). split; reflexivity.
Qed.

End RedactionFacts.




(** * Further properties *)

(** ** The further sample sessions *)

Lemma scenario_well_behaved prompt reply written extract :
  Str.last (Str.strip prompt) <> None ->
  (forall cmd, exists raw, reply cmd = ok raw) ->
  @well_behaved (Scenario.session prompt reply written extract).
Proof.
  intros Hp Hr. split.
  - intros c. exists prompt, (S c). split; [reflexivity | exact Hp].
  - intros cmd expect c. destruct (Hr cmd) as [raw Hraw].
    exists raw, (S c). cbn. now rewrite Hraw.
Qed.

Lemma appliance_well_behaved : @well_behaved Scenario.appliance.
Proof.
  apply scenario_well_behaved; [discriminate|]. intros cmd. eexists. reflexivity.
Qed.

(** A run that returned did not raise. *)
Ltac raises_on_run Hg :=
  exfalso;
  let H := fresh in
  assert (H := f_equal (fun r => match fst r with inr _ => true | inl _ => false end) Hg);
  vm_compute in H; discriminate H.

(** ** [_send_command]: failures, and one command *)

(** ** [_send_command]: what can go wrong *)

Section SendCommandFailures.
Context `{Netmiko}.

Lemma strip_blank (p : string) : Str.all Str.is_space p = true -> Str.strip p = "".
Proof.
  intros Hblank. unfold Str.strip.
  assert (Hr : Str.rstrip p = "").
  { induction p as [|a p IH]; [reflexivity|]. simpl in Hblank.
    apply andb_true_iff in Hblank as [Ha Hp']. simpl. rewrite (IH Hp'), Ha. reflexivity. }
  now rewrite Hr.
Qed.

(** X1.  A failure of [find_prompt] is raised by [_send_command] as it
    is, a socket error included: the prompt is read before the [try]
    block, so it is not turned into [ConnectionClosedException]; no command
    is sent. *)
Theorem send_command_prompt_failure :
  forall (command : command) (use_textfsm : bool) (d : driver) c e c',
    device d = Some c -> nm_find_prompt c = (raise e, c') ->
    _send_command command use_textfsm d
    = (raise e, Driver (Some c') (trace d ++ [EvPrompt (raise e)])).
Proof.
  intros command use_textfsm d c e c' Hd Hp.
  unfold _send_command, bind, find_prompt.
  rewrite (on_device_some _ _ _ _ _ _ _ Hd Hp). reflexivity.
Qed.

(** X2.  When the prompt read is empty or white space only,
    [_send_command] raises [IndexError] (the last character of the trimmed
    prompt is asked for) and sends nothing, whatever the command. *)
Theorem send_command_blank_prompt :
  forall (command : command) (use_textfsm : bool) (d : driver) c p c',
    device d = Some c -> nm_find_prompt c = (ok p, c') ->
    Str.all Str.is_space p = true ->
    _send_command command use_textfsm d
    = (raise (IndexError "string index out of range"),
       Driver (Some c') (trace d ++ [EvPrompt (ok p)])).
Proof.
  intros command use_textfsm d c p c' Hd Hp Hblank.
  unfold _send_command, bind, find_prompt.
  rewrite (on_device_some _ _ _ _ _ _ _ Hd Hp). cbn [ok].
  rewrite (strip_blank p Hblank). reflexivity.
Qed.

(** X3.  When sending one command fails with a socket error or an end
    of stream, [_send_command] raises [ConnectionClosedException] carrying
    the message of that failure. *)
Theorem send_command_connection_closed :
  forall (cmd : string) (use_textfsm : bool) (d : driver) c p c1 term e c2,
    device d = Some c -> nm_find_prompt c = (ok p, c1) ->
    Str.last (Str.strip p) = Some term ->
    nm_send cmd (Some (bounding_pattern term)) c1 = (raise e, c2) ->
    channel_failure e ->
    exists msg,
      (e = SocketError msg \/ e = EOFError msg)
      /\ _send_command (Single cmd) use_textfsm d
         = (raise (ConnectionClosedException msg),
            Driver (Some c2)
                   (trace d ++ [EvPrompt (ok p);
                                EvSend cmd (Some (bounding_pattern term)) (raise e)])).
Proof.
  intros cmd use_textfsm d c p c1 term e c2 Hd Hp Hlast Hs He.
  assert (Hrun : _send_command (Single cmd) use_textfsm d
                 = connection_closed e
                     (Driver (Some c2)
                        ((trace d ++ [EvPrompt (ok p)])
                           ++ [EvSend cmd (Some (bounding_pattern term)) (raise e)]))).
  { unfold _send_command, bind at 1, find_prompt.
    rewrite (on_device_some _ _ _ _ _ _ _ Hd Hp). cbn [ok]. rewrite Hlast.
    unfold try_except, bind.
    erewrite send_command_raise; [reflexivity | reflexivity | exact Hs]. }
  rewrite Hrun, <- app_assoc.
  destruct e as [msg|msg| | | | | | | | | |]; simpl in He; try contradiction;
    exists msg; split; auto.
Qed.

(** X4.  Once the prompt has been read, no socket error and no end of
    stream escapes [_send_command], for one command or a list, with or
    without structured extraction. *)
Theorem send_command_no_channel_failure :
  forall (command : command) (use_textfsm : bool) (d : driver) c p c1 e d',
    device d = Some c -> nm_find_prompt c = (ok p, c1) ->
    _send_command command use_textfsm d = (raise e, d') ->
    ~ channel_failure e.
Proof.
  intros command use_textfsm d c p c1 e d' Hd Hp Hrun.
  unfold _send_command, bind at 1, find_prompt in Hrun.
  rewrite (on_device_some _ _ _ _ _ _ _ Hd Hp) in Hrun. cbn [ok] in Hrun.
  destruct (Str.last (Str.strip p)) as [term|].
  - unfold try_except in Hrun.
    match type of Hrun with
    | (match ?body with _ => _ end) = _ => destruct body as [[e0|out] d0]
    end; [|discriminate].
    destruct e0; simpl in Hrun; injection Hrun as <- _; simpl; tauto.
  - injection Hrun as <- _. simpl. tauto.
Qed.

(** X5.  One command is sent once, after one reading of the prompt, with
    the bounding pattern built on the last character of the trimmed prompt
    as [expect_string]; the text that comes back is returned trimmed, and
    with [use_textfsm] what TextFSM makes of it is returned untouched. *)
Theorem send_command_single :
  forall (cmd : string) (use_textfsm : bool) (d : driver) c p c1 term raw c2,
    device d = Some c -> nm_find_prompt c = (ok p, c1) ->
    Str.last (Str.strip p) = Some term ->
    nm_send cmd (Some (bounding_pattern term)) c1 = (ok raw, c2) ->
    _send_command (Single cmd) use_textfsm d
    = (ok (if use_textfsm then nm_textfsm cmd raw else Text (Str.strip raw)),
       Driver (Some c2)
              (trace d ++ [EvPrompt (ok p);
                           EvSend cmd (Some (bounding_pattern term)) (ok raw)])).
Proof.
  intros cmd use_textfsm d c p c1 term raw c2 Hd Hp Hlast Hs.
  unfold _send_command, bind at 1, find_prompt.
  rewrite (on_device_some _ _ _ _ _ _ _ Hd Hp). cbn [ok]. rewrite Hlast.
  unfold try_except, bind.
  erewrite send_command_ok; [| reflexivity | exact Hs].
  cbn [trace]. rewrite <- app_assoc. destruct use_textfsm; reflexivity.
Qed.

(** X6.  With [use_textfsm], a list of candidates ends with the first
    candidate for which TextFSM yields records: a list of records never
    contains the invalid-command marker, whatever the raw text said, so the
    records are returned and the other candidates are not sent. *)
Theorem send_command_chain_structured :
  forall (cmd : string) (others : list string) (d : driver) c p c1 raw c2 rs,
    device d = Some c -> nm_find_prompt c = (ok p, c1) ->
    Str.last (Str.strip p) <> None ->
    nm_send cmd None c1 = (ok raw, c2) ->
    nm_textfsm cmd raw = Records rs ->
    _send_command (Chain (cmd :: others)) true d
    = (ok (Records rs),
       Driver (Some c2) (trace d ++ [EvPrompt (ok p); EvSend cmd None (ok raw)])).
Proof.
  intros cmd others d c p c1 raw c2 rs Hd Hp Hlast Hs Hrec.
  unfold _send_command, bind at 1, find_prompt.
  rewrite (on_device_some _ _ _ _ _ _ _ Hd Hp). cbn [ok].
  destruct (Str.last (Str.strip p)) as [term|]; [|congruence].
  unfold try_except. cbn [chain_loop]. unfold bind at 1.
  erewrite send_command_ok; [| reflexivity | exact Hs].
  rewrite Hrec. cbn [trace]. rewrite <- app_assoc. reflexivity.
Qed.

End SendCommandFailures.

(** X1 on the session whose socket fails on every exchange. *)
Lemma send_command_prompt_failure_witness :
  @_send_command Sample.broken (Single "show version") false
                 (@Driver Sample.broken (Some tt) [])
  = (raise (SocketError "Socket is closed"),
     @Driver Sample.broken (Some tt) [EvPrompt (raise (SocketError "Socket is closed"))]).
Proof.
  apply (@send_command_prompt_failure Sample.broken (Single "show version") false
           (@Driver Sample.broken (Some tt) []) tt (SocketError "Socket is closed") tt).
  - reflexivity.
  - reflexivity.
Defined.

(** X2 on the session whose prompt is three spaces. *)
Lemma send_command_blank_prompt_witness :
  @_send_command Scenario.blank (Chain ["show version"]) false
                 (@Driver Scenario.blank (Some 0%nat) [])
  = (raise (IndexError "string index out of range"),
     @Driver Scenario.blank (Some 1%nat) [EvPrompt (ok "   ")]).
Proof.
  apply (@send_command_blank_prompt Scenario.blank (Chain ["show version"]) false
           (@Driver Scenario.blank (Some 0%nat) []) 0%nat "   " 1%nat).
  - reflexivity.
  - reflexivity.
  - reflexivity.
Defined.

(** X3 on the session that ends while [show version] is read. *)
Lemma send_command_connection_closed_witness :
  exists msg,
    (EOFError "Channel stream closed by remote device." = SocketError msg
     \/ EOFError "Channel stream closed by remote device." = EOFError msg)
    /\ @_send_command Scenario.dropped (Single "show version") false
                      (@Driver Scenario.dropped (Some 0%nat) [])
       = (raise (ConnectionClosedException msg),
          @Driver Scenario.dropped (Some 2%nat)
            ([] ++ [EvPrompt (ok "SWITCH# ");
                    EvSend "show version" (Some (bounding_pattern "#"))
                           (raise (EOFError "Channel stream closed by remote device."))])).
Proof.
  apply (@send_command_connection_closed Scenario.dropped "show version" false
           (@Driver Scenario.dropped (Some 0%nat) []) 0%nat "SWITCH# " 1%nat "#"%char
           (EOFError "Channel stream closed by remote device.") 2%nat).
  - reflexivity.
  - reflexivity.
  - reflexivity.
  - reflexivity.
  - exact I.
Defined.

(** X4 on the same session: what is raised is no channel failure. *)
Lemma send_command_no_channel_failure_witness :
  ~ channel_failure (ConnectionClosedException "Channel stream closed by remote device.").
Proof.
  apply (@send_command_no_channel_failure Scenario.dropped (Single "show version") false
           (@Driver Scenario.dropped (Some 0%nat) []) 0%nat "SWITCH# " 1%nat
           (ConnectionClosedException "Channel stream closed by remote device.")
           (@Driver Scenario.dropped (Some 2%nat)
              [EvPrompt (ok "SWITCH# ");
               EvSend "show version" (Some (bounding_pattern "#"))
                      (raise (EOFError "Channel stream closed by remote device."))])).
  - reflexivity.
  - reflexivity.
  - vm_compute. reflexivity.
Defined.

(** X5 on the sample session. *)
Lemma send_command_single_witness :
  @_send_command Sample.session (Single "show version") false Sample.fresh
  = (ok (Text "ok: show version"),
     @Driver Sample.session (Some 2%nat)
       [EvPrompt (ok " SWITCH# ");
        EvSend "show version" (Some (bounding_pattern "#")) (ok " ok: show version ")]).
Proof.
  apply (@send_command_single Sample.session "show version" false Sample.fresh
           0%nat " SWITCH# " 1%nat "#"%char " ok: show version " 2%nat).
  - reflexivity.
  - reflexivity.
  - reflexivity.
  - reflexivity.
Defined.

(** X6 on the appliance: the records of [show memory] are returned and
    [show version] is never sent. *)
Lemma send_command_chain_structured_witness :
  exists rs,
    @_send_command Scenario.appliance (Chain ["show memory"; "show version"]) true
                   (@Driver Scenario.appliance (Some 0%nat) [])
    = (ok (Records rs),
       @Driver Scenario.appliance (Some 2%nat)
         ([] ++ [EvPrompt (ok "SWITCH# "); EvSend "show memory" None (ok " show memory ")])).
Proof.
  eexists.
  apply (@send_command_chain_structured Scenario.appliance "show memory" ["show version"]
           (@Driver Scenario.appliance (Some 0%nat) []) 0%nat "SWITCH# " 1%nat
           " show memory " 2%nat).
  - reflexivity.
  - reflexivity.
  - discriminate.
  - reflexivity.
  - reflexivity.
Defined.

(** ** [get_config], [_enable] and [is_alive] *)



Section GetConfigRetrieve.
Context `{Netmiko}.

(** X7.  With [retrieve="running"], on a session whose exchanges
    succeed, [get_config] sends [enable] and [show running-config] only;
    the [running] field holds the answer (trimmed, sanitized on request),
    [startup] and [candidate] the empty text. *)
Theorem get_config_running_only :
  forall (full sanitized : bool) (d : driver),
    well_behaved -> is_Some (device d) ->
    exists e raw d',
      get_config "running" full sanitized d
      = (ok (ConfigDict (Text "") (presented sanitized raw) (Text "")), d')
      /\ exchanges_of (trace d')
         = (exchanges_of (trace d) ++ [("enable", e); ("show running-config", raw)])%list.
Proof.
  intros full sanitized d Hw Hd.
  destruct (enable_ok d Hw Hd) as (e & d1 & Hen & Hd1 & Hex1).
  destruct (send_single_exchanges false "show running-config" d1 Hw Hd1)
    as (raw & d2 & Hrun & Hd2 & Hex2).
  exists e, raw, d2. split.
  - unfold get_config. rewrite (bind_ok _ _ _ _ _ Hen).
    cbn [retrieve_in existsb String.eqb Ascii.eqb Bool.eqb orb andb].
    rewrite bind_bind, (bind_ok _ _ _ _ _ Hrun), !bind_ret.
    unfold processed. cbn [startup running candidate].
    rewrite sanitize_snapshot. unfold presented.
    destruct sanitized; [rewrite sanitize_text_empty|]; reflexivity.
  - rewrite Hex2, Hex1, <- app_assoc. reflexivity.
Qed.

(** X8.  With a [retrieve] other than ["all"], ["running"] and
    ["startup"], [get_config] raises nothing: it sends [enable] only and
    returns a snapshot whose three fields are empty. *)
Theorem get_config_unknown_retrieve :
  forall (retrieve : string) (full sanitized : bool) (d : driver),
    well_behaved -> is_Some (device d) ->
    retrieve <> "all" -> retrieve <> "running" -> retrieve <> "startup" ->
    exists e d',
      get_config retrieve full sanitized d
      = (ok (ConfigDict (Text "") (Text "") (Text "")), d')
      /\ exchanges_of (trace d') = (exchanges_of (trace d) ++ [("enable", e)])%list.
Proof.
  intros retrieve full sanitized d Hw Hd Ha Hr Hs.
  destruct (enable_ok d Hw Hd) as (e & d1 & Hen & Hd1 & Hex1).
  exists e, d1. split; [|exact Hex1].
  unfold get_config. rewrite (bind_ok _ _ _ _ _ Hen).
  unfold retrieve_in. cbn [existsb].
  apply String.eqb_neq in Ha, Hr, Hs. rewrite Ha, Hr, Hs. cbn [orb].
  rewrite !bind_ret. rewrite sanitize_snapshot.
  destruct sanitized; [rewrite sanitize_text_empty|]; reflexivity.
Qed.

End GetConfigRetrieve.

Section EnableFailure.
Context `{Netmiko} `{PyFloat} `{StringParsers}.

Lemma enable_raise (d : driver) c e c' :
  device d = Some c -> nm_send "enable" (Some "#") c = (raise e, c') ->
  _enable d = (raise e, Driver (Some c') (trace d ++ [EvSend "enable" (Some "#") (raise e)])).
Proof.
  intros Hd Hs. unfold _enable, bind.
  erewrite send_command_raise; [reflexivity | exact Hd | exact Hs].
Qed.

(** X9.  [_enable] sends through the session directly, outside
    [_send_command]: when the session fails on [enable], [get_config],
    [get_environment] and [get_facts] raise that very exception (a socket
    error stays a socket error) and send nothing else. *)
Theorem enable_failure_not_converted :
  forall (d : driver) c e c' retrieve full sanitized,
    device d = Some c -> nm_send "enable" (Some "#") c = (raise e, c') ->
    let d' := Driver (Some c') (trace d ++ [EvSend "enable" (Some "#") (raise e)]) in
    get_config retrieve full sanitized d = (raise e, d')
    /\ get_environment d = (raise e, d')
    /\ get_facts d = (raise e, d').
Proof.
  intros d c e c' retrieve full sanitized Hd Hs d'.
  pose proof (enable_raise d c e c' Hd Hs) as Hen. fold d' in Hen.
  unfold get_config, get_environment, get_facts.
  rewrite !(bind_raise _ _ _ _ _ Hen). repeat split.
Qed.

End EnableFailure.

Section IsAliveProbe.
Context `{Netmiko}.

(** X10.  [is_alive] sends no command: the commands exchanged with the
    device are the same before and after, whatever the session does. *)
Theorem is_alive_sends_nothing :
  forall (d : driver),
    exchanges_of (trace (snd (is_alive d))) = exchanges_of (trace d).
Proof.
  intros d. destruct (device d) as [c|] eqn:Hd.
  - rewrite (is_alive_unfold d c Hd).
    destruct (nm_write_channel null c) as [[e|[]] c'].
    + destruct e; cbn [not_alive ret throw snd trace];
        rewrite exchanges_of_app; cbn [exchanges_of]; apply app_nil_r.
    + destruct (nm_is_active c') as [e|b].
      * destruct e; cbn [not_alive ret throw snd trace];
          rewrite !exchanges_of_app; cbn [exchanges_of]; rewrite !app_nil_r; reflexivity.
      * cbn [snd trace]. rewrite !exchanges_of_app. cbn [exchanges_of].
        rewrite !app_nil_r. reflexivity.
  - unfold is_alive. rewrite Hd. reflexivity.
Qed.

(** X11.  An exception of the probe that is neither a socket error nor an
    end of stream is not caught: [is_alive] raises it. *)
Theorem is_alive_other_exception :
  forall (d : driver) c e c',
    device d = Some c -> nm_write_channel null c = (raise e, c') ->
    ~ channel_failure e ->
    is_alive d = (raise e, Driver (Some c') (trace d ++ [EvWrite null (raise e)])).
Proof.
  intros d c e c' Hd Hw He. rewrite (is_alive_unfold d c Hd), Hw.
  destruct e; simpl in He; try (exfalso; apply He; exact I); reflexivity.
Qed.

End IsAliveProbe.

(** X7 on the sample session, with sanitization. *)
Lemma get_config_running_only_witness :
  exists e raw d',
    @get_config Sample.session "running" false true Sample.fresh
    = (ok (ConfigDict (Text "") (presented true raw) (Text "")), d')
    /\ exchanges_of (trace d')
       = (exchanges_of (trace Sample.fresh) ++
          [("enable", e); ("show running-config", raw)])%list.
Proof.
  apply (@get_config_running_only Sample.session false true Sample.fresh).
  - exact sample_well_behaved.
  - exists 0%nat. reflexivity.
Defined.

(** X8 on the sample session, asked for the candidate configuration. *)
Lemma get_config_unknown_retrieve_witness :
  exists e d',
    @get_config Sample.session "candidate" false false Sample.fresh
    = (ok (ConfigDict (Text "") (Text "") (Text "")), d')
    /\ exchanges_of (trace d') = (exchanges_of (trace Sample.fresh) ++ [("enable", e)])%list.
Proof.
  apply (@get_config_unknown_retrieve Sample.session "candidate" false false Sample.fresh).
  - exact sample_well_behaved.
  - exists 0%nat. reflexivity.
  - discriminate.
  - discriminate.
  - discriminate.
Defined.

(** X9 on the session whose socket fails on every exchange. *)
Lemma enable_failure_not_converted_witness :
  let d' := @Driver Sample.broken (Some tt)
              ([] ++ [EvSend "enable" (Some "#") (raise (SocketError "Socket is closed"))]) in
  @get_config Sample.broken "all" false false (@Driver Sample.broken (Some tt) [])
  = (raise (SocketError "Socket is closed"), d')
  /\ @get_environment Sample.broken Sample.floats (@Driver Sample.broken (Some tt) [])
     = (raise (SocketError "Socket is closed"), d')
  /\ @get_facts Sample.broken Scenario.parsers (@Driver Sample.broken (Some tt) [])
     = (raise (SocketError "Socket is closed"), d').
Proof.
  apply (@enable_failure_not_converted Sample.broken Sample.floats Scenario.parsers
           (@Driver Sample.broken (Some tt) []) tt (SocketError "Socket is closed") tt
           "all" false false).
  - reflexivity.
  - reflexivity.
Defined.

(** X11 on the session whose writes time out. *)
Lemma is_alive_other_exception_witness :
  @is_alive Scenario.stuck (@Driver Scenario.stuck (Some 0%nat) [])
  = (raise (OtherError "write timed out"),
     @Driver Scenario.stuck (Some 1%nat)
       ([] ++ [EvWrite null (raise (OtherError "write timed out"))])).
Proof.
  apply (@is_alive_other_exception Scenario.stuck
           (@Driver Scenario.stuck (Some 0%nat) []) 0%nat
           (OtherError "write timed out") 1%nat).
  - reflexivity.
  - reflexivity.
  - simpl. tauto.
Defined.

(** ** [get_environment]: loops that fill a dictionary *)

Section Loops.
Context {V : Type}.
Variable step : gmap string V -> gmap string string -> result (gmap string V).
Variable reads : gmap string string -> string -> V -> Prop.
Hypothesis step_inserts :
  forall acc entry acc', step acc entry = ok acc' ->
    exists key v, reads entry key v /\ acc' = <[key := v]> acc.

Lemma for_each_inserts (rs : list (gmap string string)) :
  forall acc m,
    for_each step acc rs = ok m ->
    (forall key v, m !! key = Some v ->
       acc !! key = Some v \/ exists entry, In entry rs /\ reads entry key v)
    /\ (forall entry, In entry rs -> exists key v, reads entry key v /\ is_Some (m !! key))
    /\ (forall key, is_Some (acc !! key) -> is_Some (m !! key)).
Proof.
  induction rs as [|entry rs IH]; intros acc m Hloop; cbn [for_each] in Hloop.
  - injection Hloop as <-. repeat split; auto. intros entry [].
  - unfold rbind in Hloop. destruct (step acc entry) as [e|acc'] eqn:Es; [discriminate|].
    destruct (step_inserts _ _ _ Es) as (key & v & Hr & ->).
    destruct (IH _ _ Hloop) as (Hkeys & Hall & Hmono). repeat split.
    + intros k w Hk. destruct (Hkeys k w Hk) as [Hacc|(e' & Hin & Hr')].
      * destruct (decide (key = k)) as [<-|Hne].
        -- rewrite lookup_insert_eq in Hacc. injection Hacc as <-.
           right. exists entry. split; [now left | exact Hr].
        -- rewrite lookup_insert_ne in Hacc by exact Hne. now left.
      * right. exists e'. split; [now right | exact Hr'].
    + intros e' [<-|Hin].
      * exists key, v. split; [exact Hr|]. apply Hmono.
        rewrite lookup_insert_eq. eauto.
      * exact (Hall e' Hin).
    + intros k Hk. apply Hmono. destruct (decide (key = k)) as [<-|Hne].
      * rewrite lookup_insert_eq. eauto.
      * rewrite lookup_insert_ne by exact Hne. exact Hk.
Qed.

End Loops.

Lemma for_each_app {A B} (body : B -> A -> result B) (xs ys : list A) :
  forall acc,
    for_each body acc (xs ++ ys)
    = (let? mid := for_each body acc xs in for_each body mid ys).
Proof.
  induction xs as [|x xs IH]; intros acc; [reflexivity|].
  cbn [for_each app]. unfold rbind at 1 3. destruct (body acc x); [reflexivity|].
  apply IH.
Qed.

(** ** [get_environment]: the run and the other four parts *)

Section EnvironmentParts.
Context `{Netmiko} `{PyFloat}.

Lemma fan_step_inserts acc entry acc' :
  fan_step acc entry = ok acc' ->
  exists key v, fan_reading entry key v /\ acc' = <[key := v]> acc.
Proof.
  unfold fan_step, fan_reading, rbind. intros Hs.
  destruct (field entry "fan_name") as [e|name]; [discriminate|].
  destruct (field entry "fan_index") as [e|index]; [discriminate|].
  destruct (field entry "fan_status") as [e|st]; [discriminate|].
  injection Hs as <-. eexists _, _. split; [|reflexivity].
  exists name, index, st. repeat split; reflexivity.
Qed.

Lemma power_step_inserts acc entry acc' :
  power_step acc entry = ok acc' ->
  exists key v, power_reading entry key v /\ acc' = <[key := v]> acc.
Proof.
  unfold power_step, power_reading, rbind. intros Hs.
  destruct (field entry "power_name") as [e|name]; [discriminate|].
  destruct (field entry "power_status") as [e|st]; [discriminate|].
  injection Hs as <-. eexists _, _. split; [|reflexivity].
  exists st. repeat split; reflexivity.
Qed.

(** The parts of a result of [environment_of]. *)
Lemma environment_of_ok cpuload memory fan temp power env :
  environment_of cpuload memory fan temp power = ok env ->
  exists total used fans_rs temp_rs power_rs cpu_rs,
    first_field memory "mem_total" = ok total
    /\ first_field memory "mem_used" = ok used
    /\ int_of_str total = ok (available_ram (env_memory env))
    /\ int_of_str used = ok (used_ram (env_memory env))
    /\ entries fan = ok fans_rs /\ for_each fan_step ∅ fans_rs = ok (env_fans env)
    /\ entries temp = ok temp_rs
    /\ entries power = ok power_rs /\ for_each power_step ∅ power_rs = ok (env_power env)
    /\ entries cpuload = ok cpu_rs /\ for_each cpu_step ∅ cpu_rs = ok (env_cpu env).
Proof.
  unfold environment_of, rbind. intros He.
  destruct (first_field memory "mem_total") as [e|total] eqn:E1; [discriminate|].
  destruct (int_of_str total) as [e|a] eqn:E2; [discriminate|].
  destruct (first_field memory "mem_used") as [e|used] eqn:E3; [discriminate|].
  destruct (int_of_str used) as [e|u] eqn:E4; [discriminate|].
  destruct (entries fan) as [e|frs] eqn:E5; [discriminate|].
  destruct (for_each fan_step ∅ frs) as [e|fans] eqn:E6; [discriminate|].
  destruct (entries temp) as [e|trs] eqn:E7; [discriminate|].
  destruct (for_each temperature_step ∅ trs) as [e|temps] eqn:E8; [discriminate|].
  destruct (entries power) as [e|prs] eqn:E9; [discriminate|].
  destruct (for_each power_step ∅ prs) as [e|pw] eqn:E10; [discriminate|].
  destruct (entries cpuload) as [e|crs] eqn:E11; [discriminate|].
  destruct (for_each cpu_step ∅ crs) as [e|cpu] eqn:E12; [discriminate|].
  injection He as <-. exists total, used, frs, trs, prs, crs.
  cbn [env_memory env_fans env_power env_cpu available_ram used_ram].
  repeat split; assumption.
Qed.

(** The five answers a result of [get_environment] is made of. *)
Lemma get_environment_ok (d : driver) env d' :
  get_environment d = (ok env, d') ->
  exists d0 cpuload d1 memory d2 fan d3 temp d4 power,
    _send_command (Single "show cpuload") true d0 = (ok cpuload, d1)
    /\ _send_command (Single "show memory") true d1 = (ok memory, d2)
    /\ _send_command (Single "show status fan") true d2 = (ok fan, d3)
    /\ _send_command (Single "show status temp") true d3 = (ok temp, d4)
    /\ _send_command (Single "show status power") true d4 = (ok power, d')
    /\ environment_of cpuload memory fan temp power = ok env.
Proof.
  unfold get_environment, bind, lift. intros Hg.
  destruct (_enable d) as [[e|[]] d0]; [discriminate|].
  destruct (_send_command (Single "show cpuload") true d0) as [[e|cpuload] d1] eqn:E1;
    [discriminate|].
  destruct (_send_command (Single "show memory") true d1) as [[e|memory] d2] eqn:E2;
    [discriminate|].
  destruct (_send_command (Single "show status fan") true d2) as [[e|fan] d3] eqn:E3;
    [discriminate|].
  destruct (_send_command (Single "show status temp") true d3) as [[e|temp] d4] eqn:E4;
    [discriminate|].
  destruct (_send_command (Single "show status power") true d4) as [[e|power] d5] eqn:E5;
    [discriminate|].
  injection Hg as Henv <-.
  exists d0, cpuload, d1, memory, d2, fan, d3, temp, d4, power. auto 10.
Qed.

(** On a session whose exchanges succeed. *)
Lemma get_environment_run (d : driver) :
  well_behaved -> is_Some (device d) ->
  exists e c m f t p d',
    get_environment d
    = (environment_of (nm_textfsm "show cpuload" c) (nm_textfsm "show memory" m)
                      (nm_textfsm "show status fan" f) (nm_textfsm "show status temp" t)
                      (nm_textfsm "show status power" p), d')
    /\ exchanges_of (trace d')
       = (exchanges_of (trace d) ++
          [("enable", e); ("show cpuload", c); ("show memory", m);
           ("show status fan", f); ("show status temp", t); ("show status power", p)])%list.
Proof.
  intros Hw Hd.
  destruct (enable_ok d Hw Hd) as (e & d0 & Hen & Hd0 & Hex0).
  destruct (send_single_exchanges true "show cpuload" d0 Hw Hd0) as (c & d1 & R1 & Hd1 & Hex1).
  destruct (send_single_exchanges true "show memory" d1 Hw Hd1) as (m & d2 & R2 & Hd2 & Hex2).
  destruct (send_single_exchanges true "show status fan" d2 Hw Hd2) as (f & d3 & R3 & Hd3 & Hex3).
  destruct (send_single_exchanges true "show status temp" d3 Hw Hd3) as (t & d4 & R4 & Hd4 & Hex4).
  destruct (send_single_exchanges true "show status power" d4 Hw Hd4) as (p & d5 & R5 & Hd5 & Hex5).
  exists e, c, m, f, t, p, d5. split.
  - unfold get_environment.
    rewrite (bind_ok _ _ _ _ _ Hen), (bind_ok _ _ _ _ _ R1), (bind_ok _ _ _ _ _ R2),
      (bind_ok _ _ _ _ _ R3), (bind_ok _ _ _ _ _ R4), (bind_ok _ _ _ _ _ R5).
    reflexivity.
  - rewrite Hex5, Hex4, Hex3, Hex2, Hex1, Hex0, <- !app_assoc. reflexivity.
Qed.

(** X12.  On a session whose exchanges succeed, [get_environment] sends
    [enable] and the five [show] commands in a fixed order, all of them
    before any record is read, and its result, value or exception, is what
    [environment_of] makes of the five structured answers. *)
Theorem get_environment_exchanges :
  forall (d : driver),
    well_behaved -> is_Some (device d) ->
    exists e c m f t p d',
      get_environment d
      = (environment_of (nm_textfsm "show cpuload" c) (nm_textfsm "show memory" m)
                        (nm_textfsm "show status fan" f) (nm_textfsm "show status temp" t)
                        (nm_textfsm "show status power" p), d')
      /\ exchanges_of (trace d')
         = (exchanges_of (trace d) ++
            [("enable", e); ("show cpuload", c); ("show memory", m);
             ("show status fan", f); ("show status temp", t); ("show status power", p)])%list.
Proof. intros d Hw Hd. exact (get_environment_run d Hw Hd). Qed.

(** X13.  When [get_environment] returns, every fan record leaves an
    entry under name-index, and every entry of [fans] comes from a record
    with that key, its status being true exactly when the record's
    [fan_status] is [RUN]. *)
Theorem fans_status :
  forall (d : driver) env d',
    get_environment d = (ok env, d') ->
    exists fan d2 d3 rs,
      _send_command (Single "show status fan") true d2 = (ok fan, d3)
      /\ entries fan = ok rs
      /\ (forall entry, In entry rs ->
            exists key b, fan_reading entry key b /\ is_Some (env_fans env !! key))
      /\ (forall key b, env_fans env !! key = Some b ->
            exists entry, In entry rs /\ fan_reading entry key b).
Proof.
  intros d env d' Hg.
  destruct (get_environment_ok d env d' Hg)
    as (d0 & cpuload & d1 & memory & d2 & fan & d3 & temp & d4 & power
        & _ & _ & Hf & _ & _ & Henv).
  destruct (environment_of_ok _ _ _ _ _ _ Henv)
    as (total & used & frs & trs & prs & crs & _ & _ & _ & _ & Hfe & Hfl & _).
  destruct (for_each_inserts fan_step fan_reading fan_step_inserts frs _ _ Hfl)
    as (Hkeys & Hall & _).
  exists fan, d2, d3, frs. repeat split; [exact Hf | exact Hfe | exact Hall |].
  intros key b Hk. destruct (Hkeys key b Hk) as [Hempty|Hnew]; [|exact Hnew].
  rewrite lookup_empty in Hempty. discriminate.
Qed.

(** X14.  When [get_environment] returns, every power record leaves an
    entry under its name, and every entry of [power] comes from a record of
    that name: its status is true exactly when [power_status] is [OK], and
    its capacity and output are always [None]. *)
Theorem power_status :
  forall (d : driver) env d',
    get_environment d = (ok env, d') ->
    exists power d4 rs,
      _send_command (Single "show status power") true d4 = (ok power, d')
      /\ entries power = ok rs
      /\ (forall entry, In entry rs ->
            exists key p, power_reading entry key p /\ is_Some (env_power env !! key))
      /\ (forall key p, env_power env !! key = Some p ->
            capacity p = None /\ output p = None
            /\ exists entry st, In entry rs /\ field entry "power_name" = ok key
                                /\ field entry "power_status" = ok st
                                /\ (status p = true <-> st = "OK")).
Proof.
  intros d env d' Hg.
  destruct (get_environment_ok d env d' Hg)
    as (d0 & cpuload & d1 & memory & d2 & fan & d3 & temp & d4 & power
        & _ & _ & _ & _ & Hp & Henv).
  destruct (environment_of_ok _ _ _ _ _ _ Henv)
    as (total & used & frs & trs & prs & crs & _ & _ & _ & _ & _ & _ & _ & Hpe & Hpl & _).
  destruct (for_each_inserts power_step power_reading power_step_inserts prs _ _ Hpl)
    as (Hkeys & Hall & _).
  exists power, d4, prs.
  split; [exact Hp|]. split; [exact Hpe|]. split; [exact Hall|].
  intros key p Hk.
  destruct (Hkeys key p Hk) as [Hempty|(entry & Hin & st & Hn & Hs & ->)];
    [rewrite lookup_empty in Hempty; discriminate|].
  split; [reflexivity|]. split; [reflexivity|].
  exists entry, st. split; [exact Hin|]. split; [exact Hn|]. split; [exact Hs|].
  cbn [status]. split.
  - intros Hst. now apply String.eqb_eq.
  - intros ->. reflexivity.
Qed.

Lemma first_field_ok (o : exec_result) key v :
  first_field o key = ok v ->
  exists entry rest, o = Records (entry :: rest) /\ field entry key = ok v.
Proof.
  destruct o as [[|a s]|[|entry rest]]; cbn [first_field]; try discriminate.
  intros Hf. exists entry, rest. split; [reflexivity | exact Hf].
Qed.

(** X15.  When [get_environment] returns, the answer to [show memory]
    held at least one record, and the two memory figures are [int] of the
    fields [mem_total] and [mem_used] of the first record; later records
    are not looked at. *)
Theorem memory_first_record :
  forall (d : driver) env d',
    get_environment d = (ok env, d') ->
    exists memory d1 d2 entry rest total used,
      _send_command (Single "show memory") true d1 = (ok memory, d2)
      /\ memory = Records (entry :: rest)
      /\ field entry "mem_total" = ok total /\ field entry "mem_used" = ok used
      /\ int_of_str total = ok (available_ram (env_memory env))
      /\ int_of_str used = ok (used_ram (env_memory env)).
Proof.
  intros d env d' Hg.
  destruct (get_environment_ok d env d' Hg)
    as (d0 & cpuload & d1 & memory & d2 & fan & d3 & temp & d4 & power
        & _ & Hm & _ & _ & _ & Henv).
  destruct (environment_of_ok _ _ _ _ _ _ Henv)
    as (total & used & frs & trs & prs & crs & Ht & Hu & Hti & Hui & _).
  destruct (first_field_ok _ _ _ Ht) as (entry & rest & -> & Hft).
  cbn [first_field] in Hu.
  exists (Records (entry :: rest)), d1, d2, entry, rest, total, used.
  repeat split; assumption.
Qed.

(** X16.  On a session whose exchanges succeed, when TextFSM extracts no
    record from [show memory], [get_environment] raises [IndexError], after
    all six commands were sent. *)
Theorem memory_without_records :
  forall (d : driver),
    well_behaved -> is_Some (device d) ->
    (forall raw, nm_textfsm "show memory" raw = Records []) ->
    exists d', get_environment d = (raise (IndexError "list index out of range"), d')
               /\ map fst (exchanges_of (trace d'))
                  = (map fst (exchanges_of (trace d)) ++
                     ["enable"; "show cpuload"; "show memory"; "show status fan";
                      "show status temp"; "show status power"])%list.
Proof.
  intros d Hw Hd Hnone.
  destruct (get_environment_run d Hw Hd) as (e & c & m & f & t & p & d' & Hrun & Hex).
  exists d'. split.
  - rewrite Hrun, Hnone. reflexivity.
  - rewrite Hex, map_app. reflexivity.
Qed.

Lemma cpu_loop (rs : list (gmap string string)) :
  forall acc m,
    for_each cpu_step acc rs = ok m ->
    match last rs with
    | None => m = acc
    | Some entry =>
        exists u usage,
          field entry "cpu_average_1min" = ok u /\ float_of_str u = ok usage
          /\ m = <["CPU" := usage]> acc
    end.
Proof.
  induction rs as [|entry rs IH]; intros acc m Hloop; cbn [for_each] in Hloop.
  - injection Hloop as <-. reflexivity.
  - unfold rbind at 1 in Hloop. unfold cpu_step, rbind in Hloop.
    destruct (field entry "cpu_average_1min") as [e|u] eqn:Eu; [discriminate|].
    destruct (float_of_str u) as [e|usage] eqn:Ef; [discriminate|].
    specialize (IH _ _ Hloop).
    destruct rs as [|entry' rs].
    + cbn in IH |- *. subst m. exists u, usage. auto.
    + rewrite last_cons_cons.
      destruct (last (entry' :: rs)) as [e'|] eqn:El.
      * destruct IH as (u' & usage' & Hu' & Hf' & ->).
        exists u', usage'. repeat split; try assumption.
        apply insert_insert_eq.
      * apply last_None in El. discriminate.
Qed.

(** X17.  Every CPU record is written under the one key [CPU]: when
    [get_environment] returns, [cpu] is empty if there was no record, and
    otherwise holds that one key with the one-minute average of the last
    record. *)
Theorem cpu_last_record :
  forall (d : driver) env d',
    get_environment d = (ok env, d') ->
    exists cpuload d0 d1 rs,
      _send_command (Single "show cpuload") true d0 = (ok cpuload, d1)
      /\ entries cpuload = ok rs
      /\ match last rs with
         | None => env_cpu env = ∅
         | Some entry =>
             exists u usage,
               field entry "cpu_average_1min" = ok u /\ float_of_str u = ok usage
               /\ env_cpu env = <["CPU" := usage]> ∅
         end.
Proof.
  intros d env d' Hg.
  destruct (get_environment_ok d env d' Hg)
    as (d0 & cpuload & d1 & memory & d2 & fan & d3 & temp & d4 & power
        & Hc & _ & _ & _ & _ & Henv).
  destruct (environment_of_ok _ _ _ _ _ _ Henv)
    as (total & used & frs & trs & prs & crs & _ & _ & _ & _ & _ & _ & _ & _ & _ & Hce & Hcl).
  exists cpuload, d0, d1, crs. repeat split; [exact Hc | exact Hce |].
  exact (cpu_loop crs _ _ Hcl).
Qed.

End EnvironmentParts.

(** X12 on the appliance. *)
Lemma get_environment_exchanges_witness :
  exists e c m f t p d',
    @get_environment Scenario.appliance Sample.floats
                     (@Driver Scenario.appliance (Some 0%nat) [])
    = (@environment_of Sample.floats
         (@nm_textfsm Scenario.appliance "show cpuload" c)
         (@nm_textfsm Scenario.appliance "show memory" m)
         (@nm_textfsm Scenario.appliance "show status fan" f)
         (@nm_textfsm Scenario.appliance "show status temp" t)
         (@nm_textfsm Scenario.appliance "show status power" p), d')
    /\ exchanges_of (trace d')
       = ([] ++
          [("enable", e); ("show cpuload", c); ("show memory", m);
           ("show status fan", f); ("show status temp", t); ("show status power", p)])%list.
Proof.
  apply (@get_environment_exchanges Scenario.appliance Sample.floats
           (@Driver Scenario.appliance (Some 0%nat) [])).
  - exact appliance_well_behaved.
  - exists 0%nat. reflexivity.
Defined.

(** X13 on the appliance, which has a running and a stopped fan. *)
Lemma fans_status_witness :
  exists env d',
    @get_environment Scenario.appliance Sample.floats
                     (@Driver Scenario.appliance (Some 0%nat) []) = (ok env, d')
    /\ exists fan d2 d3 rs,
         @_send_command Scenario.appliance (Single "show status fan") true d2 = (ok fan, d3)
         /\ entries fan = ok rs
         /\ (forall entry, In entry rs ->
               exists key b, fan_reading entry key b /\ is_Some (env_fans env !! key))
         /\ (forall key b, env_fans env !! key = Some b ->
               exists entry, In entry rs /\ fan_reading entry key b).
Proof.
  destruct (@get_environment Scenario.appliance Sample.floats
              (@Driver Scenario.appliance (Some 0%nat) []))
    as [[e|env] d'] eqn:Hg; [raises_on_run Hg|].
  exists env, d'. split; [reflexivity|].
  exact (@fans_status Scenario.appliance Sample.floats _ env d' Hg).
Defined.

(** X14 on the appliance, which has a good and a failed power supply. *)
Lemma power_status_witness :
  exists env d',
    @get_environment Scenario.appliance Sample.floats
                     (@Driver Scenario.appliance (Some 0%nat) []) = (ok env, d')
    /\ exists power d4 rs,
         @_send_command Scenario.appliance (Single "show status power") true d4 = (ok power, d')
         /\ entries power = ok rs
         /\ (forall entry, In entry rs ->
               exists key p, power_reading entry key p /\ is_Some (env_power env !! key))
         /\ (forall key p, env_power env !! key = Some p ->
               capacity p = None /\ output p = None
               /\ exists entry st, In entry rs /\ field entry "power_name" = ok key
                                   /\ field entry "power_status" = ok st
                                   /\ (status p = true <-> st = "OK")).
Proof.
  destruct (@get_environment Scenario.appliance Sample.floats
              (@Driver Scenario.appliance (Some 0%nat) []))
    as [[e|env] d'] eqn:Hg; [raises_on_run Hg|].
  exists env, d'. split; [reflexivity|].
  exact (@power_status Scenario.appliance Sample.floats _ env d' Hg).
Defined.

(** X15 on the appliance, whose answer to [show memory] has two records. *)
Lemma memory_first_record_witness :
  exists env d',
    @get_environment Scenario.appliance Sample.floats
                     (@Driver Scenario.appliance (Some 0%nat) []) = (ok env, d')
    /\ exists memory d1 d2 entry rest total used,
         @_send_command Scenario.appliance (Single "show memory") true d1 = (ok memory, d2)
         /\ memory = Records (entry :: rest)
         /\ field entry "mem_total" = ok total /\ field entry "mem_used" = ok used
         /\ int_of_str total = ok (available_ram (env_memory env))
         /\ int_of_str used = ok (used_ram (env_memory env)).
Proof.
  destruct (@get_environment Scenario.appliance Sample.floats
              (@Driver Scenario.appliance (Some 0%nat) []))
    as [[e|env] d'] eqn:Hg; [raises_on_run Hg|].
  exists env, d'. split; [reflexivity|].
  exact (@memory_first_record Scenario.appliance Sample.floats _ env d' Hg).
Defined.

Lemma silent_well_behaved : @well_behaved Scenario.silent.
Proof.
  apply scenario_well_behaved; [discriminate|]. intros cmd. eexists. reflexivity.
Qed.

(** X16 on the appliance for which no template extracts a record. *)
Lemma memory_without_records_witness :
  exists d',
    @get_environment Scenario.silent Sample.floats (@Driver Scenario.silent (Some 0%nat) [])
    = (raise (IndexError "list index out of range"), d')
    /\ map fst (exchanges_of (trace d'))
       = ([] ++ ["enable"; "show cpuload"; "show memory"; "show status fan";
                 "show status temp"; "show status power"])%list.
Proof.
  apply (@memory_without_records Scenario.silent Sample.floats
           (@Driver Scenario.silent (Some 0%nat) [])).
  - exact silent_well_behaved.
  - exists 0%nat. reflexivity.
  - intros raw. reflexivity.
Defined.

(** X17 on the appliance, whose answer to [show cpuload] has two records. *)
Lemma cpu_last_record_witness :
  exists env d',
    @get_environment Scenario.appliance Sample.floats
                     (@Driver Scenario.appliance (Some 0%nat) []) = (ok env, d')
    /\ exists cpuload d0 d1 rs,
         @_send_command Scenario.appliance (Single "show cpuload") true d0 = (ok cpuload, d1)
         /\ entries cpuload = ok rs
         /\ match last rs with
            | None => env_cpu env = ∅
            | Some entry =>
                exists u usage,
                  field entry "cpu_average_1min" = ok u
                  /\ @float_of_str Sample.floats u = ok usage
                  /\ env_cpu env = <["CPU" := usage]> ∅
            end.
Proof.
  destruct (@get_environment Scenario.appliance Sample.floats
              (@Driver Scenario.appliance (Some 0%nat) []))
    as [[e|env] d'] eqn:Hg; [raises_on_run Hg|].
  exists env, d'. split; [reflexivity|].
  exact (@cpu_last_record Scenario.appliance Sample.floats _ env d' Hg).
Defined.

(** ** [get_facts] *)

Section FactsProperties.
Context `{Netmiko} `{StringParsers}.

Lemma get_facts_run (d : driver) :
  well_behaved -> is_Some (device d) ->
  exists e s u b h d',
    get_facts d
    = (facts_of (nm_textfsm "show system" s) (nm_textfsm "show uptime" u)
                (nm_textfsm "show ip interface brief" b)
                (nm_textfsm "show running-config hostname" h), d')
    /\ exchanges_of (trace d')
       = (exchanges_of (trace d) ++
          [("enable", e); ("show system", s); ("show uptime", u);
           ("show ip interface brief", b); ("show running-config hostname", h)])%list.
Proof.
  intros Hw Hd.
  destruct (enable_ok d Hw Hd) as (e & d0 & Hen & Hd0 & Hex0).
  destruct (send_single_exchanges true "show system" d0 Hw Hd0) as (s & d1 & R1 & Hd1 & Hex1).
  destruct (send_single_exchanges true "show uptime" d1 Hw Hd1) as (u & d2 & R2 & Hd2 & Hex2).
  destruct (send_single_exchanges true "show ip interface brief" d2 Hw Hd2)
    as (b & d3 & R3 & Hd3 & Hex3).
  destruct (send_single_exchanges true "show running-config hostname" d3 Hw Hd3)
    as (h & d4 & R4 & Hd4 & Hex4).
  exists e, s, u, b, h, d4. split.
  - unfold get_facts.
    rewrite (bind_ok _ _ _ _ _ Hen), (bind_ok _ _ _ _ _ R1), (bind_ok _ _ _ _ _ R2),
      (bind_ok _ _ _ _ _ R3), (bind_ok _ _ _ _ _ R4).
    reflexivity.
  - rewrite Hex4, Hex3, Hex2, Hex1, Hex0, <- !app_assoc. reflexivity.
Qed.

(** X18.  On a session whose exchanges succeed, [get_facts] sends
    [enable] and its four [show] commands in a fixed order, all of them
    before any record is read, and its result, value or exception, is what
    [facts_of] makes of the four structured answers. *)
Theorem get_facts_exchanges :
  forall (d : driver),
    well_behaved -> is_Some (device d) ->
    exists e s u b h d',
      get_facts d
      = (facts_of (nm_textfsm "show system" s) (nm_textfsm "show uptime" u)
                  (nm_textfsm "show ip interface brief" b)
                  (nm_textfsm "show running-config hostname" h), d')
      /\ exchanges_of (trace d')
         = (exchanges_of (trace d) ++
            [("enable", e); ("show system", s); ("show uptime", u);
             ("show ip interface brief", b); ("show running-config hostname", h)])%list.
Proof. intros d Hw Hd. exact (get_facts_run d Hw Hd). Qed.

Lemma interface_loop (rs : list (gmap string string)) :
  forall acc names,
    for_each interface_step acc rs = ok names ->
    exists new, names = (acc ++ new)%list
                /\ Forall2 (fun entry name => field entry "interface" = ok name) rs new.
Proof.
  induction rs as [|entry rs IH]; intros acc names Hloop; cbn [for_each] in Hloop.
  - injection Hloop as <-. exists []. rewrite app_nil_r. split; constructor.
  - unfold rbind at 1 in Hloop. unfold interface_step, rbind in Hloop.
    destruct (field entry "interface") as [e|name] eqn:En; [discriminate|].
    destruct (IH _ _ Hloop) as (new & -> & Hall).
    exists (name :: new). rewrite <- app_assoc. split; [reflexivity|].
    constructor; assumption.
Qed.

(** X19.  When [get_facts] returns: the vendor is [Dasan] and the FQDN
    empty; the uptime is [_format_uptime] of the field [uptime] of the
    first uptime record; version, serial number and model are fields of the
    first system record and the host name a field of the first host-name
    record; the interface list is [sorted_nicely] of the [interface] fields
    of all the interface records, in their order. *)
Theorem get_facts_fields :
  forall (d : driver) data d',
    get_facts d = (ok data, d') ->
    facts_vendor data = "Dasan" /\ facts_fqdn data = ""
    /\ exists d0 system d1 uptime d2 brief d3 host text rs names,
         _send_command (Single "show system") true d0 = (ok system, d1)
         /\ _send_command (Single "show uptime") true d1 = (ok uptime, d2)
         /\ _send_command (Single "show ip interface brief") true d2 = (ok brief, d3)
         /\ _send_command (Single "show running-config hostname") true d3 = (ok host, d')
         /\ first_field uptime "uptime" = ok text
         /\ _format_uptime text = ok (facts_uptime data)
         /\ first_field system "sw_version" = ok (facts_os_version data)
         /\ first_field system "serial" = ok (facts_serial_number data)
         /\ first_field system "model" = ok (facts_model data)
         /\ first_field host "hostname" = ok (facts_hostname data)
         /\ entries brief = ok rs
         /\ Forall2 (fun entry name => field entry "interface" = ok name) rs names
         /\ facts_interface_list data = sorted_nicely names.
Proof.
  intros d data d' Hg. unfold get_facts, bind, lift in Hg.
  destruct (_enable d) as [[e|[]] d0]; [discriminate|].
  destruct (_send_command (Single "show system") true d0) as [[e|system] d1] eqn:E1;
    [discriminate|].
  destruct (_send_command (Single "show uptime") true d1) as [[e|uptime] d2] eqn:E2;
    [discriminate|].
  destruct (_send_command (Single "show ip interface brief") true d2) as [[e|brief] d3] eqn:E3;
    [discriminate|].
  destruct (_send_command (Single "show running-config hostname") true d3)
    as [[e|host] d4] eqn:E4; [discriminate|].
  injection Hg as Hf <-. unfold facts_of, rbind in Hf.
  destruct (first_field uptime "uptime") as [e|text] eqn:F1; [discriminate|].
  destruct (_format_uptime text) as [e|seconds] eqn:F2; [discriminate|].
  destruct (first_field system "sw_version") as [e|os] eqn:F3; [discriminate|].
  destruct (first_field system "serial") as [e|serial] eqn:F4; [discriminate|].
  destruct (first_field system "model") as [e|model] eqn:F5; [discriminate|].
  destruct (first_field host "hostname") as [e|hn] eqn:F6; [discriminate|].
  destruct (entries brief) as [e|rs] eqn:F7; [discriminate|].
  destruct (for_each interface_step [] rs) as [e|names] eqn:F8; [discriminate|].
  injection Hf as <-. cbn.
  destruct (interface_loop rs [] names F8) as (new & -> & Hall).
  split; [reflexivity|]. split; [reflexivity|].
  exists d0, system, d1, uptime, d2, brief, d3, host, text, rs, new.
  repeat split; assumption.
Qed.

(** X20.  On a session whose exchanges succeed, when [_format_uptime]
    raises on the uptime text extracted, [get_facts] raises that exception,
    after all five commands were sent. *)
Theorem get_facts_uptime_error :
  forall (d : driver) text e,
    well_behaved -> is_Some (device d) ->
    (forall raw, first_field (nm_textfsm "show uptime" raw) "uptime" = ok text) ->
    _format_uptime text = raise e ->
    exists d', get_facts d = (raise e, d')
               /\ map fst (exchanges_of (trace d'))
                  = (map fst (exchanges_of (trace d)) ++
                     ["enable"; "show system"; "show uptime"; "show ip interface brief";
                      "show running-config hostname"])%list.
Proof.
  intros d text e Hw Hd Hup Hfmt.
  destruct (get_facts_run d Hw Hd) as (en & s & u & b & h & d' & Hrun & Hex).
  exists d'. split.
  - rewrite Hrun. unfold facts_of. rewrite Hup. cbn [rbind ok]. rewrite Hfmt. reflexivity.
  - rewrite Hex, map_app. reflexivity.
Qed.

End FactsProperties.

(** X18 on the appliance. *)
Lemma get_facts_exchanges_witness :
  exists e s u b h d',
    @get_facts Scenario.appliance Scenario.parsers
               (@Driver Scenario.appliance (Some 0%nat) [])
    = (@facts_of Scenario.parsers
         (@nm_textfsm Scenario.appliance "show system" s)
         (@nm_textfsm Scenario.appliance "show uptime" u)
         (@nm_textfsm Scenario.appliance "show ip interface brief" b)
         (@nm_textfsm Scenario.appliance "show running-config hostname" h), d')
    /\ exchanges_of (trace d')
       = ([] ++
          [("enable", e); ("show system", s); ("show uptime", u);
           ("show ip interface brief", b); ("show running-config hostname", h)])%list.
Proof.
  apply (@get_facts_exchanges Scenario.appliance Scenario.parsers
           (@Driver Scenario.appliance (Some 0%nat) [])).
  - exact appliance_well_behaved.
  - exists 0%nat. reflexivity.
Defined.

(** X19 on the appliance. *)
Lemma get_facts_fields_witness :
  exists data d',
    @get_facts Scenario.appliance Scenario.parsers
               (@Driver Scenario.appliance (Some 0%nat) []) = (ok data, d')
    /\ facts_vendor data = "Dasan" /\ facts_fqdn data = ""
    /\ exists d0 system d1 uptime d2 brief d3 host text rs names,
         @_send_command Scenario.appliance (Single "show system") true d0 = (ok system, d1)
         /\ @_send_command Scenario.appliance (Single "show uptime") true d1 = (ok uptime, d2)
         /\ @_send_command Scenario.appliance (Single "show ip interface brief") true d2
            = (ok brief, d3)
         /\ @_send_command Scenario.appliance (Single "show running-config hostname") true d3
            = (ok host, d')
         /\ first_field uptime "uptime" = ok text
         /\ _format_uptime text = ok (facts_uptime data)
         /\ first_field system "sw_version" = ok (facts_os_version data)
         /\ first_field system "serial" = ok (facts_serial_number data)
         /\ first_field system "model" = ok (facts_model data)
         /\ first_field host "hostname" = ok (facts_hostname data)
         /\ entries brief = ok rs
         /\ Forall2 (fun entry name => field entry "interface" = ok name) rs names
         /\ facts_interface_list data = @sorted_nicely Scenario.parsers names.
Proof.
  destruct (@get_facts Scenario.appliance Scenario.parsers
              (@Driver Scenario.appliance (Some 0%nat) []))
    as [[e|data] d'] eqn:Hg; [raises_on_run Hg|].
  exists data, d'. split; [reflexivity|].
  exact (@get_facts_fields Scenario.appliance Scenario.parsers _ data d' Hg).
Defined.

Lemma young_well_behaved : @well_behaved Scenario.young.
Proof.
  apply scenario_well_behaved; [discriminate|]. intros cmd. eexists. reflexivity.
Qed.

(** X20 on the appliance shortly after a restart, whose uptime has no
    days and no hours. *)
Lemma get_facts_uptime_error_witness :
  exists d',
    @get_facts Scenario.young Scenario.parsers (@Driver Scenario.young (Some 0%nat) [])
    = (raise (TypeError "int() argument must be a string, a bytes-like object or a real number, not 'NoneType'"), d')
    /\ map fst (exchanges_of (trace d'))
       = ([] ++ ["enable"; "show system"; "show uptime"; "show ip interface brief";
                 "show running-config hostname"])%list.
Proof.
  apply (@get_facts_uptime_error Scenario.young Scenario.parsers
           (@Driver Scenario.young (Some 0%nat) []) "17 minutes 25 seconds").
  - exact young_well_behaved.
  - exists 0%nat. reflexivity.
  - intros raw. reflexivity.
  - vm_compute. reflexivity.
Defined.

(** ** [_format_uptime]: the texts it accepts *)

Module UptimeDomain.
Import Re ReFacts Redaction RedactionFacts Shape UptimeFacts.

Lemma uptime_re_shape : p_re uptime_pattern = uptime_re.
Proof. vm_compute. reflexivity. Qed.

Lemma first_some_in {A B} (f : A -> option B) l b :
  first_some f l = Some b -> exists a, In a l /\ f a = Some b.
Proof.
  induction l as [|x l IH]; cbn [first_some]; [discriminate|].
  destruct (f x) as [y|] eqn:E.
  - intros [= <-]. exists x. split; [now left | exact E].
  - intros Hl. destruct (IH Hl) as (a & Hin & Ha). exists a. split; [now right | exact Ha].
Qed.

Lemma runs_lit_in ml (p : string) : forall s cs y,
  In y (runs ml (lit p REmpty) s cs) -> s = p ++ y.1 /\ y.2 = cs.
Proof.
  induction p as [|c p IH]; intros s cs y Hin; cbn [lit runs] in Hin.
  - destruct Hin as [<-|[]]. split; reflexivity.
  - apply in_flat_map in Hin as (z & Hz & Hy).
    destruct s as [|a s]; [contradiction|].
    destruct (atom_matches (ALit c) a) eqn:Ea; [|contradiction].
    destruct Hz as [<-|[]]. cbn [fst snd] in Hy.
    destruct (IH _ _ _ Hy) as [-> ->].
    cbn [atom_matches] in Ea. apply Ascii.eqb_eq in Ea. subst a.
    split; reflexivity.
Qed.

Lemma runs_num_in ml i s cs y :
  In y (runs ml (num i) s cs) ->
  exists ds, is_number ds /\ s = ds ++ y.1 /\ y.2 = (i, ds) :: cs.
Proof.
  unfold num. cbn [runs]. intros Hin.
  apply in_map_iff in Hin as (z & <- & Hz).
  apply in_flat_map in Hz as (w & Hw & Hz).
  apply in_map_iff in Hw as (t & <- & Ht).
  cbn [fst snd] in Hz. destruct Hz as [<-|[]]. cbn [fst snd].
  apply rep_runs_sound in Ht as (pre & -> & Hall & Hlen).
  exists pre. repeat split.
  - intros ->. simpl in Hlen. lia.
  - exact Hall.
  - now rewrite consumed_append.
Qed.

Lemma runs_unit_in ml i word s cs y :
  In y (runs ml (unit_opt i word) s cs) ->
  y = (s, cs)
  \/ exists ds, is_number ds /\ s = ds ++ word ++ y.1 /\ y.2 = (i, ds) :: cs.
Proof.
  unfold unit_opt. cbn [runs]. intros Hin.
  apply in_app_or in Hin as [Hin|[<-|[]]]; [right | now left].
  apply in_flat_map in Hin as (z & Hz & Hy).
  destruct (runs_num_in _ _ _ _ _ Hz) as (ds & Hds & -> & Hcs).
  destruct (runs_lit_in _ _ _ _ _ Hy) as [Hz1 Hy2].
  exists ds. rewrite Hz1, Hy2, Hcs. auto.
Qed.

(** What a match of the expression holds, by the groups it captured. *)
Lemma uptime_re_in s y :
  In y (runs false uptime_re s []) ->
  cap_lookup 1 y.2 <> None -> cap_lookup 2 y.2 <> None -> cap_lookup 3 y.2 <> None ->
  exists d h m sec,
    is_number d /\ is_number h /\ is_number m /\ is_number sec
    /\ s = duration d h m sec ++ y.1.
Proof.
  unfold uptime_re. intros Hin H1 H2 H3.
  cbn [runs] in Hin.
  apply in_flat_map in Hin as (z1 & Hz1 & Hin).
  apply in_flat_map in Hin as (z2 & Hz2 & Hin).
  apply in_flat_map in Hin as (z3 & Hz3 & Hin).
  change (In y (runs false (RCat (num 4) (lit " seconds" REmpty)) z3.1 z3.2)) in Hin.
  cbn [runs] in Hin. apply in_flat_map in Hin as (z4 & Hz4 & Hy).
  change (In z1 (runs false (unit_opt 1 " days ") s [])) in Hz1.
  change (In z2 (runs false (unit_opt 2 " hours ") z1.1 z1.2)) in Hz2.
  change (In z3 (runs false (unit_opt 3 " minutes ") z2.1 z2.2)) in Hz3.
  change (In z4 (runs false (num 4) z3.1 z3.2)) in Hz4.
  change (In y (runs false (lit " seconds" REmpty) z4.1 z4.2)) in Hy.
  destruct (runs_num_in _ _ _ _ _ Hz4) as (sec & Hsec & E4 & C4).
  destruct (runs_lit_in _ _ _ _ _ Hy) as [E5 C5].
  rewrite C5, C4 in H1, H2, H3.
  destruct (runs_unit_in _ _ _ _ _ _ Hz3) as [->|(m & Hm & E3 & C3)];
    destruct (runs_unit_in _ _ _ _ _ _ Hz2) as [->|(h & Hh & E2 & C2)];
    destruct (runs_unit_in _ _ _ _ _ _ Hz1) as [->|(d & Hd & E1 & C1)];
    cbn [fst snd] in *;
    rewrite ?C3, ?C2, ?C1 in H1, H2, H3; cbn in H1, H2, H3; try congruence.
  exists d, h, m, sec. repeat split; try apply Hd; try apply Hh; try apply Hm; try apply Hsec.
  rewrite E1, E2, E3, E4, E5. unfold duration. rewrite !append_assoc. reflexivity.
Qed.

Lemma uptime_loop_groups acc (c1 c2 c3 c4 : option string) total :
  uptime_loop acc [("days", c1); ("hours", c2); ("minutes", c3); ("seconds", c4)] = ok total ->
  c1 <> None /\ c2 <> None /\ c3 <> None.
Proof.
  cbn [uptime_loop uptime_step String.eqb Ascii.eqb Bool.eqb]. unfold rbind.
  intros Hl.
  destruct c1 as [d|]; [|discriminate].
  destruct (py_int (Some d)) as [e|n1]; [discriminate|].
  destruct (float_add_int acc (n1 * 86400)) as [e|a1]; [discriminate|].
  destruct c2 as [h|]; [|discriminate].
  destruct (py_int (Some h)) as [e|n2]; [discriminate|].
  destruct (float_add_int a1 (n2 * 3600)) as [e|a2]; [discriminate|].
  destruct c3 as [m|]; [|discriminate].
  repeat split; discriminate.
Qed.

Lemma rep_runs_greedy p (c : ascii) (t : string) :
  p c = false ->
  forall ds min, Str.all p ds = true -> (min <= String.length ds)%nat ->
    exists l, rep_runs p min (ds ++ String c t) = String c t :: l.
Proof.
  intros Hc. induction ds as [|a ds IH]; intros min Hall Hmin; unapp.
  - simpl in Hmin. assert (min = O) as -> by lia.
    cbn [rep_runs]. rewrite Hc. exists []. reflexivity.
  - simpl in Hall. apply andb_true_iff in Hall as [Ha Hds].
    cbn [rep_runs]. rewrite Ha.
    destruct (IH (Nat.pred min) Hds) as [l ->]; [simpl in Hmin; lia|].
    eexists. reflexivity.
Qed.

Lemma runs_lit_app ml (p rest : string) cs :
  runs ml (lit p REmpty) (p ++ rest) cs = [(rest, cs)].
Proof.
  induction p as [|c p IH]; unapp; cbn [lit runs]; [reflexivity|].
  cbn [atom_matches]. rewrite Ascii.eqb_refl. cbn [flat_map fst snd].
  rewrite IH. reflexivity.
Qed.

Lemma runs_num_greedy ml i (ds : string) (c : ascii) (t : string) cs :
  is_number ds -> Str.is_digit c = false ->
  exists l, runs ml (num i) (ds ++ String c t) cs = (String c t, (i, ds) :: cs) :: l.
Proof.
  intros [Hne Hds] Hc. unfold num. cbn [runs].
  destruct (rep_runs_greedy (atom_matches (ACat CatDigit)) c t Hc ds 1 Hds) as [l ->].
  { destruct ds; [congruence | simpl; lia]. }
  cbn [map flat_map fst snd app]. rewrite consumed_append. eexists. reflexivity.
Qed.

Lemma digit_run_unique (a b : string) (c1 c2 : ascii) (t1 t2 : string) :
  Str.all Str.is_digit a = true -> Str.all Str.is_digit b = true ->
  Str.is_digit c1 = false -> Str.is_digit c2 = false ->
  a ++ String c1 t1 = b ++ String c2 t2 -> a = b /\ String c1 t1 = String c2 t2.
Proof.
  revert b. induction a as [|x a IH]; intros b Ha Hb H1 H2 E; unapp.
  - destruct b as [|y b]; unapp; [split; [reflexivity | exact E]|].
    injection E as -> _. simpl in Hb. rewrite H1 in Hb. discriminate.
  - simpl in Ha. apply andb_true_iff in Ha as [Hx Ha].
    destruct b as [|y b]; unapp.
    + injection E as -> _. rewrite H2 in Hx. discriminate.
    + injection E as -> E. simpl in Hb. apply andb_true_iff in Hb as [_ Hb].
      destruct (IH b Ha Hb H1 H2 E) as [-> Ht]. split; [reflexivity | exact Ht].
Qed.

(** A unit whose word differs from [ seconds] in its second character
    takes no part in a match of a text that begins with seconds. *)
Lemma runs_unit_skipped ml i (w : ascii) (word sec rest : string) cs :
  w <> "s"%char -> is_number sec ->
  runs ml (unit_opt i (String " " (String w word))) (sec ++ " seconds" ++ rest) cs
  = [(sec ++ " seconds" ++ rest, cs)].
Proof.
  intros Hw [Hne Hsec]. unfold unit_opt. cbn [runs].
  destruct (flat_map _ _) as [|y l] eqn:E; [reflexivity|]. exfalso.
  assert (Hin : In y (flat_map
            (fun y => runs ml (lit (String " " (String w word)) REmpty) y.1 y.2)
            (runs ml (num i) (sec ++ " seconds" ++ rest) cs))) by (rewrite E; now left).
  apply in_flat_map in Hin as (z & Hz & Hy).
  destruct (runs_num_in _ _ _ _ _ Hz) as (ds & [_ Hds] & Es & _).
  destruct (runs_lit_in _ _ _ _ _ Hy) as [Ez _].
  rewrite Ez in Es. unapp.
  destruct (digit_run_unique sec ds " " " " _ _ Hsec Hds eq_refl eq_refl Es) as [_ Ht].
  injection Ht as Hs _. apply Hw. now symmetry.
Qed.

Lemma uptime_match_seconds_only (sec rest : string) :
  is_number sec ->
  match_here false false uptime_re (sec ++ " seconds" ++ rest) = Some (rest, [(4%nat, sec)]).
Proof.
  intros Hsec. unfold match_here. rewrite re_m_runs. unfold uptime_re.
  cbn [runs].
  change (ROpt (RCat (num 1) (lit " days " REmpty))) with (unit_opt 1 " days ").
  change (ROpt (RCat (num 2) (lit " hours " REmpty))) with (unit_opt 2 " hours ").
  change (ROpt (RCat (num 3) (lit " minutes " REmpty))) with (unit_opt 3 " minutes ").
  rewrite (runs_unit_skipped false 1 "d" "ays " sec rest [] ltac:(discriminate) Hsec).
  cbn [flat_map fst snd]. rewrite app_nil_r.
  rewrite (runs_unit_skipped false 2 "h" "ours " sec rest [] ltac:(discriminate) Hsec).
  cbn [flat_map fst snd]. rewrite app_nil_r.
  rewrite (runs_unit_skipped false 3 "m" "inutes " sec rest [] ltac:(discriminate) Hsec).
  cbn [flat_map fst snd]. rewrite app_nil_r.
  change (" seconds" ++ rest) with (String " " ("seconds" ++ rest)).
  destruct (runs_num_greedy false 4 sec " " ("seconds" ++ rest) [] Hsec eq_refl) as [l ->].
  cbn [flat_map fst snd].
  change (String " " ("seconds" ++ rest)) with (" seconds" ++ rest).
  rewrite runs_lit_app. reflexivity.
Qed.

End UptimeDomain.

(** X21.  [_format_uptime] returns a number only for a text that begins
    with a full duration, days, hours, minutes and seconds all present. *)
Theorem format_uptime_only_full_durations :
  forall (s : string) (n : Z),
    _format_uptime s = ok n ->
    exists d h m sec rest,
      is_number d /\ is_number h /\ is_number m /\ is_number sec
      /\ s = (duration d h m sec ++ rest)%string.
Proof.
  intros s n Hf. rewrite UptimeFacts.format_uptime_unfold in Hf.
  destruct (uptime_match s) as [mo|] eqn:Em; [|discriminate].
  unfold uptime_match, Re.re_match in Em.
  destruct (Re.match_here false false (Re.p_re uptime_pattern) s) as [[rest cs]|] eqn:Eh;
    [|discriminate].
  injection Em as <-. unfold Re.groupdict in Hf.
  cbn [Re.p_names uptime_pattern map Re.m_caps] in Hf.
  unfold rbind in Hf.
  destruct (uptime_loop 0 _) as [e|total] eqn:El in Hf; [discriminate|].
  apply UptimeDomain.uptime_loop_groups in El as (H1 & H2 & H3).
  unfold Re.match_here in Eh.
  rewrite RedactionFacts.re_m_runs, UptimeDomain.uptime_re_shape in Eh.
  apply UptimeDomain.first_some_in in Eh as (y & Hin & Hy).
  cbn [andb] in Hy. injection Hy as <- <-.
  destruct (UptimeDomain.uptime_re_in s y Hin H1 H2 H3) as (d & h & m & sec & Hd & Hh & Hm & Hs & E).
  exists d, h, m, sec, y.1. auto.
Qed.

(** X22.  On a text that begins with seconds alone, [<s> seconds],
    [_format_uptime] raises [TypeError]: the group for days took no part in
    the match and [int] is applied to [None]. *)
Theorem format_uptime_seconds_only :
  forall sec rest : string,
    is_number sec ->
    _format_uptime (sec ++ " seconds" ++ rest)
    = raise (TypeError "int() argument must be a string, a bytes-like object or a real number, not 'NoneType'").
Proof.
  intros sec rest Hsec. rewrite UptimeFacts.format_uptime_unfold.
  unfold uptime_match, Re.re_match.
  rewrite UptimeDomain.uptime_re_shape, (UptimeDomain.uptime_match_seconds_only sec rest Hsec).
  reflexivity.
Qed.

(** X21 on the duration of the specification. *)
Lemma format_uptime_only_full_durations_witness :
  exists d h m sec rest,
    is_number d /\ is_number h /\ is_number m /\ is_number sec
    /\ "9 days 6 hours 17 minutes 25 seconds" = (duration d h m sec ++ rest)%string.
Proof.
  apply (format_uptime_only_full_durations "9 days 6 hours 17 minutes 25 seconds" 800245%Z).
  vm_compute. reflexivity.
Defined.

(** X22 on 45 seconds. *)
Lemma format_uptime_seconds_only_witness :
  _format_uptime ("45" ++ " seconds" ++ "")
  = raise (TypeError "int() argument must be a string, a bytes-like object or a real number, not 'NoneType'").
Proof.
  apply (format_uptime_seconds_only "45" "").
  split; [discriminate | reflexivity].
Defined.

(** ** The constructor, [open] and [close] *)

Module LiteralFacts.
Import Re ReFacts Shape UptimeFacts.

Lemma matches_lit ml (p : string) : forall s rest,
  matches ml (lit p REmpty) s rest <-> s = p ++ rest.
Proof.
  induction p as [|c p IH]; intros s rest; cbn [lit]; unapp.
  - split; [intros Hm; now inversion Hm | intros ->; constructor].
  - split.
    + intros Hm. inversion Hm as [ | | | | | | |r1 r2 s0 mid rest0 H1 H2]; subst.
      inversion H1 as [ |a x t Ha| | | | | | ]; subst.
      cbn [atom_matches] in Ha. apply Ascii.eqb_eq in Ha. subst x.
      apply IH in H2. now subst.
    + intros ->. econstructor; [constructor; apply Ascii.eqb_refl | now apply IH].
Qed.

Lemma starts_with_inv (p s : string) :
  Str.starts_with p s = true -> exists rest, s = p ++ rest.
Proof.
  revert s. induction p as [|c p IH]; intros s Hs.
  - exists s. reflexivity.
  - destruct s as [|a s]; [discriminate|]. simpl in Hs.
    apply andb_true_iff in Hs as [Hc Hp]. apply Ascii.eqb_eq in Hc. subst a.
    destruct (IH s Hp) as [rest ->]. exists rest. reflexivity.
Qed.

Lemma contains_inv (p s : string) :
  Str.contains p s = true -> exists u rest, s = u ++ p ++ rest.
Proof.
  induction s as [|a s IH]; intros Hc.
  - simpl in Hc. rewrite orb_false_r in Hc.
    apply starts_with_inv in Hc as [rest ->]. exists "", rest. reflexivity.
  - cbn [Str.contains] in Hc. apply orb_true_iff in Hc as [Hs|Hc].
    + apply starts_with_inv in Hs as [rest ->]. exists "", rest. reflexivity.
    + destruct (IH Hc) as (u & rest & ->). exists (String a u), rest. reflexivity.
Qed.

(** Searching for a literal text is asking whether it is contained. *)
Lemma search_lit (p text : string) :
  match search false (Pattern (lit p REmpty) 0 []) text with
  | Some _ => true
  | None => false
  end = Str.contains p text.
Proof.
  unfold search. cbn [p_re].
  destruct (Str.contains p text) eqn:Ec.
  - apply contains_inv in Ec as (u & rest & ->).
    destruct (search_from false false (lit p REmpty) "" (u ++ p ++ rest)) eqn:Es; [reflexivity|].
    exfalso. revert Es. apply search_from_iff.
    exists u, (p ++ rest), rest. split; [reflexivity | now apply matches_lit].
  - destruct (search_from false false (lit p REmpty) "" text) eqn:Es; [|reflexivity].
    assert (Hne : search_from false false (lit p REmpty) "" text <> None) by congruence.
    apply search_from_iff in Hne as (u & s' & rest & -> & Hm).
    apply matches_lit in Hm. subst s'. rewrite contains_append in Ec. discriminate.
Qed.

End LiteralFacts.

Section OpenProperties.
Context `{Connector}.

Lemma login_incorrect_found (output : string) :
  re_found "Login incorrect" output = ok (Str.contains "Login incorrect" output).
Proof.
  unfold re_found.
  assert (Hc : re_compile "Login incorrect"
               = ok (Re.Pattern (Shape.lit "Login incorrect" Re.REmpty) 0 []))
    by (vm_compute; reflexivity).
  rewrite Hc. cbn [rbind ok]. now rewrite LiteralFacts.search_lit.
Qed.

Lemma open_unfold (self : settings) (d : driver) c output c' :
  _netmiko_open "generic" (netmiko_optional_args self) = ok c ->
  nm_test_channel_read "(>|Login incorrect)" c = (ok output, c') ->
  open self d =
  if Str.contains "Login incorrect" output then
    match _netmiko_close (Driver (Some c') (trace d)) with
    | (inr _, d') =>
        (raise (ConnectionException
                  (("Authentication failure: unable to connect to " ++
                    (hostname self ++ ":" ++ format_value (port self) ++ " ")) ++
                   Str.strip output)), d')
    | (inl e, d') => (raise e, d')
    end
  else (ok tt, Driver (Some c') (trace d)).
Proof.
  intros Ho Hr. unfold open, bind, lift, ret, throw, close. rewrite Ho. cbn [ok trace].
  rewrite Hr. unfold ok. cbv beta iota. rewrite login_incorrect_found.
  unfold ok. cbv beta iota.
  destruct (Str.contains "Login incorrect" output); [|reflexivity].
  destruct (_netmiko_close (Driver (Some c') (trace d))) as [[e|[]] d']; reflexivity.
Qed.

(** X23.  When the text read after connecting contains [Login
    incorrect], [open] closes the connection and raises
    [ConnectionException] with the message [Authentication failure: unable
    to connect to <hostname>:<port> ] followed by that text trimmed. *)
Theorem open_authentication_failure :
  forall (self : settings) (d : driver) c output c' d',
    _netmiko_open "generic" (netmiko_optional_args self) = ok c ->
    nm_test_channel_read "(>|Login incorrect)" c = (ok output, c') ->
    Str.contains "Login incorrect" output = true ->
    _netmiko_close (Driver (Some c') (trace d)) = (ok tt, d') ->
    open self d
    = (raise (ConnectionException
                ("Authentication failure: unable to connect to " ++ hostname self ++ ":"
                 ++ format_value (port self) ++ " " ++ Str.strip output)), d').
Proof.
  intros self d c output c' d' Ho Hr Hc Hclose.
  rewrite (open_unfold self d c output c' Ho Hr), Hc, Hclose.
  rewrite !ReFacts.append_assoc. reflexivity.
Qed.

(** X24.  When the text read after connecting does not contain [Login
    incorrect], [open] returns and [self.device] is the new connection. *)
Theorem open_keeps_session :
  forall (self : settings) (d : driver) c output c',
    _netmiko_open "generic" (netmiko_optional_args self) = ok c ->
    nm_test_channel_read "(>|Login incorrect)" c = (ok output, c') ->
    Str.contains "Login incorrect" output = false ->
    open self d = (ok tt, Driver (Some c') (trace d)).
Proof.
  intros self d c output c' Ho Hr Hc.
  rewrite (open_unfold self d c output c' Ho Hr), Hc. reflexivity.
Qed.

(** X25.  After the constructor: the port is the one of
    [optional_args], 22 when there is none; a user name or a password in
    [optional_args] replaces the positional one; and the arguments for
    netmiko hold a port, the one [netmiko_args] gave if it gave one and the
    driver's port otherwise, every other key being as [netmiko_args] gave
    it. *)
Theorem init_settings :
  forall (host user pass : string) (seconds : Z)
         (given : option (gmap string value)) (args : gmap string value),
    netmiko_args given = ok args ->
    exists self,
      __init__ host user pass seconds given = ok (self, Driver None [])
      /\ hostname self = host
      /\ port self = match given with
                     | Some o => match o !! "port" with Some v => v | None => VInt 22 end
                     | None => VInt 22
                     end
      /\ username self = match given with
                         | Some o => match o !! "username" with Some v => v | None => VStr user end
                         | None => VStr user
                         end
      /\ password self = match given with
                         | Some o => match o !! "password" with Some v => v | None => VStr pass end
                         | None => VStr pass
                         end
      /\ netmiko_optional_args self !! "port"
         = Some (match args !! "port" with Some v => v | None => port self end)
      /\ (forall key, key <> "port" -> netmiko_optional_args self !! key = args !! key).
Proof.
  intros host user pass seconds given args Hargs.
  unfold __init__. rewrite Hargs. cbn [rbind ok].
  eexists. split; [reflexivity|].
  cbn [hostname port username password netmiko_optional_args].
  split; [reflexivity|].
  split; [destruct given as [o|]; unfold dict_get; [reflexivity | now rewrite lookup_empty]|].
  split; [destruct given as [o|]; unfold dict_get; [reflexivity | now rewrite lookup_empty]|].
  split; [destruct given as [o|]; unfold dict_get; [reflexivity | now rewrite lookup_empty]|].
  unfold setdefault. split.
  - destruct (args !! "port") as [v|] eqn:Ep; [exact Ep | apply lookup_insert_eq].
  - intros key Hk. destruct (args !! "port"); [reflexivity|].
    now rewrite lookup_insert_ne by congruence.
Qed.

(** X26.  On a driver just constructed, before [open]: [is_alive]
    answers false, and [_send_command], [get_config] and [cli] with at
    least one command raise [AttributeError] (the session is [None]),
    leaving the driver as it was. *)
Theorem fresh_driver_has_no_session :
  forall (host user pass : string) (seconds : Z)
         (given : option (gmap string value)) self (d : driver),
    __init__ host user pass seconds given = ok (self, d) ->
    is_alive d = (ok false, d)
    /\ (forall command use_textfsm,
          _send_command command use_textfsm d
          = (raise (AttributeError "'NoneType' object has no attribute 'find_prompt'"), d))
    /\ (forall retrieve full sanitized,
          get_config retrieve full sanitized d
          = (raise (AttributeError "'NoneType' object has no attribute 'send_command'"), d))
    /\ (forall commands, commands <> [] ->
          cli commands "text" d
          = (raise (AttributeError "'NoneType' object has no attribute 'find_prompt'"), d)).
Proof.
  intros host user pass seconds given self d Hinit.
  unfold __init__, rbind in Hinit.
  destruct (netmiko_args given) as [e|args]; [discriminate|].
  injection Hinit as _ <-.
  split; [reflexivity|]. split; [reflexivity|]. split; [reflexivity|].
  intros [|cmd rest] Hne; [congruence | reflexivity].
Qed.

End OpenProperties.

(** X23 on a connection that answers [Login incorrect], port 22. *)
Lemma open_authentication_failure_witness :
  @open Scenario.appliance (Scenario.connector " Login incorrect ")
        (Settings "dasan_nos" "olt-1" (VStr "admin") (VStr "secret") 60 ∅ (VInt 22) ∅)
        (@Driver Scenario.appliance None [])
  = (raise (ConnectionException
              "Authentication failure: unable to connect to olt-1:22 Login incorrect"),
     @Driver Scenario.appliance None []).
Proof.
  apply (@open_authentication_failure Scenario.appliance
           (Scenario.connector " Login incorrect ")
           (Settings "dasan_nos" "olt-1" (VStr "admin") (VStr "secret") 60 ∅ (VInt 22) ∅)
           (@Driver Scenario.appliance None []) 0%nat " Login incorrect " 1%nat
           (@Driver Scenario.appliance None [])).
  - reflexivity.
  - reflexivity.
  - reflexivity.
  - reflexivity.
Defined.

(** X24 on a connection that answers with a prompt. *)
Lemma open_keeps_session_witness :
  @open Scenario.appliance (Scenario.connector "SWITCH> ")
        (Settings "dasan_nos" "olt-1" (VStr "admin") (VStr "secret") 60 ∅ (VInt 22) ∅)
        (@Driver Scenario.appliance None [])
  = (ok tt, @Driver Scenario.appliance (Some 1%nat) []).
Proof.
  apply (@open_keeps_session Scenario.appliance (Scenario.connector "SWITCH> ")
           (Settings "dasan_nos" "olt-1" (VStr "admin") (VStr "secret") 60 ∅ (VInt 22) ∅)
           (@Driver Scenario.appliance None []) 0%nat "SWITCH> " 1%nat).
  - reflexivity.
  - reflexivity.
  - reflexivity.
Defined.

(** X25 with a user name and no port in [optional_args]. *)
Lemma init_settings_witness :
  exists self,
    @__init__ Scenario.appliance (Scenario.connector "") "olt-1" "admin" "secret" 60
              (Some {["username" := VStr "operator"]})
    = ok (self, @Driver Scenario.appliance None [])
    /\ hostname self = "olt-1"
    /\ port self = match ({["username" := VStr "operator"]} : gmap string value) !! "port" with
                   | Some v => v
                   | None => VInt 22
                   end
    /\ username self
       = match ({["username" := VStr "operator"]} : gmap string value) !! "username" with
         | Some v => v
         | None => VStr "admin"
         end
    /\ password self
       = match ({["username" := VStr "operator"]} : gmap string value) !! "password" with
         | Some v => v
         | None => VStr "secret"
         end
    /\ netmiko_optional_args self !! "port"
       = Some (match ({["username" := VStr "operator"]} : gmap string value) !! "port" with
               | Some v => v
               | None => port self
               end)
    /\ (forall key, key <> "port" ->
          netmiko_optional_args self !! key
          = ({["username" := VStr "operator"]} : gmap string value) !! key).
Proof.
  apply (@init_settings Scenario.appliance (Scenario.connector "") "olt-1" "admin" "secret"
           60 (Some {["username" := VStr "operator"]}) {["username" := VStr "operator"]}).
  reflexivity.
Defined.

(** X26 on a driver constructed without optional arguments. *)
Lemma fresh_driver_has_no_session_witness :
  @is_alive Scenario.appliance (@Driver Scenario.appliance None [])
  = (ok false, @Driver Scenario.appliance None [])
  /\ (forall command use_textfsm,
        @_send_command Scenario.appliance command use_textfsm
                       (@Driver Scenario.appliance None [])
        = (raise (AttributeError "'NoneType' object has no attribute 'find_prompt'"),
           @Driver Scenario.appliance None []))
  /\ (forall retrieve full sanitized,
        @get_config Scenario.appliance retrieve full sanitized
                    (@Driver Scenario.appliance None [])
        = (raise (AttributeError "'NoneType' object has no attribute 'send_command'"),
           @Driver Scenario.appliance None []))
  /\ (forall commands, commands <> [] ->
        @cli Scenario.appliance commands "text" (@Driver Scenario.appliance None [])
        = (raise (AttributeError "'NoneType' object has no attribute 'find_prompt'"),
           @Driver Scenario.appliance None [])).
Proof.
  eapply (@fresh_driver_has_no_session Scenario.appliance (Scenario.connector "")
            "olt-1" "admin" "secret" 60 None).
  reflexivity.
Defined.

(** ** The redaction rules, one at a time *)

Module RuleFacts.
Import Re ReFacts Redaction RedactionFacts.

(** The rules of [get_config] are line rules that write [<removed>]. *)
Lemma filters_write_removed :
  forallb (fun rule => match line_rule rule with
                       | Some (_, R) => String.eqb R "<removed>"
                       | None => false
                       end) filters = true.
Proof. vm_compute. reflexivity. Qed.

(** The text a rule keeps ends in white space. *)
Lemma find_keeps_space (P : re) :
  ends_space P = true ->
  forall s b u g rest,
    find P b s = Some (u, g, rest) ->
    exists g' w, g = g' ++ String w "" /\ Str.is_space w = true.
Proof.
  intros Hsp. induction s as [|c s IH]; intros b u g rest Hf; cbn [find] in Hf.
  - rewrite (runs_solid_none P Hsp true "" [] eq_refl) in Hf. discriminate.
  - destruct (runs true P (String c s) []) as [|y l] eqn:E.
    + exact (IH _ _ _ _ Hf).
    + injection Hf as _ <- <-.
      assert (Hy : In y (runs true P (String c s) [])) by (rewrite E; now left).
      apply runs_sound in Hy.
      destruct (ends_space_sound true P Hsp _ _ Hy) as (g' & w & Es & Hw).
      exists g', w. split; [|exact Hw].
      rewrite Es. change (String w y.1) with (String w "" ++ y.1).
      rewrite <- append_assoc. apply UptimeFacts.consumed_append.
Qed.

End RuleFacts.

(** X27.  Each of the four redaction rules of [get_config], applied with
    [re.sub] and [re.MULTILINE] to a one-line text: either leaves the text
    as it is, or keeps everything up to a white-space character and
    replaces what follows it by [<removed>]; applied again to its own
    result it changes nothing. *)
Theorem redaction_keeps_prefix :
  forall (rule : string * string) (s : string),
    In rule filters -> Redaction.one_line s = true ->
    exists t,
      re_sub true rule.1 rule.2 s = ok t
      /\ re_sub true rule.1 rule.2 t = ok t
      /\ (t = s
          \/ exists u g w rest,
               s = (u ++ g ++ String w rest)%string /\ Str.is_space w = true
               /\ t = (u ++ g ++ String w "<removed>")%string).
Proof.
  intros rule s Hin Hs.
  pose proof RuleFacts.filters_write_removed as Hall. rewrite forallb_forall in Hall.
  specialize (Hall rule Hin).
  destruct (Redaction.line_rule rule) as [[P R]|] eqn:E; [|discriminate].
  apply String.eqb_eq in Hall. subst R.
  destruct (RedactionFacts.line_rule_inv rule P _ E) as (Hf & Hsp & HR & _).
  exists (Redaction.redact P "<removed>" s).
  split; [exact (RedactionFacts.re_sub_line_rule rule P _ s E Hs)|]. split.
  - rewrite (RedactionFacts.re_sub_line_rule rule P _ _ E
               (RedactionFacts.redact_one_line P Hsp _ s HR Hs)).
    now rewrite (RedactionFacts.redact_idempotent P Hf Hsp _ s HR).
  - unfold Redaction.redact.
    destruct (Redaction.find P "" s) as [[[u g] rest]|] eqn:Ef; [right | now left].
    destruct (RedactionFacts.find_shape P Hsp _ _ _ _ _ Ef) as (p & Hp & Es).
    ReFacts.unapp. subst p.
    destruct (RuleFacts.find_keeps_space P Hsp _ _ _ _ _ Ef) as (g' & w & -> & Hw).
    exists u, g', w, rest. rewrite Es, !ReFacts.append_assoc. auto.
Qed.

(** X27 on a line with an SNMP community. *)
Lemma redaction_keeps_prefix_witness :
  exists t,
    re_sub true "(snmp community\s+\S+\s+).*$" "\1<removed>" "snmp community public ro" = ok t
    /\ re_sub true "(snmp community\s+\S+\s+).*$" "\1<removed>" t = ok t
    /\ (t = "snmp community public ro"
        \/ exists u g w rest,
             "snmp community public ro" = (u ++ g ++ String w rest)%string
             /\ Str.is_space w = true
             /\ t = (u ++ g ++ String w "<removed>")%string).
Proof.
  apply (redaction_keeps_prefix
           ("(snmp community\s+\S+\s+).*$", "\1<removed>") "snmp community public ro").
  - do 3 right. left. reflexivity.
  - reflexivity.
Defined.

